(** * SparkFun STP3593LF OCXO driver: register codec, control-word store
      and PI steering, embedded from [src/sfTk/sfDevSTP3593LF.cpp].

    [uint32_t] values are [Z] with the wrap-around written out, wire bytes
    are [Byte.byte], [double] is the kernel's binary64 [float] (IEEE 754,
    round to nearest even, evaluated operation by operation as the source
    writes them), the I2C bus ([sfTkII2C]) is an interface (a type class)
    whose state is threaded explicitly, and the two function-local statics
    of [setFrequencyByBiasMillis] are a record shared by every driver
    object of the program.  The constants are those of the library header
    [SparkFun_STP3593LF.h].  The save command, the Arduino front ends of
    both revisions of that header and the emulator sketch follow the
    driver. *)

From Stdlib Require Import ZArith List Bool Lia.
From Stdlib Require Import Floats Uint63.
From Stdlib Require Import Strings.Byte.
Import ListNotations.

Set Warnings "-inexact-float".
Local Open Scope Z_scope.

(* ===================================================================== *)
(** ** C++ scalar types *)
(* ===================================================================== *)

Module Cxx.

(** [uint32_t]: arithmetic is modulo 2^32. *)
Definition uint32_t (z : Z) : Z := z mod 2 ^ 32.

(** [(uint8_t) z]: the low eight bits, as a wire byte. *)
Definition uint8_t (z : Z) : byte :=
  match Byte.of_N (Z.to_N (z mod 256)) with
  | Some b => b
  | None => x00
  end.

(** [(uint32_t) b] for a byte [b]. *)
Definition uint32_of_byte (b : byte) : Z := Z.of_N (Byte.to_N b).

(** [(double) c] for a [uint32_t] value [c] (exact: c < 2^53). *)
Definition double_of_uint32 (c : Z) : float := of_uint63 (Uint63.of_Z c).

(** [isnan]: NaN is the only double that differs from itself. *)
Definition is_nan (x : float) : bool := negb (x =? x)%float.

(** [isfinite]: neither an infinity nor NaN. *)
Definition is_finite (x : float) : bool := (abs x <? infinity)%float.

(** A finite non-zero double as an integer mantissa and a biased
    exponent: [|x| = M * 2^(e - 2154)] with [2^52 <= M < 2^53]
    ([frexp], with the fraction scaled to an integer; 2154 is the
    exponent shift 2101 of [frshiftexp] plus the 53 mantissa bits). *)
Definition mantissa_exponent (x : float) : int * int :=
  let (f, e) := frshiftexp x in (normfr_mantissa f, e).

(** [round] of <math.h>: nearest integer, halfway cases away from zero,
    the sign kept; zeros, infinities and NaN are returned as they are.
    With [e >= 2154] the value is already an integer; otherwise
    [k = 2154 - e] fraction bits are dropped after adding one half. *)
Definition round (x : float) : float :=
  if is_nan x then x
  else if negb (is_finite x) then x
  else if (x =? 0)%float then x
  else
    let (M, e) := mantissa_exponent x in
    if (2154 <=? e)%uint63 then x
    else
      let k := (2154 - e)%uint63 in
      let n := ((M + (1 << (k - 1))) >> k)%uint63 in
      let r := of_uint63 n in
      if (x <? 0)%float then (- r)%float else r.

(** [(uint32_t) x] for a double [x], as a machine word: the fraction is
    discarded.  C++ defines the result only when the truncated value lies
    in [0, 2^32).  Outside that range the conversion is undefined; this
    embedding takes there what the x86-64 code of the conversion does (a
    truncating conversion to 64 bits, of which the low 32 bits are kept):
    the truncated value modulo 2^32 while [|x| < 2^63], and 0 for larger
    magnitudes ([2165 <= e]), for infinities and for NaN.  Other targets
    differ there (a saturating conversion gives 0 for every negative
    value); a statement that depends on a value outside [0, 2^32) says
    so. *)
Definition uint32_bits_of_double (x : float) : int :=
  if is_nan x then 0%uint63
  else if negb (is_finite x) then 0%uint63
  else if (x =? 0)%float then 0%uint63
  else
    let (M, e) := mantissa_exponent x in
    if (2165 <=? e)%uint63 then 0%uint63
    else
      let t := if (2154 <=? e)%uint63 then (M << (e - 2154))%uint63
               else (M >> (2154 - e))%uint63 in
      let t := (t land 4294967295)%uint63 in
      if (x <? 0)%float then ((4294967296 - t) land 4294967295)%uint63 else t.

Definition uint32_of_double (x : float) : Z :=
  Uint63.to_Z (uint32_bits_of_double x).

(** [round] once more, read off the sign [s], mantissa [m] and exponent
    [e] of the specification of doubles, [x = (-1)^s * m * 2^e]: the
    nearest integer to [m / 2^(-e)], halves upwards in magnitude.
    [round_reference_eq] shows that [round] computes exactly this. *)
Definition round_reference (x : float) : float :=
  match Prim2SF x with
  | S754_finite s m e =>
      if 0 <=? e then x
      else
        let n := (Zpos m + 2 ^ (- e - 1)) / 2 ^ (- e) in
        let r := of_uint63 (Uint63.of_Z n) in
        if s then (- r)%float else r
  | _ => x
  end.

(** [(uint32_t) x] once more, read off the specification of doubles:
    [m * 2^e] truncated, signed, modulo 2^32, and 0 from [2^63] on.
    [uint32_of_double_reference_eq] shows that [uint32_of_double]
    computes exactly this. *)
Definition uint32_of_double_reference (x : float) : Z :=
  match Prim2SF x with
  | S754_finite s m e =>
      let t := Z.shiftl (Zpos m) e in
      if 2 ^ 63 <=? t then 0 else (if s then - t else t) mod 2 ^ 32
  | _ => 0
  end.

End Cxx.

(* ===================================================================== *)
(** ** The SparkFun Toolkit bus interface *)
(* ===================================================================== *)

(** Modelled from the spec: the toolkit's [sfTkError_t], a 32-bit signed
    code with [ksfTkErrOk = 0] and [ksfTkErrFail = -1] (the toolkit header
    is not part of the repository); the driver only ever compares a code
    with [ksfTkErrOk]. *)
Definition sfTkError_t : Type := Z.
Definition ksfTkErrOk : sfTkError_t := 0.
Definition ksfTkErrFail : sfTkError_t := -1.

Definition sfTkError_eqb (a b : sfTkError_t) : bool := a =? b.

(** Modelled from the spec: the bus collaborator ([sfTkII2C]), section 6.
    Every primitive returns its result and the next bus state; a region
    read delivers the bytes it obtained, [readBytes] being their number. *)
Class sfTkII2C (B : Type) : Type := {
  ping : B -> sfTkError_t * B;
  readRegisterRegion : B -> Z -> nat -> sfTkError_t * list byte * B;
  writeRegisterRegion : B -> Z -> list byte -> sfTkError_t * B
}.

(** A bus call, as seen on the wire. *)
Inductive BusCall : Type :=
| CallPing
| CallRead (reg : Z) (numBytes : nat)
| CallWrite (reg : Z) (data : list byte).

(** Any bus, with the calls made on it recorded (newest last). *)
Record Logged (B : Type) : Type := mkLogged {
  inner : B;
  calls : list BusCall
}.
Arguments mkLogged {B} _ _.
Arguments inner {B} _.
Arguments calls {B} _.

#[export] Instance Logged_bus {B : Type} `{sfTkII2C B} : sfTkII2C (Logged B) := {
  ping l :=
    let '(e, b) := ping (inner l) in
    (e, mkLogged b (calls l ++ [CallPing]));
  readRegisterRegion l reg n :=
    let '(e, data, b) := readRegisterRegion (inner l) reg n in
    (e, data, mkLogged b (calls l ++ [CallRead reg n]));
  writeRegisterRegion l reg data :=
    let '(e, b) := writeRegisterRegion (inner l) reg data in
    (e, mkLogged b (calls l ++ [CallWrite reg data]))
}.

(** A bench double: replies are scripted, a call consumes the next one.
    An exhausted script answers with a failure. *)
Record Scripted : Type := mkScripted {
  ping_reply : sfTkError_t;
  read_replies : list (sfTkError_t * list byte);
  write_replies : list sfTkError_t
}.

#[export] Instance Scripted_bus : sfTkII2C Scripted := {
  ping s := (ping_reply s, s);
  readRegisterRegion s _ _ :=
    match read_replies s with
    | (e, data) :: rest =>
        (e, data, mkScripted (ping_reply s) rest (write_replies s))
    | [] => (ksfTkErrFail, [], s)
    end;
  writeRegisterRegion s _ _ :=
    match write_replies s with
    | e :: rest => (e, mkScripted (ping_reply s) (read_replies s) rest)
    | [] => (ksfTkErrFail, s)
    end
}.

(** The emulator sketch of the repository: one 4-byte register; the
    address byte is kept but ignored for the data, incoming data bytes
    overwrite the register from its first byte on, every transaction
    succeeds. *)
Record Emulator : Type := mkEmulator {
  registerBytes : list byte;
  registerAddress : Z
}.

#[export] Instance Emulator_bus : sfTkII2C Emulator := {
  ping e := (ksfTkErrOk, e);
  readRegisterRegion e reg n :=
    (ksfTkErrOk, firstn n (registerBytes e), mkEmulator (registerBytes e) reg);
  writeRegisterRegion e reg data :=
    (ksfTkErrOk,
     mkEmulator (firstn 4 (data ++ skipn (length data) (registerBytes e))) reg)
}.

(* ===================================================================== *)
(** ** The driver *)
(* ===================================================================== *)

Definition kSfeSTP3593LFRegReadFrequencyControl : Z := 0x41.
Definition kSfeSTP3593LFRegWriteDAC : Z := 0xA0.
Definition kSfeSTP3593LFRegSaveFrequency : Z := 0xC2.

Definition kSfeSTP3593LFFreqControlMaxValue : Z := 1000000.
Definition kSfeSTP3593LFFreqControlResolution : float := 8e-13%float.

Section Driver.

Context {B : Type} `{Bus : sfTkII2C B}.

(** The object: the bus it talks to and its two private members. *)
Record sfDevSTP3593LF : Type := mkDev {
  _theBus : B;
  _frequencyControl : Z;
  _maxFrequencyChangePPB : float
}.

Definition with_bus (d : sfDevSTP3593LF) (b : B) : sfDevSTP3593LF :=
  mkDev b (_frequencyControl d) (_maxFrequencyChangePPB d).

Definition with_frequencyControl (d : sfDevSTP3593LF) (c : Z) : sfDevSTP3593LF :=
  mkDev (_theBus d) c (_maxFrequencyChangePPB d).

(** The wire frame read out of [theBytes], most significant byte first
    (the four statements that build [frequencyControl]). *)
Definition decodeControlWord (theBytes : list byte) : Z :=
  let at_ i := Cxx.uint32_of_byte (nth i theBytes x00) in
  let frequencyControl := Cxx.uint32_t (Z.shiftl (at_ 0%nat) 24) in
  let frequencyControl := Z.lor frequencyControl (Cxx.uint32_t (Z.shiftl (at_ 1%nat) 16)) in
  let frequencyControl := Z.lor frequencyControl (Cxx.uint32_t (Z.shiftl (at_ 2%nat) 8)) in
  let frequencyControl := Z.lor frequencyControl (Cxx.uint32_t (Z.shiftl (at_ 3%nat) 0)) in
  frequencyControl.

Definition readFrequencyControlWord (d : sfDevSTP3593LF) : bool * sfDevSTP3593LF :=
  let '(err, theBytes, bus) :=
    readRegisterRegion (_theBus d) kSfeSTP3593LFRegReadFrequencyControl 4 in
  let d := with_bus d bus in
  if negb (sfTkError_eqb err ksfTkErrOk) then (false, d)
  else if negb (length theBytes =? 4)%nat then (false, d)
  else
    let frequencyControl := decodeControlWord theBytes in
    if frequencyControl >? kSfeSTP3593LFFreqControlMaxValue then (false, d)
    else (true, with_frequencyControl d frequencyControl).

(** [begin]: a null [commBus] is [None]. *)
Definition begin (commBus : option B) (d : sfDevSTP3593LF) : sfTkError_t * sfDevSTP3593LF :=
  match commBus with
  | None => (ksfTkErrFail, d)
  | Some bus =>
      let d := with_bus d bus in
      let '(err, bus) := ping (_theBus d) in
      let d := with_bus d bus in
      if negb (sfTkError_eqb err ksfTkErrOk) then (ksfTkErrFail, d)
      else
        let '(ok, d) := readFrequencyControlWord d in
        if ok then
          let '(ok, d) := readFrequencyControlWord d in
          (if ok then ksfTkErrOk else ksfTkErrFail, d)
        else (ksfTkErrFail, d)
  end.

Definition getFrequencyControlWord (d : sfDevSTP3593LF) : Z := _frequencyControl d.

(** The limit applied to [freq] before it is sent. *)
Definition limitControlWord (freq : Z) : Z :=
  if freq >? kSfeSTP3593LFFreqControlMaxValue
  then kSfeSTP3593LFFreqControlMaxValue else freq.

(** The four bytes put into [theBytes], most significant first. *)
Definition encodeControlWord (freq : Z) : list byte :=
  [ Cxx.uint8_t (Z.land (Z.shiftr freq 24) 0xFF);
    Cxx.uint8_t (Z.land (Z.shiftr freq 16) 0xFF);
    Cxx.uint8_t (Z.land (Z.shiftr freq 8) 0xFF);
    Cxx.uint8_t (Z.land (Z.shiftr freq 0) 0xFF) ].

Definition setFrequencyControlWord (d : sfDevSTP3593LF) (freq : Z) : bool * sfDevSTP3593LF :=
  let freq := limitControlWord freq in
  let theBytes := encodeControlWord freq in
  let '(err, bus) := writeRegisterRegion (_theBus d) kSfeSTP3593LFRegWriteDAC theBytes in
  let d := with_bus d bus in
  if negb (sfTkError_eqb err ksfTkErrOk) then (false, d)
  else (true, with_frequencyControl d freq).

Definition getMaxFrequencyChangePPB (d : sfDevSTP3593LF) : float :=
  _maxFrequencyChangePPB d.

Definition setMaxFrequencyChangePPB (d : sfDevSTP3593LF) (ppb : float) : sfDevSTP3593LF :=
  mkDev (_theBus d) (_frequencyControl d) ppb.

(** The two function-local statics of [setFrequencyByBiasMillis]: one
    copy for the whole program, whatever the number of driver objects. *)
Record Statics : Type := mkStatics {
  static_I : float;
  static_initialized : bool
}.

(** Static storage at program start: [I] zero-initialised,
    [initialized = false]. *)
Definition statics_at_start : Statics := mkStatics 0%float false.

(** [error]: setpoint zero minus the bias, then milliseconds to seconds. *)
Definition error_of_bias (bias : float) : float :=
  ((0.0 - bias) / 1000.0)%float.

(** [requiredChangeInLSBs] before the limit is applied. *)
Definition requiredChangeInLSBs (bias : float) : float :=
  (error_of_bias bias / kSfeSTP3593LFFreqControlResolution)%float.

Definition maxChangeInLSBs (maxFrequencyChangePPB : float) : float :=
  (maxFrequencyChangePPB * 1.0e-9 / kSfeSTP3593LFFreqControlResolution)%float.

(** The limit of [requiredChangeInLSBs] to +/-[maxChangeInLSBs], branch
    for branch. *)
Definition limitChangeInLSBs (required maxChange : float) : float :=
  if (0.0 <=? required)%float then
    if (maxChange <? required)%float then maxChange else required
  else
    if (required <? 0.0 - maxChange)%float then (0.0 - maxChange)%float
    else required.

(** The integrator the call works with: seeded from the control word of
    the object it is called on, the first time the function runs. *)
Definition seeded_I (st : Statics) (d : sfDevSTP3593LF) : float :=
  if static_initialized st then static_I st
  else Cxx.double_of_uint32 (_frequencyControl d).

(** The limited change of this call. *)
Definition limitedChange (d : sfDevSTP3593LF) (bias : float) : float :=
  limitChangeInLSBs (requiredChangeInLSBs bias)
                    (maxChangeInLSBs (_maxFrequencyChangePPB d)).

(** The control word handed to [setFrequencyControlWord]. *)
Definition requestedControlWord (st : Statics) (d : sfDevSTP3593LF)
    (bias Pk Ik : float) : Z :=
  let requiredChange := limitedChange d bias in
  let P := (requiredChange * Pk)%float in
  let dI := (requiredChange * Ik)%float in
  let I := (seeded_I st d + dI)%float in
  Cxx.uint32_of_double (Cxx.round (P + I)).

Definition setFrequencyByBiasMillis (st : Statics) (d : sfDevSTP3593LF)
    (bias Pk Ik : float) : bool * Statics * sfDevSTP3593LF :=
  let I := seeded_I st d in
  let requiredChange := limitedChange d bias in
  let P := (requiredChange * Pk)%float in
  let dI := (requiredChange * Ik)%float in
  let I := (I + dI)%float in
  let '(ok, d) :=
    setFrequencyControlWord d (Cxx.uint32_of_double (Cxx.round (P + I))) in
  (ok, mkStatics I true, d).

(** A program with several driver objects: the statics are shared, each
    object has its own members. *)
Record Program : Type := mkProgram {
  statics : Statics;
  objects : list sfDevSTP3593LF
}.

Fixpoint replace_object (i : nat) (d : sfDevSTP3593LF)
    (l : list sfDevSTP3593LF) : list sfDevSTP3593LF :=
  match l, i with
  | [], _ => []
  | _ :: t, O => d :: t
  | h :: t, S j => h :: replace_object j d t
  end.

(** [objects[i].setFrequencyByBiasMillis(bias, Pk, Ik)]. *)
Definition call_setFrequencyByBiasMillis (i : nat) (p : Program)
    (bias Pk Ik : float) : option (bool * Program) :=
  match nth_error (objects p) i with
  | None => None
  | Some d =>
      let '(ok, st, d) := setFrequencyByBiasMillis (statics p) d bias Pk Ik in
      Some (ok, mkProgram st (replace_object i d (objects p)))
  end.

End Driver.

Arguments sfDevSTP3593LF B : clear implicits.
Arguments Program B : clear implicits.

(* ===================================================================== *)
(** ** The save command and the Arduino front ends *)
(* ===================================================================== *)

(** [result &= x] for a [bool result] and an integer [x]: both operands
    are promoted to [int], the bitwise conjunction is converted back to
    [bool].  With [result] true only the lowest bit of [x] counts. *)
Definition and_assign (result : bool) (x : Z) : bool :=
  negb (Z.land (Z.b2z result) x =? 0).

(** Modelled from the spec: [writeByte] of the bus collaborator (section 6,
    the command write): one byte goes out, a [sfTkError_t] comes back. *)
Class sfTkII2C_writeByte (B : Type) : Type := {
  writeByte : B -> Z -> sfTkError_t * B
}.

(** Modelled from the spec: what the front ends ask of the Arduino bus
    object [sfTkArdI2C] besides the calls above: [init] on the default
    port or on a given [TwoWire] port (a port number here), and [setStop]. *)
Class sfTkArdI2C (B : Type) : Type := {
  init : B -> Z -> sfTkError_t * B;
  init_port : B -> nat -> Z -> sfTkError_t * B;
  setStop : B -> bool -> B
}.

#[export] Instance Scripted_writeByte : sfTkII2C_writeByte Scripted := {
  writeByte s _ :=
    match write_replies s with
    | e :: rest => (e, mkScripted (ping_reply s) (read_replies s) rest)
    | [] => (ksfTkErrFail, s)
    end
}.

#[export] Instance Scripted_ArdI2C : sfTkArdI2C Scripted := {
  init s _ := (ksfTkErrOk, s);
  init_port s _ _ := (ksfTkErrOk, s);
  setStop s _ := s
}.

(** A command byte reaches the emulator as a one-byte message: it lands
    in [registerAddress]. *)
#[export] Instance Emulator_writeByte : sfTkII2C_writeByte Emulator := {
  writeByte e data := (ksfTkErrOk, mkEmulator (registerBytes e) data)
}.

#[export] Instance Emulator_ArdI2C : sfTkArdI2C Emulator := {
  init e _ := (ksfTkErrOk, e);
  init_port e _ _ := (ksfTkErrOk, e);
  setStop e _ := e
}.

Definition kDefaultSTP3593LFAddr : Z := 0x70.

Section Commands.

Context {B : Type} `{Bus : sfTkII2C B} `{Cmd : sfTkII2C_writeByte B}.

Definition saveFrequencyControlValue (d : sfDevSTP3593LF B) : bool * sfDevSTP3593LF B :=
  let result := true in
  let '(err, bus) := writeByte (_theBus d) kSfeSTP3593LFRegSaveFrequency in
  let d := with_bus d bus in
  let result := and_assign result err in
  if result then
    let '(ok, d) := readFrequencyControlWord d in
    (and_assign result (Z.b2z ok), d)
  else (result, d).

Definition setCommunicationBus (d : sfDevSTP3593LF B) (theBus : B) : sfDevSTP3593LF B :=
  with_bus d theBus.

End Commands.

(** The front end of [SparkFun_STP3593LF.h] on top of [sfDevSTP3593LF].
    The bus object [_theI2CBus] is a member of the driver object and the
    bus [_theBus] points to once [begin] has run: the one field [_theBus]
    holds it. *)
Module SfeSTP3593LFArdI2C.
Section FrontEnd.

Context {B : Type} `{Bus : sfTkII2C B} `{Ard : sfTkArdI2C B}.

Definition beginDevice (d : sfDevSTP3593LF B) : bool * sfDevSTP3593LF B :=
  let '(err, bus) := ping (_theBus d) in
  let d := with_bus d bus in
  if sfTkError_eqb err ksfTkErrOk then (false, d)
  else
    let d := with_bus d (setStop (_theBus d) false) in
    let '(err, d) := begin (Some (_theBus d)) d in
    (sfTkError_eqb err ksfTkErrOk, d).

(** [begin(address)]. *)
Definition begin_address (d : sfDevSTP3593LF B) (address : Z) : bool * sfDevSTP3593LF B :=
  let '(err, bus) := init (_theBus d) address in
  let d := with_bus d bus in
  if negb (sfTkError_eqb err ksfTkErrOk) then (false, d)
  else beginDevice d.

(** [begin(wirePort, address)]. *)
Definition begin_port (d : sfDevSTP3593LF B) (wirePort : nat) (address : Z)
    : bool * sfDevSTP3593LF B :=
  let '(err, bus) := init_port (_theBus d) wirePort address in
  let d := with_bus d bus in
  if negb (sfTkError_eqb err ksfTkErrOk) then (false, d)
  else beginDevice d.

End FrontEnd.
End SfeSTP3593LFArdI2C.

(** The earlier revision of the library ([SparkFun_STP3593LF.cpp] with its
    header): the driver class [SfeSTP3593LFDriver], whose [begin] takes no
    bus and returns a [bool], and its front end. *)
Module SfeSTP3593LFDriver.
Section Earlier.

Context {B : Type} `{Bus : sfTkII2C B} `{Ard : sfTkArdI2C B}.

(** [SfeSTP3593LFDriver::begin]. *)
Definition driver_begin (d : sfDevSTP3593LF B) : bool * sfDevSTP3593LF B :=
  let '(err, bus) := ping (_theBus d) in
  let d := with_bus d bus in
  if negb (sfTkError_eqb err ksfTkErrOk) then (false, d)
  else
    let '(ok, d) := readFrequencyControlWord d in
    if ok then readFrequencyControlWord d
    else (false, d).

(** [SfeSTP3593LFArdI2C::begin(address)]; [begin()] passes
    [kDefaultSTP3593LFAddr]. *)
Definition begin_address (d : sfDevSTP3593LF B) (address : Z) : bool * sfDevSTP3593LF B :=
  let '(err, bus) := init (_theBus d) address in
  let d := with_bus d bus in
  if negb (sfTkError_eqb err ksfTkErrOk) then (false, d)
  else
    let d := setCommunicationBus d (_theBus d) in
    let d := with_bus d (setStop (_theBus d) false) in
    driver_begin d.

(** [SfeSTP3593LFArdI2C::begin(wirePort, address)]. *)
Definition begin_port (d : sfDevSTP3593LF B) (wirePort : nat) (address : Z)
    : bool * sfDevSTP3593LF B :=
  let '(err, bus) := init_port (_theBus d) wirePort address in
  let d := with_bus d bus in
  if negb (sfTkError_eqb err ksfTkErrOk) then (false, d)
  else
    let d := setCommunicationBus d (_theBus d) in
    let d := with_bus d (setStop (_theBus d) false) in
    driver_begin d.

End Earlier.
End SfeSTP3593LFDriver.

(* ===================================================================== *)
(** ** The emulator sketch *)
(* ===================================================================== *)

Definition NUM_REG_BYTES : Z := 4.

(** [a[i] = b] on an array held as a list. *)
Fixpoint array_store (a : list byte) (i : nat) (b : byte) : list byte :=
  match a, i with
  | [], _ => []
  | _ :: t, O => b :: t
  | h :: t, S j => h :: array_store t j b
  end.

(** [requestHandler]: the bytes it writes, [registerBytes[0]] first. *)
Definition requestHandler (e : Emulator) : list byte :=
  map (fun i => nth i (registerBytes e) x00) (seq 0 (Z.to_nat NUM_REG_BYTES)).

(** The loop of [receiveHandler] over the bytes waiting in the receive
    buffer, [count] as the source has it. *)
Fixpoint receiveLoop (available : list byte) (count : Z) (e : Emulator) : Emulator :=
  match available with
  | [] => e
  | b :: rest =>
      let e :=
        if count =? -1 then mkEmulator (registerBytes e) (Cxx.uint32_of_byte b)
        else if count <? NUM_REG_BYTES
             then mkEmulator (array_store (registerBytes e) (Z.to_nat count) b)
                             (registerAddress e)
             else e in
      receiveLoop rest (count + 1) e
  end.

Definition receiveHandler (e : Emulator) (available : list byte) : Emulator :=
  receiveLoop available (-1) e.

(** The control word [loop] prints: the four statements of the driver's
    decoder, on [registerBytes]. *)
Definition freqControl (e : Emulator) : Z := decodeControlWord (registerBytes e).

(* ===================================================================== *)
(** ** Example02: the sketch that steers once *)
(* ===================================================================== *)

Module Example02.

(** What [setup] leaves on the serial console: either the sketch stops at
    "STP3593LF not detected!" (and spins forever), or it prints the
    control word it found, the word that "should be" and the word that
    "is". *)
Inductive Console : Type :=
| NotDetected
| Printed (controlWord shouldBe itIs : Z).

Section Sketch.

Context {B : Type} `{Bus : sfTkII2C B}.

(** [myOCXO.begin()] of the header the sketch is built with. *)
Variable begin_default : sfDevSTP3593LF B -> bool * sfDevSTP3593LF B.

(** [setup], run once at program start (the statics of
    [setFrequencyByBiasMillis] are at their initial values). *)
Definition setup (myOCXO : sfDevSTP3593LF B) : Console * sfDevSTP3593LF B :=
  let '(begun, myOCXO) := begin_default myOCXO in
  if negb begun then (NotDetected, myOCXO)
  else
    let myOCXO := setMaxFrequencyChangePPB myOCXO 3.0 in
    let controlWord := getFrequencyControlWord myOCXO in
    let '(_, _, myOCXO) :=
      setFrequencyByBiasMillis statics_at_start myOCXO 200.0e-6 1.0 0.0 in
    (Printed controlWord (Cxx.uint32_t (controlWord - 3750))
             (getFrequencyControlWord myOCXO),
     myOCXO).

End Sketch.

End Example02.

(* ===================================================================== *)
(** ** Vocabulary of the statements *)
(* ===================================================================== *)

(** A region read the driver accepts: the bus reports success, four bytes
    arrived, and they decode to a value within bounds. *)
Definition accepted {B : Type} (reply : sfTkError_t * list byte * B) : bool :=
  sfTkError_eqb (fst (fst reply)) ksfTkErrOk
  && (length (snd (fst reply)) =? 4)%nat
  && (decodeControlWord (snd (fst reply)) <=? kSfeSTP3593LFFreqControlMaxValue).

(** Non-negative doubles ([0 <= x]): a zero, +infinity or a positive
    finite number. *)
Definition SFnonneg (x : spec_float) : Prop :=
  match x with
  | S754_zero _ | S754_infinity false | S754_finite false _ _ => True
  | _ => False
  end.

(** Negative doubles: -infinity or a negative finite number. *)
Definition SFneg (x : spec_float) : Prop :=
  match x with
  | S754_infinity true | S754_finite true _ _ => True
  | _ => False
  end.

(** Finite doubles: a zero or a finite number. *)
Definition SFfinite (x : spec_float) : Prop :=
  match x with
  | S754_zero _ | S754_finite _ _ _ => True
  | _ => False
  end.

(** Non-positive doubles ([x <= 0]): a zero, -infinity or a negative
    finite number. *)
Definition SFnonpos (x : spec_float) : Prop :=
  match x with
  | S754_zero _ | S754_infinity true | S754_finite true _ _ => True
  | _ => False
  end.

(** A number whose sign bit is [s]. *)
Definition SFsigned (s : bool) (x : spec_float) : Prop :=
  match x with
  | S754_zero t | S754_infinity t | S754_finite t _ _ => t = s
  | S754_nan => False
  end.

(** What [n] right shifts of [m] leave: the quotient by [2^n], and in
    the two bits the position of the remainder against one half. *)
Definition shr_inv (m n : Z) (mrs : shr_record) : Prop :=
  0 <= shr_m mrs /\
  0 <= m - shr_m mrs * 2 ^ n < 2 ^ n /\
  (shr_r mrs = true <-> 2 ^ n <= 2 * (m - shr_m mrs * 2 ^ n)) /\
  (shr_s mrs = true <-> (2 * (m - shr_m mrs * 2 ^ n)) mod 2 ^ n <> 0).

(** Round to nearest, ties to even, of [m / 2^n]. *)
Definition rne (m n : Z) : Z :=
  let q := m / 2 ^ n in
  let t := 2 * (m mod 2 ^ n) in
  if t <? 2 ^ n then q
  else if 2 ^ n <? t then q + 1
  else if Z.even q then q else q + 1.

(** The result of rounding, from the rounded mantissa [mr <= 2^53] and
    its exponent. *)
Definition norm_out (sx : bool) (mr E : Z) : spec_float :=
  if mr =? 0 then S754_zero sx
  else if mr <? 2 ^ 53 then
    if E <=? 971 then S754_finite sx (Z.to_pos mr) E else S754_infinity sx
  else
    if E + 1 <=? 971 then S754_finite sx (Z.to_pos (2 ^ 52)) (E + 1)
    else S754_infinity sx.

(** The exponent at which [m * 2^e] is rounded. *)
Definition round_exponent (m e : Z) : Z := fexp prec emax (Zdigits2 m + e).

(** [f] holds on the [2^k] integers from [lo] on. *)
Fixpoint forall_block (f : Z -> bool) (lo : Z) (k : nat) : bool :=
  match k with
  | O => f lo
  | S k' => forall_block f lo k' && forall_block f (lo + 2 ^ Z.of_nat k') k'
  end.

(** With a zero proportional term and a zero integrator step (of either
    sign), the word computed from an integrator seeded with the control
    word [c] is [c] again. *)
Definition word_kept (c : Z) : bool :=
  let ci := Uint63.of_Z c in
  if (ci <=? 1000000)%uint63 then
    forallb (fun zP =>
      forallb (fun zI =>
        (Cxx.uint32_bits_of_double (Cxx.round (zP + (of_uint63 ci + zI))) =? ci)%uint63)
        [0%float; (-0)%float]) [0%float; (-0)%float]
  else true.

(** The change of the documented example: 3 ppb, in LSBs, downwards. *)
Definition example_change : float := (-3750.0000000000005)%float.

(** In the documented example the word computed from an integrator
    seeded with the control word [c >= 3750] is [c - 3750]. *)
Definition word_lowered (c : Z) : bool :=
  let ci := Uint63.of_Z c in
  if (3750 <=? ci)%uint63 && (ci <=? 1000000)%uint63 then
    (Cxx.uint32_bits_of_double
       (Cxx.round (example_change * 1.0
                   + (of_uint63 ci + example_change * 0.0)))
     =? ci - 3750)%uint63
  else true.

(* ===================================================================== *)
(** ** Bench fixtures *)
(* ===================================================================== *)

(** A bus whose next region read delivers only three bytes. *)
Definition bus_short_read : Scripted :=
  mkScripted ksfTkErrOk [(ksfTkErrOk, [x00; x07; xa1])] [].

(** A bus that answers the ping and the first read (500000), and fails
    the second read. *)
Definition bus_second_read_fails : Scripted :=
  mkScripted ksfTkErrOk
    [(ksfTkErrOk, [x00; x07; xa1; x20]); (ksfTkErrFail, [])] [].

(** A bus on which every write fails. *)
Definition bus_write_fails : Scripted := mkScripted ksfTkErrOk [] [].

(** The emulator at its power-on value, 500000. *)
Definition emulator_at_reset : Emulator := mkEmulator [x00; x07; xa1; x20] 0.

(** A bus on which the save command is not acknowledged and the next
    region read delivers 500000. *)
Definition bus_save_unacknowledged : Scripted :=
  mkScripted ksfTkErrOk [(ksfTkErrOk, [x00; x07; xa1; x20])] [].

(* ===================================================================== *)
(** ** Register codec *)
(* ===================================================================== *)

Lemma sfTkError_eqb_Ok (e : sfTkError_t) :
  sfTkError_eqb e ksfTkErrOk = true <-> e = ksfTkErrOk.
Proof. unfold sfTkError_eqb. apply Z.eqb_eq. Qed.

Lemma uint32_of_uint8 (z : Z) :
  Cxx.uint32_of_byte (Cxx.uint8_t z) = z mod 256.
Proof.
  unfold Cxx.uint32_of_byte, Cxx.uint8_t.
  assert (Hr : 0 <= z mod 256 < 256) by (apply Z.mod_pos_bound; lia).
  destruct (Byte.of_N (Z.to_N (z mod 256))) as [b|] eqn:E.
  - apply Byte.to_of_N in E. rewrite E. lia.
  - apply Byte.of_N_None_iff in E. lia.
Qed.

Lemma testbit_uint32_high (v n : Z) :
  0 <= v < 2 ^ 32 -> 32 <= n -> Z.testbit v n = false.
Proof.
  intros Hv Hn.
  destruct (Z.eq_dec v 0) as [->|Hz]; [apply Z.bits_0|].
  apply Z.bits_above_log2; [lia|].
  apply Z.lt_le_trans with 32; [|exact Hn].
  apply Z.log2_lt_pow2; lia.
Qed.

Ltac bits_of_frame :=
  repeat first
    [ rewrite Z.lor_spec
    | rewrite Z.land_spec
    | rewrite Z.shiftl_spec by lia
    | rewrite Z.testbit_ones by lia ].

Ltac split_bit_index :=
  repeat match goal with
         | |- context [Z.leb ?a ?b] => destruct (Z.leb_spec a b); try lia
         | |- context [Z.ltb ?a ?b] => destruct (Z.ltb_spec a b); try lia
         end.

(** The frame of a 32-bit value decodes to that value. *)
Lemma decode_encode (v : Z) :
  0 <= v < 2 ^ 32 -> decodeControlWord (encodeControlWord v) = v.
Proof.
  intros Hv.
  unfold decodeControlWord, encodeControlWord; cbn [nth].
  rewrite !uint32_of_uint8. unfold Cxx.uint32_t.
  change 256 with (2 ^ 8). change 0xFF with (Z.ones 8).
  rewrite <- !Z.land_ones by lia.
  apply Z.bits_inj'; intros n Hn.
  bits_of_frame.
  split_bit_index;
    cbn [andb orb];
    rewrite ?andb_true_r, ?andb_false_r, ?orb_false_r; cbn [orb];
    rewrite ?Z.shiftr_spec by lia;
    try (symmetry; apply testbit_uint32_high; lia);
    f_equal; lia.
Qed.

Lemma limitControlWord_min (freq : Z) :
  limitControlWord freq = Z.min freq kSfeSTP3593LFFreqControlMaxValue.
Proof.
  unfold limitControlWord.
  destruct (Z.gtb_spec freq kSfeSTP3593LFFreqControlMaxValue); lia.
Qed.

Lemma encodeControlWord_bytes (w : Z) :
  map Cxx.uint32_of_byte (encodeControlWord w) =
  [ (w / 2 ^ 24) mod 256; (w / 2 ^ 16) mod 256; (w / 2 ^ 8) mod 256; w mod 256 ].
Proof.
  unfold encodeControlWord; cbn [map].
  rewrite !uint32_of_uint8.
  change 0xFF with (Z.ones 8).
  rewrite !Z.land_ones by lia.
  rewrite !Z.shiftr_div_pow2 by lia.
  change (2 ^ 8) with 256. change (2 ^ 0) with 1.
  rewrite Z.div_1_r, !Z.mod_mod by lia.
  reflexivity.
Qed.

(** C8: the register codec round-trips: for every 32-bit value [v], the
    frame produced by the encode path (limit, then four bytes) has four
    bytes and decodes to [min v 1000000], which the range check of the
    decode path accepts. *)
Theorem codec_roundtrip (v : Z) :
  0 <= v < 2 ^ 32 ->
  let frame := encodeControlWord (limitControlWord v) in
  length frame = 4%nat /\
  decodeControlWord frame = Z.min v kSfeSTP3593LFFreqControlMaxValue /\
  (decodeControlWord frame >? kSfeSTP3593LFFreqControlMaxValue) = false.
Proof.
  intros Hv frame. subst frame.
  rewrite limitControlWord_min.
  assert (Hm : 0 <= Z.min v kSfeSTP3593LFFreqControlMaxValue < 2 ^ 32)
    by (unfold kSfeSTP3593LFFreqControlMaxValue; lia).
  rewrite (decode_encode _ Hm).
  repeat split.
  destruct (Z.gtb_spec (Z.min v kSfeSTP3593LFFreqControlMaxValue)
                       kSfeSTP3593LFFreqControlMaxValue); lia.
Qed.

Lemma codec_roundtrip_witness :
  decodeControlWord (encodeControlWord (limitControlWord 1500000)) = 1000000.
Proof.
  exact (proj1 (proj2 (codec_roundtrip 1500000 ltac:(lia)))).
Defined.

(* ===================================================================== *)
(** ** Control-word store: write and read *)
(* ===================================================================== *)

Section StoreFacts.

Context {B : Type} `{Bus : sfTkII2C B}.

(** What a write does, in terms of the bus primitive. *)
Lemma setFrequencyControlWord_unfold (d : sfDevSTP3593LF B) (freq : Z) :
  setFrequencyControlWord d freq =
  let w := Z.min freq kSfeSTP3593LFFreqControlMaxValue in
  let r := writeRegisterRegion (_theBus d) kSfeSTP3593LFRegWriteDAC
                               (encodeControlWord w) in
  if sfTkError_eqb (fst r) ksfTkErrOk
  then (true, mkDev (snd r) w (_maxFrequencyChangePPB d))
  else (false, mkDev (snd r) (_frequencyControl d) (_maxFrequencyChangePPB d)).
Proof.
  unfold setFrequencyControlWord. rewrite limitControlWord_min. cbv zeta.
  destruct (writeRegisterRegion _ _ _) as [err bus]; cbn [fst snd].
  destruct (sfTkError_eqb err ksfTkErrOk); reflexivity.
Qed.

(** What a read does, in terms of the bus primitive. *)
Lemma readFrequencyControlWord_unfold (d : sfDevSTP3593LF B) :
  readFrequencyControlWord d =
  let r := readRegisterRegion (_theBus d) kSfeSTP3593LFRegReadFrequencyControl 4 in
  let err := fst (fst r) in
  let theBytes := snd (fst r) in
  if sfTkError_eqb err ksfTkErrOk
     && (length theBytes =? 4)%nat
     && (decodeControlWord theBytes <=? kSfeSTP3593LFFreqControlMaxValue)
  then (true, mkDev (snd r) (decodeControlWord theBytes) (_maxFrequencyChangePPB d))
  else (false, mkDev (snd r) (_frequencyControl d) (_maxFrequencyChangePPB d)).
Proof.
  unfold readFrequencyControlWord. cbv zeta.
  destruct (readRegisterRegion _ _ _) as [[err theBytes] bus]; cbn [fst snd].
  destruct (sfTkError_eqb err ksfTkErrOk); cbn [negb andb]; [|reflexivity].
  destruct (length theBytes =? 4)%nat; cbn [negb andb]; [|reflexivity].
  rewrite Z.gtb_ltb, Z.ltb_antisym.
  destruct (decodeControlWord theBytes <=? kSfeSTP3593LFFreqControlMaxValue);
    reflexivity.
Qed.

End StoreFacts.

(** What a write does on a bus whose calls are recorded. *)
Lemma setFrequencyControlWord_logged
    {B : Type} `{Bus : sfTkII2C B} (d : sfDevSTP3593LF (Logged B)) (freq : Z) :
  let w := Z.min freq kSfeSTP3593LFFreqControlMaxValue in
  let frame := encodeControlWord w in
  let wire := writeRegisterRegion (inner (_theBus d)) kSfeSTP3593LFRegWriteDAC frame in
  let bus := mkLogged (snd wire)
               (calls (_theBus d) ++ [CallWrite kSfeSTP3593LFRegWriteDAC frame]) in
  setFrequencyControlWord d freq =
    if sfTkError_eqb (fst wire) ksfTkErrOk
    then (true, mkDev bus w (_maxFrequencyChangePPB d))
    else (false, mkDev bus (_frequencyControl d) (_maxFrequencyChangePPB d)).
Proof.
  intros w frame wire bus.
  rewrite setFrequencyControlWord_unfold. cbv zeta.
  fold w. fold frame. cbn [writeRegisterRegion Logged_bus]. fold wire.
  subst bus. destruct wire as [err b]. reflexivity.
Qed.

(** C7: [setFrequencyControlWord] limits [freq] to 1000000 and puts
    exactly four bytes of the limited value on the bus, most significant
    first, in one write to register 0xA0; the call fails only when that bus
    write fails; on success the stored word is the limited value; and a
    value above the maximum behaves in every respect as the maximum does. *)
Theorem setFrequencyControlWord_limits_then_encodes
    {B : Type} `{Bus : sfTkII2C B} (d : sfDevSTP3593LF (Logged B)) (freq : Z) :
  let w := Z.min freq kSfeSTP3593LFFreqControlMaxValue in
  let frame := encodeControlWord w in
  let wire := writeRegisterRegion (inner (_theBus d)) kSfeSTP3593LFRegWriteDAC frame in
  let r := setFrequencyControlWord d freq in
  length frame = 4%nat /\
  map Cxx.uint32_of_byte frame =
    [ (w / 2 ^ 24) mod 256; (w / 2 ^ 16) mod 256; (w / 2 ^ 8) mod 256; w mod 256 ] /\
  calls (_theBus (snd r)) =
    calls (_theBus d) ++ [CallWrite kSfeSTP3593LFRegWriteDAC frame] /\
  (fst r = true <-> fst wire = ksfTkErrOk) /\
  _frequencyControl (snd r) = (if fst r then w else _frequencyControl d) /\
  (kSfeSTP3593LFFreqControlMaxValue < freq ->
   encodeControlWord (limitControlWord freq) =
     encodeControlWord kSfeSTP3593LFFreqControlMaxValue /\
   setFrequencyControlWord d freq =
     setFrequencyControlWord d kSfeSTP3593LFFreqControlMaxValue).
Proof.
  intros w frame wire r.
  assert (Hsame : kSfeSTP3593LFFreqControlMaxValue < freq ->
                  setFrequencyControlWord d freq =
                  setFrequencyControlWord d kSfeSTP3593LFFreqControlMaxValue).
  { intros Hgt. unfold setFrequencyControlWord.
    rewrite !limitControlWord_min.
    replace (Z.min freq kSfeSTP3593LFFreqControlMaxValue)
      with (Z.min kSfeSTP3593LFFreqControlMaxValue kSfeSTP3593LFFreqControlMaxValue)
      by (unfold kSfeSTP3593LFFreqControlMaxValue in *; lia).
    reflexivity. }
  split; [reflexivity|].
  split; [apply encodeControlWord_bytes|].
  assert (Hr : r =
    if sfTkError_eqb (fst wire) ksfTkErrOk
    then (true, mkDev (mkLogged (snd wire) (calls (_theBus d) ++
                         [CallWrite kSfeSTP3593LFRegWriteDAC frame]))
                      w (_maxFrequencyChangePPB d))
    else (false, mkDev (mkLogged (snd wire) (calls (_theBus d) ++
                         [CallWrite kSfeSTP3593LFRegWriteDAC frame]))
                       (_frequencyControl d) (_maxFrequencyChangePPB d)))
    by apply setFrequencyControlWord_logged.
  split; [|split; [|split]].
  - rewrite Hr. destruct (sfTkError_eqb (fst wire) ksfTkErrOk); reflexivity.
  - rewrite Hr, <- sfTkError_eqb_Ok.
    destruct (sfTkError_eqb (fst wire) ksfTkErrOk); cbn [fst]; tauto.
  - rewrite Hr. destruct (sfTkError_eqb (fst wire) ksfTkErrOk); reflexivity.
  - intros Hgt. split; [|exact (Hsame Hgt)].
    rewrite limitControlWord_min. f_equal.
    unfold kSfeSTP3593LFFreqControlMaxValue in *. lia.
Qed.

(** C6: [readFrequencyControlWord] fails and leaves the cached control
    word as it was when the bus read fails, when fewer than four bytes
    arrive, or when the decoded big-endian value exceeds 1000000; in every
    other case (the bus never delivers more than the four bytes asked for)
    it succeeds and the cache holds the decoded value. *)
Theorem readFrequencyControlWord_cases
    {B : Type} `{Bus : sfTkII2C B} (d : sfDevSTP3593LF B) :
  let reply := readRegisterRegion (_theBus d) kSfeSTP3593LFRegReadFrequencyControl 4 in
  let err := fst (fst reply) in
  let theBytes := snd (fst reply) in
  let r := readFrequencyControlWord d in
  (length theBytes <= 4)%nat ->
  (err <> ksfTkErrOk ->
     fst r = false /\ _frequencyControl (snd r) = _frequencyControl d) /\
  ((length theBytes < 4)%nat ->
     fst r = false /\ _frequencyControl (snd r) = _frequencyControl d) /\
  (kSfeSTP3593LFFreqControlMaxValue < decodeControlWord theBytes ->
     fst r = false /\ _frequencyControl (snd r) = _frequencyControl d) /\
  (err = ksfTkErrOk -> ~ (length theBytes < 4)%nat ->
   ~ kSfeSTP3593LFFreqControlMaxValue < decodeControlWord theBytes ->
     fst r = true /\ _frequencyControl (snd r) = decodeControlWord theBytes).
Proof.
  intros reply err theBytes r Hlen.
  assert (Hr : r = readFrequencyControlWord d) by reflexivity.
  rewrite readFrequencyControlWord_unfold in Hr. cbv zeta in Hr.
  fold reply in Hr. fold err in Hr. fold theBytes in Hr.
  clearbody r reply. subst r.
  destruct (sfTkError_eqb err ksfTkErrOk) eqn:E; cbn [andb].
  - apply sfTkError_eqb_Ok in E.
    destruct (Nat.eqb_spec (length theBytes) 4) as [H4|H4]; cbn [andb];
      [|repeat split; cbn [fst snd]; intros; try reflexivity; lia].
    destruct (Z.leb_spec (decodeControlWord theBytes)
                         kSfeSTP3593LFFreqControlMaxValue);
      repeat split; cbn [fst snd]; intros;
      try reflexivity; try lia; try contradiction.
  - assert (Hne : err <> ksfTkErrOk)
      by (intros X; apply sfTkError_eqb_Ok in X; congruence).
    repeat split; cbn [fst snd]; intros; try reflexivity; contradiction.
Qed.

Lemma readFrequencyControlWord_cases_witness :
  fst (readFrequencyControlWord (mkDev bus_short_read 123456 400%float)) = false /\
  _frequencyControl (snd (readFrequencyControlWord (mkDev bus_short_read 123456 400%float)))
    = 123456.
Proof.
  refine (proj1 (proj2 (readFrequencyControlWord_cases
                          (mkDev bus_short_read 123456 400%float) _)) _).
  - vm_compute. lia.
  - vm_compute. lia.
Defined.

(* ===================================================================== *)
(** ** Start-up *)
(* ===================================================================== *)

(** C4, as the claim states it, fails in two ways.  (1) With a bus that
    answers the ping and the first read (500000) but fails the second
    read, [begin] reports failure and yet the cached control word has moved
    from 0 to 500000, the value of the first read.  (2) With a bus whose
    first read delivers three bytes, [begin] gives up after that one
    read: the bus saw the ping and a single register read. *)
Lemma begin_commits_first_read :
  (let d := mkDev bus_write_fails 0 400%float in
   let out := begin (Some bus_second_read_fails) d in
   fst out = ksfTkErrFail /\
   _frequencyControl d = 0 /\
   _frequencyControl (snd out) = 500000) /\
  (let d := mkDev (mkLogged bus_write_fails []) 0 400%float in
   let out := begin (Some (mkLogged bus_short_read [])) d in
   fst out = ksfTkErrFail /\
   calls (_theBus (snd out)) =
     [CallPing; CallRead kSfeSTP3593LFRegReadFrequencyControl 4]).
Proof. vm_compute. repeat split. Qed.

(** C4, amended: [begin] pings the device and then reads the control-word
    register at most twice: not at all when the ping fails, once when the
    first read is not accepted, twice otherwise.  It reports success exactly
    when the ping and both reads succeed.  Every accepted read commits its
    decoded value: after two accepted reads the cache holds the second
    value, after an accepted first and a failed second read it holds the
    first value, and otherwise it is unchanged. *)
Theorem begin_reads_twice
    {B : Type} `{Bus : sfTkII2C B} (bus : Logged B) (d : sfDevSTP3593LF (Logged B)) :
  let p := ping bus in
  let r1 := readRegisterRegion (snd p) kSfeSTP3593LFRegReadFrequencyControl 4 in
  let r2 := readRegisterRegion (snd r1) kSfeSTP3593LFRegReadFrequencyControl 4 in
  let rd := CallRead kSfeSTP3593LFRegReadFrequencyControl 4 in
  let out := begin (Some bus) d in
  (fst out = ksfTkErrOk <->
     fst p = ksfTkErrOk /\ accepted r1 = true /\ accepted r2 = true) /\
  (fst p <> ksfTkErrOk ->
     calls (_theBus (snd out)) = calls bus ++ [CallPing] /\
     _frequencyControl (snd out) = _frequencyControl d) /\
  (fst p = ksfTkErrOk -> accepted r1 = false ->
     calls (_theBus (snd out)) = calls bus ++ [CallPing; rd] /\
     _frequencyControl (snd out) = _frequencyControl d) /\
  (fst p = ksfTkErrOk -> accepted r1 = true ->
     calls (_theBus (snd out)) = calls bus ++ [CallPing; rd; rd] /\
     _frequencyControl (snd out) =
       if accepted r2 then decodeControlWord (snd (fst r2))
       else decodeControlWord (snd (fst r1))).
Proof.
  intros p r1 r2 rd out.
  assert (Hcp : calls (snd p) = calls bus ++ [CallPing]).
  { subst p. cbn [ping Logged_bus]. destruct (ping (inner bus)); reflexivity. }
  assert (Hc1 : calls (snd r1) = calls (snd p) ++ [rd]).
  { subst r1. cbn [readRegisterRegion Logged_bus].
    destruct (readRegisterRegion (inner (snd p)) _ _) as [[? ?] ?]; reflexivity. }
  assert (Hc2 : calls (snd r2) = calls (snd r1) ++ [rd]).
  { subst r2. cbn [readRegisterRegion Logged_bus].
    destruct (readRegisterRegion (inner (snd r1)) _ _) as [[? ?] ?]; reflexivity. }
  assert (Hout : out =
    if sfTkError_eqb (fst p) ksfTkErrOk then
      if accepted r1 then
        if accepted r2
        then (ksfTkErrOk, mkDev (snd r2) (decodeControlWord (snd (fst r2)))
                                (_maxFrequencyChangePPB d))
        else (ksfTkErrFail, mkDev (snd r2) (decodeControlWord (snd (fst r1)))
                                  (_maxFrequencyChangePPB d))
      else (ksfTkErrFail, mkDev (snd r1) (_frequencyControl d)
                                (_maxFrequencyChangePPB d))
    else (ksfTkErrFail, mkDev (snd p) (_frequencyControl d)
                              (_maxFrequencyChangePPB d))).
  { subst out. unfold begin. cbn [with_bus _theBus].
    fold p. destruct p as [e0 b1] eqn:Ep. cbn [fst snd] in *.
    unfold with_bus; cbn [_theBus _frequencyControl _maxFrequencyChangePPB].
    destruct (sfTkError_eqb e0 ksfTkErrOk); cbn [negb]; [|reflexivity].
    rewrite readFrequencyControlWord_unfold. cbv zeta.
    cbn [_theBus _frequencyControl _maxFrequencyChangePPB].
    fold r1. fold (accepted r1).
    destruct (accepted r1); [|reflexivity].
    rewrite readFrequencyControlWord_unfold. cbv zeta.
    cbn [_theBus _frequencyControl _maxFrequencyChangePPB].
    fold r2. fold (accepted r2).
    destruct (accepted r2); reflexivity. }
  clearbody out. subst out.
  rewrite Hcp in Hc1. rewrite Hc1 in Hc2. rewrite <- !app_assoc in *.
  cbn [app] in *.
  pose proof (sfTkError_eqb_Ok (fst p)) as Hok.
  destruct (sfTkError_eqb (fst p) ksfTkErrOk).
  - assert (Hp : fst p = ksfTkErrOk) by (apply Hok; reflexivity).
    destruct (accepted r1), (accepted r2); cbn [fst snd _theBus _frequencyControl];
      (split; [split; [intros X; try discriminate X; auto
                      | intros [_ [X1 X2]]; try discriminate; reflexivity]|]);
      (split; [intros X; contradiction|]);
      (split; intros _ X; try discriminate X; split; try reflexivity; assumption).
  - assert (Hp : fst p <> ksfTkErrOk)
      by (intros X; apply Hok in X; discriminate).
    cbn [fst snd _theBus _frequencyControl].
    split; [split; [discriminate | intros [X _]; contradiction]|].
    split; [intros _; split; [assumption|reflexivity]|].
    split; intros X; contradiction.
Qed.

(* ===================================================================== *)
(** ** Doubles *)
(* ===================================================================== *)

(** *** Order facts on the specification floats *)

Lemma SFcompare_antisym (x y : spec_float) :
  SFcompare y x = option_map CompOpp (SFcompare x y).
Proof.
  destruct x as [sx|sx| |sx mx ex], y as [sy|sy| |sy my ey]; cbn;
    try reflexivity;
    try (destruct sx; reflexivity);
    try (destruct sy; reflexivity);
    try (destruct sx, sy; reflexivity).
  f_equal.
  destruct sx, sy; try reflexivity;
    rewrite (Z.compare_antisym ex ey);
    destruct (ex ?= ey); cbn; try reflexivity;
    rewrite !Pos.compare_cont_spec, (Pos.compare_antisym mx my);
    destruct (mx ?= my)%positive; reflexivity.
Qed.

Lemma SFcompare_refl (x : spec_float) :
  x <> S754_nan -> SFcompare x x = Some Eq.
Proof.
  destruct x as [s|s| |s m e]; cbn; intros H; try reflexivity.
  - destruct s; reflexivity.
  - contradiction.
  - f_equal. rewrite Z.compare_refl, Pos.compare_cont_refl.
    destruct s; reflexivity.
Qed.

(** *** Order facts on doubles *)

Lemma is_nan_false (x : float) :
  Cxx.is_nan x = false <-> Prim2SF x <> S754_nan.
Proof.
  unfold Cxx.is_nan. rewrite FloatAxioms.eqb_spec. unfold SFeqb.
  destruct (Prim2SF x) as [s|s| |s m e] eqn:E.
  - cbn. split; [discriminate|reflexivity].
  - destruct s; cbn; split; try discriminate; reflexivity.
  - cbn. split; [discriminate|intros H; contradiction].
  - rewrite SFcompare_refl by discriminate. cbn. split; [discriminate|reflexivity].
Qed.

Lemma leb_refl (x : float) : Cxx.is_nan x = false -> (x <=? x)%float = true.
Proof.
  intros H. apply is_nan_false in H.
  rewrite FloatAxioms.leb_spec. unfold SFleb. rewrite SFcompare_refl by exact H. reflexivity.
Qed.

Lemma leb_total (x y : float) :
  Cxx.is_nan x = false -> Cxx.is_nan y = false ->
  (y <? x)%float = false -> (x <=? y)%float = true.
Proof.
  intros Hx Hy. apply is_nan_false in Hx. apply is_nan_false in Hy.
  rewrite FloatAxioms.ltb_spec, FloatAxioms.leb_spec. unfold SFltb, SFleb.
  rewrite (SFcompare_antisym (Prim2SF x) (Prim2SF y)).
  destruct (Prim2SF x), (Prim2SF y); try contradiction;
    destruct (SFcompare _ _) as [[]|] eqn:E; cbn; try discriminate; try reflexivity;
    cbn in E; discriminate E.
Qed.

Lemma nonneg_spec (x : float) :
  (0 <=? x)%float = true -> SFnonneg (Prim2SF x).
Proof.
  rewrite FloatAxioms.leb_spec. change (Prim2SF 0) with (S754_zero false).
  destruct (Prim2SF x) as [s|s| |s m e]; cbn; try destruct s; cbn;
    try discriminate; trivial.
Qed.

Lemma neg_spec (x : float) :
  Cxx.is_nan x = false -> (0 <=? x)%float = false -> SFneg (Prim2SF x).
Proof.
  intros Hn. apply is_nan_false in Hn. revert Hn.
  rewrite FloatAxioms.leb_spec. change (Prim2SF 0) with (S754_zero false).
  destruct (Prim2SF x) as [s|s| |s m e]; cbn; try destruct s; cbn;
    try discriminate; trivial; intros; contradiction.
Qed.

Lemma minus_nonneg_spec (x : float) :
  SFnonneg (Prim2SF x) ->
  match Prim2SF (0 - x) with
  | S754_zero _ | S754_infinity true | S754_finite true _ _ => True
  | _ => False
  end.
Proof.
  rewrite FloatAxioms.sub_spec. change (Prim2SF 0) with (S754_zero false).
  destruct (Prim2SF x) as [s|s| |s m e]; cbn; try destruct s; cbn; trivial.
Qed.

Lemma minus_nonneg_not_nan (x : float) :
  SFnonneg (Prim2SF x) -> Cxx.is_nan (0 - x) = false.
Proof.
  intros H. apply minus_nonneg_spec in H. apply is_nan_false.
  destruct (Prim2SF (0 - x)); try discriminate. contradiction.
Qed.

Lemma minus_nonneg_le_nonneg (x y : float) :
  SFnonneg (Prim2SF x) -> SFnonneg (Prim2SF y) -> (0 - x <=? y)%float = true.
Proof.
  intros Hx Hy. apply minus_nonneg_spec in Hx.
  rewrite FloatAxioms.leb_spec.
  destruct (Prim2SF (0 - x)) as [s|s| |s m e], (Prim2SF y) as [t|t| |t n f];
    cbn in *; try contradiction;
    repeat match goal with b : bool |- _ => destruct b end;
    cbn in *; try contradiction; reflexivity.
Qed.

Lemma neg_le_nonneg (x y : float) :
  SFneg (Prim2SF x) -> SFnonneg (Prim2SF y) -> (x <=? y)%float = true.
Proof.
  intros Hx Hy. rewrite FloatAxioms.leb_spec.
  destruct (Prim2SF x) as [s|s| |s m e], (Prim2SF y) as [t|t| |t n f];
    cbn in *; try contradiction;
    repeat match goal with b : bool |- _ => destruct b end;
    cbn in *; try contradiction; reflexivity.
Qed.

Lemma nonneg_not_nan (x : float) : SFnonneg (Prim2SF x) -> Cxx.is_nan x = false.
Proof.
  intros H. apply is_nan_false. destruct (Prim2SF x); try discriminate. contradiction.
Qed.

(** The limit keeps a change that is a number within
    [-maxChange, +maxChange], whenever that range is not empty. *)
Lemma limitChangeInLSBs_range (required maxChange : float) :
  Cxx.is_nan required = false ->
  (0 <=? maxChange)%float = true ->
  let r := limitChangeInLSBs required maxChange in
  (0 - maxChange <=? r)%float = true /\ (r <=? maxChange)%float = true.
Proof.
  intros Hreq Hmax r. subst r. unfold limitChangeInLSBs.
  pose proof (nonneg_spec _ Hmax) as Hm.
  destruct (0 <=? required)%float eqn:E0.
  - pose proof (nonneg_spec _ E0) as Hr.
    destruct (maxChange <? required)%float eqn:E1.
    + split; [apply minus_nonneg_le_nonneg; assumption|].
      apply leb_refl, nonneg_not_nan, Hm.
    + split; [apply minus_nonneg_le_nonneg; assumption|].
      apply leb_total; try assumption. apply nonneg_not_nan, Hm.
  - pose proof (neg_spec _ Hreq E0) as Hr.
    destruct (required <? 0 - maxChange)%float eqn:E1.
    + split; [apply leb_refl, minus_nonneg_not_nan, Hm|].
      apply minus_nonneg_le_nonneg; assumption.
    + split; [|apply neg_le_nonneg; assumption].
      apply leb_total; try assumption. apply minus_nonneg_not_nan, Hm.
Qed.

(** *** The conversions between doubles and integers *)

Lemma Zpos_iter_xO (m p : positive) :
  Zpos (Pos.iter xO m p) = Zpos m * 2 ^ Zpos p.
Proof.
  rewrite <- Z.shiftl_mul_pow2 by lia. cbn [Z.shiftl].
  apply (Pos.iter_swap_gen _ _ Zpos xO (Z.mul 2)). reflexivity.
Qed.

Lemma digits2_pos_bounds (m : positive) :
  2 ^ (Zpos (digits2_pos m) - 1) <= Zpos m < 2 ^ Zpos (digits2_pos m).
Proof.
  induction m as [m IH|m IH|]; cbn [digits2_pos].
  - rewrite Pos2Z.inj_succ.
    replace (Z.succ (Zpos (digits2_pos m)) - 1) with (Z.succ (Zpos (digits2_pos m) - 1)) by lia.
    rewrite !Z.pow_succ_r by lia. lia.
  - rewrite Pos2Z.inj_succ.
    replace (Z.succ (Zpos (digits2_pos m)) - 1) with (Z.succ (Zpos (digits2_pos m) - 1)) by lia.
    rewrite !Z.pow_succ_r by lia. lia.
  - cbn. lia.
Qed.

(** What validity says of a finite double: at most 53 mantissa bits,
    fewer only at the smallest exponent. *)
Lemma finite_valid (x : float) (s : bool) (m : positive) (e : Z) :
  Prim2SF x = S754_finite s m e ->
  Zpos (digits2_pos m) <= 53 /\ -1074 <= e <= 971 /\
  (Zpos (digits2_pos m) < 53 -> e = -1074).
Proof.
  intros Hx. pose proof (Prim2SF_valid x) as Hv. rewrite Hx in Hv.
  cbn [valid_binary] in Hv. unfold bounded, canonical_mantissa, fexp in Hv.
  apply andb_prop in Hv. destruct Hv as [Hc He].
  apply Z.eqb_eq in Hc. apply Z.leb_le in He.
  change (SpecFloat.emin prec emax) with (-1074) in Hc.
  change prec with 53 in *. change emax with 1024 in *. lia.
Qed.

(** The mantissa and exponent as [round] uses them: a 53-bit [M] and the
    unbiased exponent [q] with [M * 2^q = m * 2^e]. *)
Lemma mantissa_exponent_normal (x : float) (s : bool) (m : positive) (e : Z) :
  Prim2SF x = S754_finite s m e ->
  exists d, 0 <= d <= 52 /\ (0 < d -> e = -1074) /\ -1074 <= e <= 971 /\
    Zpos m < 2 ^ (53 - d) /\
    Uint63.to_Z (fst (Cxx.mantissa_exponent x)) = Zpos m * 2 ^ d /\
    Uint63.to_Z (snd (Cxx.mantissa_exponent x)) = e - d + 2154.
Proof.
  intros Hx. destruct (finite_valid x s m e Hx) as [Hd [He Hsub]].
  pose proof (digits2_pos_bounds m) as Hm.
  unfold Cxx.mantissa_exponent.
  pose proof (frshiftexp_spec x) as Hf.
  destruct (frshiftexp x) as [f b]. cbn [fst snd].
  pose proof (normfr_mantissa_spec f) as Hn.
  rewrite Hx in Hf. cbn [SFfrexp] in Hf.
  destruct (prec <=? Zpos (digits2_pos m)) eqn:Ed.
  - apply Z.leb_le in Ed. change prec with 53 in Ed.
    injection Hf as Hf Hb. rewrite Hf in Hn. cbn [SFnormfr_mantissa] in Hn.
    rewrite Z.eqb_refl in Hn. cbn [Z.of_N] in Hn.
    exists 0. rewrite Hn. change shift with 2101 in Hb. change prec with 53 in Hb.
    replace (Zpos (digits2_pos m)) with 53 in Hm by lia.
    repeat split; try lia.
  - cbv zeta in Hf. injection Hf as Hf Hb. rewrite Hf in Hn.
    cbn [SFnormfr_mantissa] in Hn. rewrite Z.eqb_refl in Hn.
    apply Z.leb_gt in Ed.
    change (IntDef.Z.pos_sub 53 (digits2_pos m))
      with (prec - Zpos (digits2_pos m)) in *.
    change shift with 2101 in Hb. change prec with 53 in *.
    exists (53 - Zpos (digits2_pos m)).
    split; [lia|]. split; [intros _; apply Hsub; lia|]. split; [lia|].
    split; [replace (53 - (53 - Zpos (digits2_pos m))) with (Zpos (digits2_pos m)) by lia; lia|].
    split; [|lia].
    rewrite Hn. cbn [Z.of_N].
    destruct (53 - Zpos (digits2_pos m)) as [|p|p] eqn:Ep; try lia.
    cbn [Z.to_pos]. apply Zpos_iter_xO.
Qed.

Lemma finite_tests (x : float) (s : bool) (m : positive) (e : Z) :
  Prim2SF x = S754_finite s m e ->
  Cxx.is_nan x = false /\ Cxx.is_finite x = true /\
  (x =? 0)%float = false /\ (x <? 0)%float = s.
Proof.
  intros Hx. unfold Cxx.is_nan, Cxx.is_finite.
  rewrite !FloatAxioms.eqb_spec, !FloatAxioms.ltb_spec, FloatAxioms.abs_spec, Hx.
  change (Prim2SF 0) with (S754_zero false).
  change (Prim2SF infinity) with (S754_infinity false).
  unfold SFeqb, SFltb. rewrite SFcompare_refl by discriminate.
  cbn. destruct s; repeat split.
Qed.

Lemma round_shift (m d e : Z) :
  0 < m -> 0 <= d -> e < 0 -> m < 2 ^ (53 - d) -> d <= 52 ->
  ((m * 2 ^ d + 2 ^ (d - e - 1) mod wB) mod wB) / 2 ^ (d - e)
  = (m + 2 ^ (- e - 1)) / 2 ^ (- e).
Proof.
  intros Hm Hd He Hlt Hd52.
  assert (HM : m * 2 ^ d < 2 ^ 53).
  { replace 53 with ((53 - d) + d) by lia. rewrite Z.pow_add_r by lia.
    apply Z.mul_lt_mono_pos_r; [apply Z.pow_pos_nonneg; lia|exact Hlt]. }
  assert (H0 : 0 < 2 ^ d) by (apply Z.pow_pos_nonneg; lia).
  change wB with (2 ^ 63).
  destruct (Z.le_gt_cases (d - e - 1) 61) as [Hq|Hq].
  - assert (Hp : 2 ^ (d - e - 1) <= 2 ^ 61) by (apply Z.pow_le_mono_r; lia).
    assert (0 < 2 ^ (d - e - 1)) by (apply Z.pow_pos_nonneg; lia).
    rewrite (Z.mod_small (2 ^ (d - e - 1))) by lia.
    rewrite Z.mod_small by lia.
    replace (d - e - 1) with ((- e - 1) + d) by lia.
    replace (d - e) with ((- e) + d) by lia.
    rewrite !Z.pow_add_r by lia.
    rewrite <- Z.mul_add_distr_r.
    apply Z.div_mul_cancel_r; [|lia].
    apply Z.pow_nonzero; lia.
  - assert (Hbig : 2 ^ 63 <= 2 ^ (d - e)) by (apply Z.pow_le_mono_r; lia).
    rewrite Z.div_small.
    2:{ pose proof (Z.mod_pos_bound (m * 2 ^ d + 2 ^ (d - e - 1) mod 2 ^ 63) (2 ^ 63)
                      ltac:(lia)). lia. }
    symmetry. apply Z.div_small.
    assert (Hm2 : 2 ^ (53 - d) <= 2 ^ (- e - 1)) by (apply Z.pow_le_mono_r; lia).
    assert (0 < 2 ^ (- e - 1)) by (apply Z.pow_pos_nonneg; lia).
    replace (2 ^ (- e)) with (2 * 2 ^ (- e - 1))
      by (rewrite <- Z.pow_succ_r by lia; f_equal; lia).
    lia.
Qed.

(** [Cxx.round] is the rounding read off the specification of doubles. *)
Lemma round_reference_eq (x : float) : Cxx.round x = Cxx.round_reference x.
Proof.
  unfold Cxx.round, Cxx.round_reference.
  destruct (Prim2SF x) as [s|s| |s m e] eqn:Hx.
  - assert (Hn : Cxx.is_nan x = false).
    { unfold Cxx.is_nan. rewrite FloatAxioms.eqb_spec, Hx. reflexivity. }
    assert (Hz : (x =? 0)%float = true).
    { rewrite FloatAxioms.eqb_spec, Hx. reflexivity. }
    rewrite Hn, Hz. destruct (negb (Cxx.is_finite x)); reflexivity.
  - assert (Hn : Cxx.is_nan x = false).
    { unfold Cxx.is_nan. rewrite FloatAxioms.eqb_spec, Hx. destruct s; reflexivity. }
    assert (Hf : Cxx.is_finite x = false).
    { unfold Cxx.is_finite. rewrite FloatAxioms.ltb_spec, FloatAxioms.abs_spec, Hx.
      reflexivity. }
    rewrite Hn, Hf. reflexivity.
  - assert (Hn : Cxx.is_nan x = true).
    { unfold Cxx.is_nan. rewrite FloatAxioms.eqb_spec, Hx. reflexivity. }
    rewrite Hn. reflexivity.
  - destruct (finite_tests x s m e Hx) as [Hn [Hf [Hz Hs]]].
    rewrite Hn, Hf, Hz, Hs. cbn [negb].
    destruct (mantissa_exponent_normal x s m e Hx)
      as [d [Hd [Hsub [He [Hm [HM Hb]]]]]].
    destruct (Cxx.mantissa_exponent x) as [M b]. cbn [fst snd] in HM, Hb.
    destruct (2154 <=? b)%uint63 eqn:Eb.
    + apply Uint63.leb_spec in Eb. change (to_Z 2154) with 2154 in Eb.
      destruct (Z.leb_spec 0 e); [reflexivity|lia].
    + assert (Eb' : to_Z b < 2154).
      { destruct (Z.lt_ge_cases (to_Z b) 2154) as [H|H]; [exact H|].
        assert ((2154 <=? b)%uint63 = true)
          by (apply Uint63.leb_spec; change (to_Z 2154) with 2154; lia).
        congruence. }
      assert (He0 : e < 0) by lia.
      destruct (Z.leb_spec 0 e); [lia|].
      assert (Hk : to_Z (2154 - b)%uint63 = d - e).
      { rewrite Uint63.sub_spec. change (to_Z 2154) with 2154.
        rewrite Hb. replace (2154 - (e - d + 2154)) with (d - e) by lia.
        apply Z.mod_small. change wB with (2 ^ 63). lia. }
      assert (Hk1 : to_Z (2154 - b - 1)%uint63 = d - e - 1).
      { rewrite Uint63.sub_spec, Hk. change (to_Z 1) with 1.
        apply Z.mod_small. change wB with (2 ^ 63). lia. }
      assert (Hn' : to_Z ((M + (1 << (2154 - b - 1))) >> (2154 - b))%uint63
                    = (Zpos m + 2 ^ (- e - 1)) / 2 ^ (- e)).
      { rewrite Uint63.lsr_spec, Uint63.add_spec, Uint63.lsl_spec, Hk, Hk1, HM.
        change (to_Z 1) with 1. rewrite Z.mul_1_l.
        apply round_shift; lia. }
      rewrite <- Hn', Uint63.of_to_Z. reflexivity.
Qed.

Lemma mask32_spec (x : int) :
  to_Z (x land 4294967295)%uint63 = to_Z x mod 2 ^ 32.
Proof.
  rewrite Uint63.land_spec'. change (to_Z 4294967295) with (Z.ones 32).
  apply Z.land_ones. lia.
Qed.

Lemma neg32_spec (t : int) :
  to_Z t < 2 ^ 32 ->
  to_Z ((4294967296 - t) land 4294967295)%uint63 = (- to_Z t) mod 2 ^ 32.
Proof.
  intros Ht. pose proof (Uint63.to_Z_bounded t) as Hb.
  rewrite mask32_spec, Uint63.sub_spec.
  change (to_Z 4294967296) with (2 ^ 32).
  rewrite (Z.mod_small (2 ^ 32 - to_Z t)) by (change wB with (2 ^ 63); lia).
  replace (2 ^ 32 - to_Z t) with (- to_Z t + 1 * 2 ^ 32) by lia.
  apply Z.mod_add. lia.
Qed.

Lemma opp_mod_mod (a n : Z) : 0 < n -> (- (a mod n)) mod n = (- a) mod n.
Proof.
  intros Hn.
  rewrite (Z.div_mod a n) at 2 by lia.
  replace (- (n * (a / n) + a mod n)) with (- (a mod n) + (- (a / n)) * n) by lia.
  rewrite Z.mod_add by lia. reflexivity.
Qed.

(** [Cxx.uint32_of_double] is the conversion read off the specification
    of doubles: truncate, then wrap modulo 2^32, and 0 from [2^63] on. *)
Lemma uint32_of_double_reference_eq (x : float) :
  Cxx.uint32_of_double x = Cxx.uint32_of_double_reference x.
Proof.
  unfold Cxx.uint32_of_double, Cxx.uint32_bits_of_double, Cxx.uint32_of_double_reference.
  destruct (Prim2SF x) as [s|s| |s m e] eqn:Hx.
  - assert (Hn : Cxx.is_nan x = false).
    { unfold Cxx.is_nan. rewrite FloatAxioms.eqb_spec, Hx. reflexivity. }
    assert (Hz : (x =? 0)%float = true).
    { rewrite FloatAxioms.eqb_spec, Hx. reflexivity. }
    rewrite Hn, Hz. destruct (negb (Cxx.is_finite x)); reflexivity.
  - assert (Hn : Cxx.is_nan x = false).
    { unfold Cxx.is_nan. rewrite FloatAxioms.eqb_spec, Hx. destruct s; reflexivity. }
    assert (Hf : Cxx.is_finite x = false).
    { unfold Cxx.is_finite. rewrite FloatAxioms.ltb_spec, FloatAxioms.abs_spec, Hx.
      reflexivity. }
    rewrite Hn, Hf. reflexivity.
  - assert (Hn : Cxx.is_nan x = true).
    { unfold Cxx.is_nan. rewrite FloatAxioms.eqb_spec, Hx. reflexivity. }
    rewrite Hn. reflexivity.
  - destruct (finite_tests x s m e Hx) as [Hn [Hf [Hz Hs]]].
    rewrite Hn, Hf, Hz, Hs. cbn [negb].
    destruct (mantissa_exponent_normal x s m e Hx)
      as [d [Hd [Hsub [He [Hm [HM Hb]]]]]].
    destruct (Cxx.mantissa_exponent x) as [M b]. cbn [fst snd] in HM, Hb.
    destruct (finite_valid x s m e Hx) as (Hdig & _ & Hsubn).
    pose proof (digits2_pos_bounds m) as Hmb.
    destruct (2165 <=? b)%uint63 eqn:Ebig.
    { apply Uint63.leb_spec in Ebig. change (to_Z 2165) with 2165 in Ebig.
      assert (d = 0) by lia. subst d.
      assert (Hfull : Zpos (digits2_pos m) = 53) by lia.
      rewrite Hfull in Hmb.
      rewrite Z.shiftl_mul_pow2 by lia.
      assert (Hbig : 2 ^ 63 <= Zpos m * 2 ^ e).
      { change (2 ^ 63) with (2 ^ 52 * 2 ^ 11).
        apply Z.mul_le_mono_nonneg; try lia.
        apply Z.pow_le_mono_r; lia. }
      destruct (Z.leb_spec (2 ^ 63) (Zpos m * 2 ^ e)); [reflexivity|lia]. }
    assert (Eb11 : to_Z b < 2165).
    { destruct (Z.lt_ge_cases (to_Z b) 2165) as [H|H]; [exact H|].
      assert ((2165 <=? b)%uint63 = true)
        by (apply Uint63.leb_spec; change (to_Z 2165) with 2165; lia).
      congruence. }
    assert (Hsmall : Z.shiftl (Zpos m) e < 2 ^ 63).
    { destruct (Z.le_gt_cases 0 e) as [He0|He0].
      - assert (d = 0) by lia. subst d.
        rewrite Z.shiftl_mul_pow2 by lia.
        apply Z.lt_le_trans with (2 ^ 53 * 2 ^ e).
        + apply Z.mul_lt_mono_pos_r; [apply Z.pow_pos_nonneg; lia|].
          rewrite Z.sub_0_r in Hm. exact Hm.
        + change (2 ^ 63) with (2 ^ 53 * 2 ^ 10).
          apply Z.mul_le_mono_nonneg_l; [lia|]. apply Z.pow_le_mono_r; lia.
      - rewrite Z.shiftl_div_pow2 by lia.
        apply Z.le_lt_trans with (Zpos m).
        + pose proof (Z.pow_pos_nonneg 2 (- e) ltac:(lia) ltac:(lia)) as Hp.
          apply Z.div_le_upper_bound; [exact Hp|]. nia.
        + apply Z.lt_le_trans with (2 ^ (53 - d)); [exact Hm|].
          apply Z.pow_le_mono_r; lia. }
    destruct (Z.leb_spec (2 ^ 63) (Z.shiftl (Zpos m) e)) as [Hge|_]; [lia|].
    set (t := if (2154 <=? b)%uint63 then (M << (b - 2154))%uint63
              else (M >> (2154 - b))%uint63).
    assert (Ht : to_Z t mod 2 ^ 32 = Z.shiftl (Zpos m) e mod 2 ^ 32).
    { subst t. destruct (2154 <=? b)%uint63 eqn:Eb.
      - apply Uint63.leb_spec in Eb. change (to_Z 2154) with 2154 in Eb.
        assert (d = 0) by lia. subst d.
        rewrite Uint63.lsl_spec, Uint63.sub_spec, HM, Hb.
        change (to_Z 2154) with 2154.
        replace (e - 0 + 2154 - 2154) with e by lia.
        rewrite (Z.mod_small e) by (change wB with (2 ^ 63); lia).
        rewrite Z.mul_1_r, Z.shiftl_mul_pow2 by lia.
        change wB with (2 ^ 63).
        apply Z.mod_mod_divide. exists (2 ^ 31). reflexivity.
      - assert (Eb' : to_Z b < 2154).
        { destruct (Z.lt_ge_cases (to_Z b) 2154) as [H|H]; [exact H|].
          assert ((2154 <=? b)%uint63 = true)
            by (apply Uint63.leb_spec; change (to_Z 2154) with 2154; lia).
          congruence. }
        assert (He0 : e < 0) by lia.
        rewrite Uint63.lsr_spec, Uint63.sub_spec, HM, Hb.
        change (to_Z 2154) with 2154.
        replace (2154 - (e - d + 2154)) with (d - e) by lia.
        rewrite (Z.mod_small (d - e)) by (change wB with (2 ^ 63); lia).
        f_equal.
        replace e with (- (- e)) at 2 by lia.
        rewrite Z.shiftl_opp_r, Z.shiftr_div_pow2 by lia.
        replace (d - e) with ((- e) + d) by lia.
        rewrite Z.pow_add_r by lia.
        apply Z.div_mul_cancel_r; apply Z.pow_nonzero; lia. }
    assert (Ht32 : to_Z (t land 4294967295)%uint63 = Z.shiftl (Zpos m) e mod 2 ^ 32)
      by (rewrite mask32_spec; exact Ht).
    destruct s.
    + rewrite neg32_spec, Ht32.
      * apply opp_mod_mod. lia.
      * rewrite Ht32. apply Z.mod_pos_bound. lia.
    + exact Ht32.
Qed.

(** [round] on sample values: halfway cases go away from zero, the
    largest double below one half goes to zero, the sign of a zero result
    is kept, integers are fixed. *)
Example round_samples :
  Cxx.round 2.5 = 3%float /\ Cxx.round (-2.5) = (-3)%float /\
  Cxx.round 0.5 = 1%float /\ Cxx.round 0.49999999999999994 = 0%float /\
  Cxx.round (-0.4) = (-0)%float /\ Cxx.round 1.5 = 2%float /\
  Cxx.round 999999.5 = 1000000%float /\
  Cxx.round 3750.0000000000005 = 3750%float /\
  Cxx.round 4503599627370495.5 = 4503599627370496%float /\
  Cxx.round 1e300 = 1e300%float /\ Cxx.round infinity = infinity.
Proof. vm_compute. repeat split. Qed.

(** [(uint32_t)] on sample values: truncation toward zero, and outside
    [0, 2^32) the wrap-around of this embedding below [2^63] in magnitude
    and 0 from there on. *)
Example uint32_of_double_samples :
  Cxx.uint32_of_double 3750.7 = 3750 /\
  Cxx.uint32_of_double 4294967295.0 = 4294967295 /\
  Cxx.uint32_of_double (-0.5) = 0 /\
  Cxx.uint32_of_double (-1.0) = 2 ^ 32 - 1 /\
  Cxx.uint32_of_double (-3750.0) = 2 ^ 32 - 3750 /\
  Cxx.uint32_of_double 4294967296.0 = 0 /\
  Cxx.uint32_of_double 8589934593.0 = 1 /\
  Cxx.uint32_of_double 9223372036854774784.0 = 2 ^ 32 - 1024 /\
  Cxx.uint32_of_double 9223372036854777856.0 = 0 /\
  Cxx.uint32_of_double (-9223372036854775808.0) = 0 /\
  Cxx.uint32_of_double (-1e300) = 0 /\
  Cxx.uint32_of_double nan = 0.
Proof. vm_compute. repeat split. Qed.

(** *** Division by a finite constant never produces NaN *)

Lemma shr_1_nonneg (mrs : shr_record) :
  0 <= shr_m mrs -> 0 <= shr_m (shr_1 mrs).
Proof.
  destruct mrs as [m r s]. cbn.
  destruct m as [|p|p]; cbn; try lia; destruct p; cbn; lia.
Qed.

Lemma iter_shr_1_nonneg (n : positive) :
  forall mrs, 0 <= shr_m mrs -> 0 <= shr_m (iter_pos shr_1 n mrs).
Proof.
  induction n as [n IH|n IH|]; intros mrs H; cbn.
  - apply IH, IH, shr_1_nonneg, H.
  - apply IH, IH, H.
  - apply shr_1_nonneg, H.
Qed.

Lemma shr_fexp_nonneg (m e : Z) (l : location) :
  0 <= m -> 0 <= shr_m (fst (shr_fexp prec emax m e l)).
Proof.
  intros H. unfold shr_fexp, shr.
  assert (H0 : 0 <= shr_m (shr_record_of_loc m l))
    by (destruct l as [|[]]; exact H).
  destruct (fexp prec emax (Zdigits2 m + e) - e); cbn [fst]; try exact H0.
  apply iter_shr_1_nonneg, H0.
Qed.

Lemma binary_round_aux_not_nan (sx : bool) (mx ex : Z) (lx : location) :
  0 <= mx -> binary_round_aux prec emax sx mx ex lx <> S754_nan.
Proof.
  intros H. unfold binary_round_aux.
  pose proof (shr_fexp_nonneg mx ex lx H) as H1.
  destruct (shr_fexp prec emax mx ex lx) as [mrs' e']. cbn [fst] in H1.
  assert (H2 : 0 <= round_nearest_even (shr_m mrs') (loc_of_shr_record mrs')).
  { unfold round_nearest_even.
    destruct (loc_of_shr_record mrs') as [|[]]; try lia.
    destruct (Z.even (shr_m mrs')); lia. }
  pose proof (shr_fexp_nonneg _ e' loc_Exact H2) as H3.
  destruct (shr_fexp prec emax _ e' loc_Exact) as [mrs'' e'']. cbn [fst] in H3.
  destruct (shr_m mrs'') as [|p|p]; try discriminate; [|lia].
  destruct (e'' <=? emax - prec); discriminate.
Qed.

Lemma SFdiv_finite_not_nan (x : spec_float) (s : bool) (m : positive) (e : Z) :
  x <> S754_nan -> SFdiv prec emax x (S754_finite s m e) <> S754_nan.
Proof.
  destruct x as [sx|sx| |sx mx ex]; cbn [SFdiv]; intros H; try discriminate.
  - contradiction.
  - unfold SFdiv_core_binary.
    set (m' := match _ - _ with Z0 => _ | Zpos _ => _ | Zneg _ => _ end).
    assert (Hm : 0 <= m').
    { subst m'. destruct (_ - _); try lia. apply Z.shiftl_nonneg. lia. }
    pose proof (Z_div_mod m' (Zpos m) ltac:(lia)) as Hd.
    destruct (Z.div_eucl m' (Zpos m)) as [q r].
    apply binary_round_aux_not_nan. nia.
Qed.

Lemma div_finite_not_nan (x c : float) :
  Cxx.is_nan x = false ->
  (exists s m e, Prim2SF c = S754_finite s m e) ->
  Cxx.is_nan (x / c) = false.
Proof.
  intros Hx [s [m [e Hc]]]. apply is_nan_false in Hx. apply is_nan_false.
  rewrite FloatAxioms.div_spec, Hc. apply SFdiv_finite_not_nan, Hx.
Qed.

Lemma zero_minus_not_nan (x : float) :
  Cxx.is_nan x = false -> Cxx.is_nan (0 - x) = false.
Proof.
  intros Hx. apply is_nan_false in Hx. apply is_nan_false.
  rewrite FloatAxioms.sub_spec. change (Prim2SF 0) with (S754_zero false).
  destruct (Prim2SF x) as [s|s| |s m e]; cbn; try discriminate;
    try contradiction; destruct s; discriminate.
Qed.

(** A bias that is a number gives a required change that is a number. *)
Lemma requiredChangeInLSBs_not_nan (bias : float) :
  Cxx.is_nan bias = false -> Cxx.is_nan (requiredChangeInLSBs bias) = false.
Proof.
  intros H. unfold requiredChangeInLSBs, error_of_bias.
  apply div_finite_not_nan; [apply div_finite_not_nan|].
  - apply zero_minus_not_nan, H.
  - eexists _, _, _. vm_compute. reflexivity.
  - eexists _, _, _. vm_compute. reflexivity.
Qed.

(** *** Finite doubles *)

Lemma is_finite_spec (x : float) :
  Cxx.is_finite x = true -> SFfinite (Prim2SF x).
Proof.
  unfold Cxx.is_finite.
  rewrite FloatAxioms.ltb_spec, FloatAxioms.abs_spec.
  change (Prim2SF infinity) with (S754_infinity false).
  destruct (Prim2SF x) as [s|s| |s m e]; cbn; try discriminate; trivial.
Qed.

(** Within a finite limit the limited change of a number is finite. *)
Lemma limitChangeInLSBs_finite (required maxChange : float) :
  Cxx.is_nan required = false ->
  Cxx.is_finite maxChange = true ->
  SFfinite (Prim2SF (limitChangeInLSBs required maxChange)).
Proof.
  intros Hreq Hfin.
  apply is_nan_false in Hreq. apply is_finite_spec in Hfin.
  unfold limitChangeInLSBs.
  destruct (0.0 <=? required)%float eqn:E0.
  - destruct (maxChange <? required)%float eqn:E1; [exact Hfin|].
    revert E0 E1. rewrite FloatAxioms.leb_spec, FloatAxioms.ltb_spec.
    change (Prim2SF 0.0) with (S754_zero false).
    destruct (Prim2SF required) as [s|s| |s m e],
             (Prim2SF maxChange) as [t|t| |t n f];
      cbn; trivial; try contradiction;
      repeat match goal with b : bool |- _ => destruct b end;
      cbn; discriminate.
  - destruct (required <? 0.0 - maxChange)%float eqn:E1.
    + rewrite FloatAxioms.sub_spec. change (Prim2SF 0.0) with (S754_zero false).
      destruct (Prim2SF maxChange) as [t|t| |t n f]; try contradiction;
        cbn; try destruct t; exact I.
    + revert E0 E1.
      rewrite FloatAxioms.leb_spec, FloatAxioms.ltb_spec, FloatAxioms.sub_spec.
      change (Prim2SF 0.0) with (S754_zero false).
      destruct (Prim2SF required) as [s|s| |s m e],
               (Prim2SF maxChange) as [t|t| |t n f];
        cbn; trivial; try contradiction;
        repeat match goal with b : bool |- _ => destruct b end;
        cbn; discriminate.
Qed.

(** A finite double times [0.0] is a zero. *)
Lemma mul_zero_is_zero (x : float) :
  SFfinite (Prim2SF x) -> (x * 0.0 = 0 \/ x * 0.0 = -0)%float.
Proof.
  intros H.
  assert (E : exists s, Prim2SF (x * 0.0) = S754_zero s).
  { rewrite FloatAxioms.mul_spec. change (Prim2SF 0.0) with (S754_zero false).
    destruct (Prim2SF x) as [s|s| |s m e]; try contradiction; cbn; eauto. }
  destruct E as [s E].
  rewrite <- (SF2Prim_Prim2SF (x * 0.0)), E.
  destruct s; [right|left]; reflexivity.
Qed.

(** *** Rounding a product is monotone *)

(** One right shift of a mantissa with its round and sticky bits. *)
Lemma shr_1_spec (m : Z) (r s : bool) :
  0 <= m ->
  shr_1 {| shr_m := m; shr_r := r; shr_s := s |}
  = {| shr_m := m / 2; shr_r := Z.odd m; shr_s := r || s |}.
Proof.
  intros Hm. destruct m as [|p|p]; [reflexivity| |lia].
  destruct p as [p|p|]; cbn [shr_1]; f_equal.
  - rewrite Pos2Z.inj_xI. apply Z.div_unique with 1; lia.
  - rewrite Pos2Z.inj_xO. apply Z.div_unique with 0; lia.
Qed.

Lemma shr_inv_0 (m : Z) :
  0 <= m -> shr_inv m 0 {| shr_m := m; shr_r := false; shr_s := false |}.
Proof.
  intros Hm. unfold shr_inv; cbn [shr_m shr_r shr_s].
  rewrite Z.pow_0_r, Z.mul_1_r, Z.sub_diag. cbn.
  repeat split; try lia; try discriminate; intros H; exfalso; lia.
Qed.

Lemma shr_inv_step (m n : Z) (mrs : shr_record) :
  0 <= n -> shr_inv m n mrs -> shr_inv m (n + 1) (shr_1 mrs).
Proof.
  intros Hn [Hq [Hrem [Hr Hs]]].
  destruct mrs as [q r s]. cbn [shr_m shr_r shr_s] in *.
  rewrite shr_1_spec by exact Hq.
  unfold shr_inv; cbn [shr_m shr_r shr_s].
  rewrite Z.pow_add_r, Z.pow_1_r by lia.
  assert (Hp : 0 < 2 ^ n) by (apply Z.pow_pos_nonneg; lia).
  pose proof (Z.div_mod q 2 ltac:(lia)) as Hq2.
  pose proof (Z.mod_pos_bound q 2 ltac:(lia)) as Hb.
  set (rem := m - q * 2 ^ n) in *.
  assert (Erem : m - q / 2 * (2 ^ n * 2) = rem + (q mod 2) * 2 ^ n)
    by (subst rem; nia).
  rewrite Erem.
  assert (Hodd : Z.odd q = true <-> q mod 2 = 1).
  { rewrite Zmod_odd. destruct (Z.odd q); split; intros; try reflexivity;
      try discriminate; lia. }
  split; [apply Z.div_pos; lia|].
  split; [nia|].
  split.
  - rewrite Hodd. split; intros H; nia.
  - assert (Hmod : (2 * (rem + q mod 2 * 2 ^ n)) mod (2 ^ n * 2) = 2 * rem).
    { replace (2 * (rem + q mod 2 * 2 ^ n)) with (2 * rem + (q mod 2) * (2 ^ n * 2)) by lia.
      rewrite Z.mod_add by lia. apply Z.mod_small. lia. }
    rewrite Hmod.
    destruct r, s; cbn [orb]; split; intros H; try reflexivity; try discriminate.
    + destruct Hr as [Hr _]. specialize (Hr eq_refl). lia.
    + destruct Hr as [Hr _]. specialize (Hr eq_refl). lia.
    + destruct Hs as [Hs _]. specialize (Hs eq_refl).
      intros E. apply Hs. replace rem with 0 by lia. reflexivity.
    + exfalso.
      destruct (Z.lt_ge_cases (2 * rem) (2 ^ n)) as [Hlt|Hge].
      * destruct Hs as [_ Hs]. rewrite Z.mod_small in Hs by lia.
        specialize (Hs H). discriminate.
      * destruct Hr as [_ Hr]. specialize (Hr Hge). discriminate.
Qed.

Lemma shr_inv_iter (m : Z) (p : positive) :
  forall n mrs, 0 <= n -> shr_inv m n mrs ->
  shr_inv m (n + Zpos p) (iter_pos shr_1 p mrs).
Proof.
  induction p as [p IH|p IH|]; intros n mrs Hn H; cbn [iter_pos].
  - replace (n + Zpos p~1) with (n + 1 + Zpos p + Zpos p) by lia.
    apply IH; [lia|]. apply IH; [lia|]. apply shr_inv_step; assumption.
  - replace (n + Zpos p~0) with (n + Zpos p + Zpos p) by lia.
    apply IH; [lia|]. apply IH; assumption.
  - apply shr_inv_step; assumption.
Qed.

Lemma shr_inv_rne (m n : Z) (mrs : shr_record) :
  0 <= n -> shr_inv m n mrs ->
  round_nearest_even (shr_m mrs) (loc_of_shr_record mrs) = rne m n.
Proof.
  intros Hn [Hq [Hrem [Hr Hs]]].
  assert (Hp : 0 < 2 ^ n) by (apply Z.pow_pos_nonneg; lia).
  destruct mrs as [q r s]. cbn [shr_m shr_r shr_s] in *.
  set (rem := m - q * 2 ^ n) in *.
  assert (Eq : m / 2 ^ n = q)
    by (symmetry; apply Z.div_unique with rem; subst rem; lia).
  assert (Em : m mod 2 ^ n = rem)
    by (symmetry; apply Z.mod_unique with q; subst rem; lia).
  unfold rne. rewrite Eq, Em. cbv zeta.
  destruct r, s; cbn [loc_of_shr_record round_nearest_even].
  - destruct Hr as [Hr _]. specialize (Hr eq_refl).
    destruct Hs as [Hs _]. specialize (Hs eq_refl).
    assert (2 ^ n <> 2 * rem) by (intros E; apply Hs; rewrite <- E; apply Z.mod_same; lia).
    destruct (Z.ltb_spec (2 * rem) (2 ^ n)); [lia|].
    destruct (Z.ltb_spec (2 ^ n) (2 * rem)); [reflexivity|lia].
  - destruct Hr as [Hr _]. specialize (Hr eq_refl).
    assert (E : 2 * rem = 2 ^ n).
    { destruct (Z.eq_dec (2 * rem) (2 ^ n)) as [E|E]; [exact E|].
      destruct Hs as [_ Hs]. assert (X : false = true); [|discriminate X].
      apply Hs.
      replace (2 * rem) with ((2 * rem - 2 ^ n) + 1 * 2 ^ n) by lia.
      rewrite Z.mod_add by lia. rewrite Z.mod_small by lia. lia. }
    destruct (Z.ltb_spec (2 * rem) (2 ^ n)); [lia|].
    destruct (Z.ltb_spec (2 ^ n) (2 * rem)); [lia|].
    reflexivity.
  - assert (Hlt : 2 * rem < 2 ^ n).
    { destruct (Z.lt_ge_cases (2 * rem) (2 ^ n)) as [H|H]; [exact H|].
      destruct Hr as [_ Hr]. specialize (Hr H). discriminate. }
    destruct (Z.ltb_spec (2 * rem) (2 ^ n)); [reflexivity|lia].
  - assert (Hlt : 2 * rem < 2 ^ n).
    { destruct (Z.lt_ge_cases (2 * rem) (2 ^ n)) as [H|H]; [exact H|].
      destruct Hr as [_ Hr]. specialize (Hr H). discriminate. }
    destruct (Z.ltb_spec (2 * rem) (2 ^ n)); [reflexivity|lia].
Qed.

Lemma rne_bounds (m n : Z) :
  0 <= n -> m / 2 ^ n <= rne m n <= m / 2 ^ n + 1.
Proof.
  intros Hn. unfold rne. cbv zeta.
  destruct (_ <? _); [lia|]. destruct (_ <? _); [lia|].
  destruct (Z.even _); lia.
Qed.

Lemma rne_mono (m1 m2 n : Z) :
  0 <= n -> m1 <= m2 -> rne m1 n <= rne m2 n.
Proof.
  intros Hn Hm.
  assert (Hp : 0 < 2 ^ n) by (apply Z.pow_pos_nonneg; lia).
  pose proof (Z.div_le_mono m1 m2 (2 ^ n) Hp Hm) as Hq.
  pose proof (rne_bounds m1 n Hn) as B1.
  pose proof (rne_bounds m2 n Hn) as B2.
  destruct (Z.eq_dec (m1 / 2 ^ n) (m2 / 2 ^ n)) as [E|E]; [|lia].
  pose proof (Z.div_mod m1 (2 ^ n) ltac:(lia)) as D1.
  pose proof (Z.div_mod m2 (2 ^ n) ltac:(lia)) as D2.
  assert (Hr : m1 mod 2 ^ n <= m2 mod 2 ^ n) by (rewrite E in D1; lia).
  unfold rne. cbv zeta. rewrite E.
  destruct (Z.ltb_spec (2 * (m1 mod 2 ^ n)) (2 ^ n));
    destruct (Z.ltb_spec (2 * (m2 mod 2 ^ n)) (2 ^ n)); try lia;
    destruct (Z.ltb_spec (2 ^ n) (2 * (m1 mod 2 ^ n)));
    destruct (Z.ltb_spec (2 ^ n) (2 * (m2 mod 2 ^ n))); try lia;
    destruct (Z.even (m2 / 2 ^ n)); lia.
Qed.

Lemma rne_scale (m n k : Z) :
  0 <= n -> 0 <= k -> rne (m * 2 ^ k) (n + k) = rne m n.
Proof.
  intros Hn Hk. unfold rne. cbv zeta.
  assert (Hp : 0 < 2 ^ n) by (apply Z.pow_pos_nonneg; lia).
  assert (Hpk : 0 < 2 ^ k) by (apply Z.pow_pos_nonneg; lia).
  rewrite Z.pow_add_r by lia.
  rewrite Z.div_mul_cancel_r by lia.
  rewrite Z.mul_mod_distr_r by lia.
  replace (2 * (m mod 2 ^ n * 2 ^ k)) with (2 * (m mod 2 ^ n) * 2 ^ k) by lia.
  assert (E1 : (2 * (m mod 2 ^ n) * 2 ^ k <? 2 ^ n * 2 ^ k)
               = (2 * (m mod 2 ^ n) <? 2 ^ n)).
  { destruct (Z.ltb_spec (2 * (m mod 2 ^ n)) (2 ^ n));
      destruct (Z.ltb_spec (2 * (m mod 2 ^ n) * 2 ^ k) (2 ^ n * 2 ^ k));
      try reflexivity; nia. }
  assert (E2 : (2 ^ n * 2 ^ k <? 2 * (m mod 2 ^ n) * 2 ^ k)
               = (2 ^ n <? 2 * (m mod 2 ^ n))).
  { destruct (Z.ltb_spec (2 ^ n) (2 * (m mod 2 ^ n)));
      destruct (Z.ltb_spec (2 ^ n * 2 ^ k) (2 * (m mod 2 ^ n) * 2 ^ k));
      try reflexivity; nia. }
  rewrite E1, E2. reflexivity.
Qed.

Lemma fexp_eq (z : Z) : fexp prec emax z = Z.max (z - 53) (-1074).
Proof. reflexivity. Qed.

Lemma Zdigits2_bounds (m : Z) :
  0 < m -> 0 < Zdigits2 m /\ 2 ^ (Zdigits2 m - 1) <= m < 2 ^ Zdigits2 m.
Proof.
  intros Hm. destruct m as [|p|p]; try lia. cbn [Zdigits2].
  split; [lia|apply digits2_pos_bounds].
Qed.

Lemma Zdigits2_unique (m d : Z) :
  2 ^ (d - 1) <= m < 2 ^ d -> 0 < m -> Zdigits2 m = d.
Proof.
  intros Hd Hm. destruct (Zdigits2_bounds m Hm) as [H0 Hb].
  assert (0 < d).
  { destruct (Z.lt_ge_cases 0 d) as [H|H]; [exact H|].
    destruct (Z.eq_dec d 0) as [->|]; [cbn in Hd; lia|].
    rewrite (Z.pow_neg_r 2 d) in Hd by lia. lia. }
  destruct (Z.lt_trichotomy (Zdigits2 m) d) as [H1|[H1|H1]]; [|exact H1|].
  - assert (2 ^ Zdigits2 m <= 2 ^ (d - 1)) by (apply Z.pow_le_mono_r; lia). lia.
  - assert (2 ^ d <= 2 ^ (Zdigits2 m - 1)) by (apply Z.pow_le_mono_r; lia). lia.
Qed.

Lemma Zdigits2_mono (m1 m2 : Z) :
  0 < m1 -> m1 <= m2 -> Zdigits2 m1 <= Zdigits2 m2.
Proof.
  intros H1 H12.
  destruct (Zdigits2_bounds m1 H1) as [_ B1].
  destruct (Zdigits2_bounds m2 ltac:(lia)) as [_ B2].
  destruct (Z.le_gt_cases (Zdigits2 m1) (Zdigits2 m2)) as [H|H]; [exact H|].
  assert (2 ^ Zdigits2 m2 <= 2 ^ (Zdigits2 m1 - 1)) by (apply Z.pow_le_mono_r; lia).
  lia.
Qed.

Lemma Zdigits2_scale (m k : Z) :
  0 < m -> 0 <= k -> Zdigits2 (m * 2 ^ k) = Zdigits2 m + k.
Proof.
  intros Hm Hk. destruct (Zdigits2_bounds m Hm) as [H0 Hb].
  assert (Hp : 0 < 2 ^ k) by (apply Z.pow_pos_nonneg; lia).
  apply Zdigits2_unique; [|nia].
  replace (Zdigits2 m + k - 1) with ((Zdigits2 m - 1) + k) by lia.
  rewrite !Z.pow_add_r by lia. nia.
Qed.

Lemma rne_le_2p53 (m e : Z) :
  0 < m -> 0 <= round_exponent m e - e ->
  0 <= rne m (round_exponent m e - e) <= 2 ^ 53.
Proof.
  intros Hm Hn. set (n := round_exponent m e - e) in *.
  destruct (Zdigits2_bounds m Hm) as [H0 Hb].
  assert (Hp : 0 < 2 ^ n) by (apply Z.pow_pos_nonneg; lia).
  pose proof (rne_bounds m n Hn) as B.
  assert (Hd : Zdigits2 m <= n + 53).
  { subst n. unfold round_exponent. rewrite fexp_eq. lia. }
  assert (Hlt : m < 2 ^ 53 * 2 ^ n).
  { rewrite <- Z.pow_add_r by lia.
    apply Z.lt_le_trans with (2 ^ Zdigits2 m); [lia|].
    apply Z.pow_le_mono_r; lia. }
  assert (m / 2 ^ n < 2 ^ 53) by (apply Z.div_lt_upper_bound; lia).
  assert (0 <= m / 2 ^ n) by (apply Z.div_pos; lia).
  lia.
Qed.

Lemma shr_fexp_exact_small (mr E : Z) :
  0 <= mr < 2 ^ 53 -> -1074 <= E ->
  shr_fexp prec emax mr E loc_Exact
  = ({| shr_m := mr; shr_r := false; shr_s := false |}, E).
Proof.
  intros Hmr HE. unfold shr_fexp. rewrite fexp_eq.
  assert (Hd : Zdigits2 mr <= 53).
  { destruct (Z.eq_dec mr 0) as [->|]; [cbn; lia|].
    destruct (Zdigits2_bounds mr ltac:(lia)) as [H0 Hb].
    destruct (Z.le_gt_cases (Zdigits2 mr) 53) as [H|H]; [exact H|].
    assert (2 ^ 53 <= 2 ^ (Zdigits2 mr - 1)) by (apply Z.pow_le_mono_r; lia).
    lia. }
  unfold shr. cbn [shr_record_of_loc].
  destruct (Z.max (Zdigits2 mr + E - 53) (-1074) - E) eqn:En; try reflexivity.
  lia.
Qed.

(** [binary_round_aux] on an exact positive mantissa that needs no left
    alignment: round to nearest even at the rounding exponent. *)
Lemma binary_round_aux_spec (sx : bool) (m e : Z) :
  0 < m -> 0 <= round_exponent m e - e ->
  binary_round_aux prec emax sx m e loc_Exact
  = norm_out sx (rne m (round_exponent m e - e)) (round_exponent m e).
Proof.
  intros Hm Hn.
  pose proof (rne_le_2p53 m e Hm Hn) as Hmr.
  assert (HE : -1074 <= round_exponent m e)
    by (unfold round_exponent; rewrite fexp_eq; lia).
  unfold binary_round_aux.
  assert (H1 : exists mrs,
             shr_fexp prec emax m e loc_Exact = (mrs, round_exponent m e) /\
             shr_inv m (round_exponent m e - e) mrs).
  { unfold shr_fexp. fold (round_exponent m e). unfold shr.
    cbn [shr_record_of_loc].
    destruct (round_exponent m e - e) as [|p|p] eqn:En; try lia.
    - eexists. split; [f_equal; lia|]. apply shr_inv_0. lia.
    - eexists. split; [f_equal; lia|].
      apply (shr_inv_iter m p 0); [lia|]. apply shr_inv_0. lia. }
  destruct H1 as [mrs [E1 Hinv]]. rewrite E1.
  rewrite (shr_inv_rne m _ mrs Hn Hinv).
  set (mr := rne m (round_exponent m e - e)) in *.
  set (E := round_exponent m e) in *.
  unfold norm_out.
  destruct (Z.eqb_spec mr 0) as [E0|E0].
  - rewrite shr_fexp_exact_small by lia. cbn [shr_m]. rewrite E0. reflexivity.
  - destruct (Z.ltb_spec mr (2 ^ 53)) as [Hlt|Hge].
    + rewrite shr_fexp_exact_small by lia. cbn [shr_m].
      destruct mr as [|p|p]; try lia. reflexivity.
    + assert (Emr : mr = 2 ^ 53) by lia. rewrite Emr.
      unfold shr_fexp. rewrite fexp_eq.
      change (Zdigits2 (2 ^ 53)) with 54.
      replace (Z.max (54 + E - 53) (-1074) - E) with 1 by lia.
      reflexivity.
Qed.

Lemma SFleb_finite_pos (p1 p2 : positive) (x1 x2 : Z) :
  x1 < x2 \/ (x1 = x2 /\ (p1 <= p2)%positive) ->
  SFleb (S754_finite false p1 x1) (S754_finite false p2 x2) = true.
Proof.
  intros H. unfold SFleb. cbn [SFcompare].
  destruct (Z.compare_spec x1 x2) as [E|L|G]; try reflexivity; [|lia].
  destruct H as [H|[_ H]]; [lia|].
  rewrite Pos.compare_cont_spec. cbn [Pos.switch_Eq].
  destruct (Pos.compare_spec p1 p2) as [E'|L'|G']; try reflexivity. lia.
Qed.

Lemma norm_out_le (mr1 E1 mr2 E2 : Z) :
  0 <= mr1 <= 2 ^ 53 -> 0 <= mr2 <= 2 ^ 53 ->
  (E1 = E2 /\ mr1 <= mr2) \/ (E1 < E2 /\ 2 ^ 52 <= mr2) ->
  SFleb (norm_out false mr1 E1) (norm_out false mr2 E2) = true.
Proof.
  intros H1 H2 H. unfold norm_out.
  destruct (Z.eqb_spec mr1 0) as [Z1|Z1].
  - (* a zero is below every non-negative result *)
    destruct (Z.eqb_spec mr2 0); [reflexivity|].
    destruct (mr2 <? 2 ^ 53);
      [destruct (E2 <=? 971)|destruct (E2 + 1 <=? 971)]; reflexivity.
  - destruct (Z.eqb_spec mr2 0) as [Z2|Z2]; [lia|].
    destruct (Z.ltb_spec mr1 (2 ^ 53)) as [L1|L1];
      destruct (Z.ltb_spec mr2 (2 ^ 53)) as [L2|L2];
      repeat match goal with
             | |- context [Z.leb ?a ?b] => destruct (Z.leb_spec a b)
             end;
      try reflexivity; try lia;
      apply SFleb_finite_pos;
      try (left; lia);
      try (right; split; [lia|]);
      try (destruct H as [[He Hm]|[He Hm]]; [right|]; try lia).
    all: try (destruct (Z.eq_dec E1 E2);
              [right; split; [assumption|]|left; lia]).
    all: try (apply Pos2Z.pos_le_pos; rewrite !Z2Pos.id by lia; lia).
    all: try (split; [lia|]; apply Pos2Z.pos_le_pos; rewrite !Z2Pos.id by lia; lia).
Qed.

Lemma binary_round_aux_mono_mantissa (m1 m2 e : Z) :
  0 < m1 -> m1 <= m2 ->
  0 <= round_exponent m1 e - e -> 0 <= round_exponent m2 e - e ->
  SFleb (binary_round_aux prec emax false m1 e loc_Exact)
        (binary_round_aux prec emax false m2 e loc_Exact) = true.
Proof.
  intros H1 H12 A1 A2.
  rewrite !binary_round_aux_spec by lia.
  pose proof (rne_le_2p53 m1 e H1 A1) as B1.
  pose proof (rne_le_2p53 m2 e ltac:(lia) A2) as B2.
  apply norm_out_le; try assumption.
  pose proof (Zdigits2_mono m1 m2 H1 H12) as Hd.
  assert (HE : round_exponent m1 e <= round_exponent m2 e)
    by (unfold round_exponent; rewrite !fexp_eq; lia).
  destruct (Z.eq_dec (round_exponent m1 e) (round_exponent m2 e)) as [E|E].
  - left. split; [exact E|]. rewrite E. apply rne_mono; lia.
  - right. split; [lia|].
    set (n := round_exponent m2 e - e) in *.
    assert (Hn : n = Zdigits2 m2 - 53).
    { subst n. unfold round_exponent in *. rewrite !fexp_eq in *. lia. }
    destruct (Zdigits2_bounds m2 ltac:(lia)) as [_ Hb].
    assert (Hp : 0 < 2 ^ n) by (apply Z.pow_pos_nonneg; lia).
    pose proof (rne_bounds m2 n A2) as R.
    assert (2 ^ 52 <= m2 / 2 ^ n); [|lia].
    apply Z.div_le_lower_bound; [lia|].
    rewrite <- Z.pow_add_r by lia.
    replace (n + 52) with (Zdigits2 m2 - 1) by lia. lia.
Qed.

Lemma binary_round_aux_scale (sx : bool) (m e k : Z) :
  0 < m -> 0 <= k -> 0 <= round_exponent m e - e ->
  binary_round_aux prec emax sx (m * 2 ^ k) (e - k) loc_Exact
  = binary_round_aux prec emax sx m e loc_Exact.
Proof.
  intros Hm Hk A.
  assert (Hp : 0 < 2 ^ k) by (apply Z.pow_pos_nonneg; lia).
  assert (HE : round_exponent (m * 2 ^ k) (e - k) = round_exponent m e).
  { unfold round_exponent. rewrite Zdigits2_scale by lia. f_equal. lia. }
  rewrite (binary_round_aux_spec sx (m * 2 ^ k) (e - k)) by (try nia; lia).
  rewrite (binary_round_aux_spec sx m e) by lia.
  rewrite HE.
  replace (round_exponent m e - (e - k)) with ((round_exponent m e - e) + k) by lia.
  rewrite rne_scale by lia. reflexivity.
Qed.

(** Rounding is monotone: of two exact positive values, the smaller
    rounds to the smaller double. *)
Lemma binary_round_aux_mono (m1 e1 m2 e2 : Z) :
  0 < m1 -> 0 < m2 ->
  0 <= round_exponent m1 e1 - e1 -> 0 <= round_exponent m2 e2 - e2 ->
  m1 * 2 ^ (e1 - Z.min e1 e2) <= m2 * 2 ^ (e2 - Z.min e1 e2) ->
  SFleb (binary_round_aux prec emax false m1 e1 loc_Exact)
        (binary_round_aux prec emax false m2 e2 loc_Exact) = true.
Proof.
  intros H1 H2 A1 A2 Hle.
  set (e := Z.min e1 e2) in *.
  assert (K1 : 0 <= e1 - e) by lia. assert (K2 : 0 <= e2 - e) by lia.
  assert (P1 : 0 < 2 ^ (e1 - e)) by (apply Z.pow_pos_nonneg; lia).
  assert (P2 : 0 < 2 ^ (e2 - e)) by (apply Z.pow_pos_nonneg; lia).
  rewrite <- (binary_round_aux_scale false m1 e1 (e1 - e)) by lia.
  rewrite <- (binary_round_aux_scale false m2 e2 (e2 - e)) by lia.
  replace (e1 - (e1 - e)) with e by lia.
  replace (e2 - (e2 - e)) with e by lia.
  apply binary_round_aux_mono_mantissa; try nia.
  - unfold round_exponent in *. rewrite Zdigits2_scale by lia.
    rewrite fexp_eq in *. lia.
  - unfold round_exponent in *. rewrite Zdigits2_scale by lia.
    rewrite fexp_eq in *. lia.
Qed.

Lemma binary_round_aux_SFabs (sx : bool) (m e : Z) (l : location) :
  SFabs (binary_round_aux prec emax sx m e l)
  = binary_round_aux prec emax false m e l.
Proof.
  unfold binary_round_aux.
  destruct (shr_fexp prec emax m e l) as [mrs' e'].
  destruct (shr_fexp prec emax _ e' loc_Exact) as [mrs'' e''].
  destruct (shr_m mrs''); try reflexivity.
  destruct (e'' <=? emax - prec); reflexivity.
Qed.

(** The order of two positive finite doubles is the order of their
    values. *)
Lemma SFleb_finite_value (m1 m2 : positive) (e1 e2 : Z) :
  Zpos (digits2_pos m1) <= 53 ->
  -1074 <= e1 ->
  (Zpos (digits2_pos m2) < 53 -> e2 = -1074) ->
  SFleb (S754_finite false m1 e1) (S754_finite false m2 e2) = true ->
  Zpos m1 * 2 ^ (e1 - Z.min e1 e2) <= Zpos m2 * 2 ^ (e2 - Z.min e1 e2).
Proof.
  intros D1 L1 S2. unfold SFleb. cbn [SFcompare].
  pose proof (digits2_pos_bounds m1) as B1.
  pose proof (digits2_pos_bounds m2) as B2.
  destruct (Z.compare_spec e1 e2) as [E|L|G]; try discriminate.
  - rewrite Pos.compare_cont_spec. cbn [Pos.switch_Eq].
    destruct (Pos.compare_spec m1 m2) as [E'|L'|G']; try discriminate; intros _;
      subst; rewrite Z.min_id, Z.sub_diag; cbn; lia.
  - intros _. rewrite Z.min_l, Z.sub_diag by lia. cbn [Z.pow]. rewrite Z.mul_1_r.
    assert (Hd : Zpos (digits2_pos m2) >= 53) by lia.
    assert (2 ^ 52 <= 2 ^ (Zpos (digits2_pos m2) - 1)) by (apply Z.pow_le_mono_r; lia).
    assert (2 ^ Zpos (digits2_pos m1) <= 2 ^ 53) by (apply Z.pow_le_mono_r; lia).
    assert (2 ^ 1 <= 2 ^ (e2 - e1)) by (apply Z.pow_le_mono_r; lia).
    change (2 ^ 1) with 2 in *. change (2 ^ 53) with (2 * 2 ^ 52) in *. nia.
Qed.

Lemma SFleb_finite_neg (a b : positive) (ea eb : Z) :
  SFleb (S754_finite true a ea) (S754_finite true b eb)
  = SFleb (S754_finite false b eb) (S754_finite false a ea).
Proof.
  unfold SFleb. cbn [SFcompare].
  rewrite (Z.compare_antisym ea eb).
  destruct (ea ?= eb); cbn [CompOpp]; try reflexivity.
  rewrite !Pos.compare_cont_spec. cbn [Pos.switch_Eq].
  rewrite (Pos.compare_antisym a b).
  destruct (a ?= b)%positive; reflexivity.
Qed.

Lemma Zdigits2_mul (a b : Z) :
  0 < a -> 0 < b -> Zdigits2 a + Zdigits2 b - 1 <= Zdigits2 (a * b).
Proof.
  intros Ha Hb.
  destruct (Zdigits2_bounds a Ha) as [Da Ba].
  destruct (Zdigits2_bounds b Hb) as [Db Bb].
  destruct (Zdigits2_bounds (a * b) ltac:(nia)) as [Dab Bab].
  destruct (Z.le_gt_cases (Zdigits2 a + Zdigits2 b - 1) (Zdigits2 (a * b)))
    as [H|H]; [exact H|].
  assert (2 ^ Zdigits2 (a * b) <= 2 ^ ((Zdigits2 a - 1) + (Zdigits2 b - 1)))
    by (apply Z.pow_le_mono_r; lia).
  rewrite Z.pow_add_r in * by lia. nia.
Qed.

(** The exact product of two finite doubles needs no left alignment
    before it is rounded. *)
Lemma product_aligned (x y : float) (sx sy : bool) (mx my : positive) (ex ey : Z) :
  Prim2SF x = S754_finite sx mx ex ->
  Prim2SF y = S754_finite sy my ey ->
  0 <= round_exponent (Zpos (mx * my)) (ex + ey) - (ex + ey).
Proof.
  intros Hx Hy.
  destruct (finite_valid x sx mx ex Hx) as [Dx [Ex Sx]].
  destruct (finite_valid y sy my ey Hy) as [Dy [Ey Sy]].
  pose proof (Zdigits2_mul (Zpos mx) (Zpos my) ltac:(lia) ltac:(lia)) as Hd.
  rewrite <- Pos2Z.inj_mul in Hd. cbn [Zdigits2] in Hd.
  unfold round_exponent. rewrite fexp_eq. cbn [Zdigits2].
  pose proof (Pos2Z.is_pos (digits2_pos mx)).
  pose proof (Pos2Z.is_pos (digits2_pos my)).
  destruct (Z.lt_ge_cases (Zpos (digits2_pos mx)) 53) as [Lx|Gx];
    destruct (Z.lt_ge_cases (Zpos (digits2_pos my)) 53) as [Ly|Gy];
    try specialize (Sx Lx); try specialize (Sy Ly); lia.
Qed.

Lemma binary_round_aux_nonneg (m e : Z) (l : location) :
  0 <= m -> SFnonneg (binary_round_aux prec emax false m e l).
Proof.
  intros H.
  pose proof (binary_round_aux_not_nan false m e l H) as Hn.
  revert Hn. unfold binary_round_aux.
  destruct (shr_fexp prec emax m e l) as [mrs' e'].
  destruct (shr_fexp prec emax _ e' loc_Exact) as [mrs'' e''].
  destruct (shr_m mrs'') as [|p|p]; cbn.
  - intros _. exact I.
  - destruct (e'' <=? 971); intros _; exact I.
  - intros X. apply X. reflexivity.
Qed.

(** Multiplication by a finite gain keeps the limit: if [r] lies in
    [-M, +M] for a finite [M >= 0], then [|r * K| <= |M * K|]. *)
Lemma mul_abs_mono (r M K : float) :
  (0 - M <=? r)%float = true ->
  (r <=? M)%float = true ->
  (0 <=? M)%float = true ->
  Cxx.is_finite M = true ->
  Cxx.is_finite K = true ->
  (abs (r * K) <=? abs (M * K))%float = true.
Proof.
  intros Hlo Hhi HM HfM HfK.
  apply nonneg_spec in HM. apply is_finite_spec in HfM. apply is_finite_spec in HfK.
  revert Hlo Hhi.
  rewrite !FloatAxioms.leb_spec, !FloatAxioms.abs_spec, !FloatAxioms.mul_spec,
          FloatAxioms.sub_spec.
  change (Prim2SF 0) with (S754_zero false).
  unfold SF64mul, SF64sub.
  destruct (Prim2SF K) as [sk| | |sk mk ek] eqn:EK; try contradiction;
    destruct (Prim2SF M) as [sM|sM| |sM mM eM] eqn:EM; try contradiction;
    try (destruct sM; try contradiction);
    destruct (Prim2SF r) as [sr|sr| |sr mr er] eqn:Er;
    cbn [SFmul SFsub SFabs]; try reflexivity;
    try (destruct sr; cbn; intros; discriminate);
    try (cbn; intros; discriminate).
  all: rewrite ?binary_round_aux_SFabs.
  all: intros Hlo Hhi.
  all: try (assert (X := binary_round_aux_nonneg (Zpos (mM * mk)) (eM + ek) loc_Exact
                           ltac:(lia));
            destruct (binary_round_aux prec emax false (Zpos (mM * mk)) (eM + ek) loc_Exact)
              as [t|t| |t n f]; try contradiction;
            try destruct t; try contradiction; reflexivity).
  all: destruct (finite_valid r sr mr er Er) as [Dr [Hr Sr]];
       destruct (finite_valid M false mM eM EM) as [DM [HeM SM]];
       destruct (finite_valid K sk mk ek EK) as [DK [HK SK]].
  all: apply binary_round_aux_mono; try lia;
       try (eapply product_aligned; eassumption).
  all: rewrite !Pos2Z.inj_mul.
  all: assert (Hv : Zpos mr * 2 ^ (er - Z.min er eM) <= Zpos mM * 2 ^ (eM - Z.min er eM)).
  all: try (destruct sr;
            [rewrite SFleb_finite_neg in Hlo;
             apply (SFleb_finite_value mr mM er eM Dr ltac:(lia) SM Hlo)
            |apply (SFleb_finite_value mr mM er eM Dr ltac:(lia) SM Hhi)]).
  all: replace (er + ek - Z.min (er + ek) (eM + ek)) with (er - Z.min er eM) by lia;
       replace (eM + ek - Z.min (er + ek) (eM + ek)) with (eM - Z.min er eM) by lia;
       nia.
Qed.

(** *** Checking a property on every control word *)

Lemma forall_block_spec (f : Z -> bool) (k : nat) :
  forall lo, forall_block f lo k = true ->
  forall z, lo <= z < lo + 2 ^ Z.of_nat k -> f z = true.
Proof.
  induction k as [|k IH]; intros lo H z Hz.
  - cbn in *. replace z with lo by lia. exact H.
  - cbn [forall_block] in H. apply andb_prop in H. destruct H as [H1 H2].
    rewrite Nat2Z.inj_succ, Z.pow_succ_r in Hz by lia.
    destruct (Z.lt_ge_cases z (lo + 2 ^ Z.of_nat k)).
    + apply (IH lo H1). lia.
    + apply (IH _ H2). lia.
Qed.

Lemma word_kept_all : forall_block word_kept 0 20 = true.
Proof. vm_compute. reflexivity. Qed.

Lemma word_kept_spec (c : Z) (zP zI : float) :
  0 <= c <= 1000000 ->
  (zP = 0 \/ zP = -0)%float -> (zI = 0 \/ zI = -0)%float ->
  Cxx.uint32_of_double (Cxx.round (zP + (Cxx.double_of_uint32 c + zI))) = c.
Proof.
  intros Hc HP HI.
  pose proof (forall_block_spec word_kept 20 0 word_kept_all c ltac:(lia)) as H.
  unfold word_kept in H.
  assert (Hphi : Uint63.to_Z (Uint63.of_Z c) = c).
  { rewrite Uint63.of_Z_spec. apply Z.mod_small.
    change wB with 9223372036854775808. lia. }
  assert (Hle : (Uint63.of_Z c <=? 1000000)%uint63 = true).
  { apply Uint63.leb_spec. rewrite Hphi. change (to_Z 1000000) with 1000000. lia. }
  rewrite Hle in H. cbn [forallb] in H.
  rewrite !andb_true_r, !andb_true_iff in H.
  unfold Cxx.uint32_of_double, Cxx.double_of_uint32.
  rewrite <- Hphi at 2. f_equal. apply Uint63.eqb_spec.
  destruct H as [[H00 H01] [H10 H11]].
  destruct HP as [-> | ->], HI as [-> | ->]; assumption.
Qed.

(* ===================================================================== *)
(** ** Steering *)
(* ===================================================================== *)

(** C5: when the bus write of [setFrequencyByBiasMillis] fails, the call
    returns false and the cached control word is unchanged, but the
    integrator keeps the advance [dI = limited change * Ik] made before the
    write was attempted, for every bias, Pk and Ik. *)
Theorem setFrequencyByBiasMillis_write_failure
    {B : Type} `{Bus : sfTkII2C B}
    (st : Statics) (d : sfDevSTP3593LF B) (bias Pk Ik : float) :
  let word := requestedControlWord st d bias Pk Ik in
  let wire := writeRegisterRegion (_theBus d) kSfeSTP3593LFRegWriteDAC
                (encodeControlWord (limitControlWord word)) in
  fst wire <> ksfTkErrOk ->
  let out := setFrequencyByBiasMillis st d bias Pk Ik in
  fst (fst out) = false /\
  _frequencyControl (snd out) = _frequencyControl d /\
  static_I (snd (fst out)) = (seeded_I st d + limitedChange d bias * Ik)%float /\
  static_initialized (snd (fst out)) = true.
Proof.
  intros word wire Hfail out.
  subst out. unfold setFrequencyByBiasMillis.
  fold (requestedControlWord st d bias Pk Ik). fold word.
  rewrite setFrequencyControlWord_unfold. cbv zeta.
  rewrite <- limitControlWord_min. fold wire.
  destruct (sfTkError_eqb (fst wire) ksfTkErrOk) eqn:E.
  - apply sfTkError_eqb_Ok in E. contradiction.
  - cbn [fst snd _frequencyControl static_I static_initialized].
    repeat split.
Qed.

Lemma setFrequencyByBiasMillis_write_failure_witness :
  let d := mkDev bus_write_fails 500000 3.0%float in
  let out := setFrequencyByBiasMillis statics_at_start d 200.0e-6%float
               (1.0 / 6.25)%float ((1.0 / 6.25) / 150.0)%float in
  fst (fst out) = false /\
  _frequencyControl (snd out) = 500000 /\
  static_I (snd (fst out)) =
    (500000 + limitedChange d 200.0e-6 * ((1.0 / 6.25) / 150.0))%float /\
  static_initialized (snd (fst out)) = true.
Proof.
  intros d out.
  refine (setFrequencyByBiasMillis_write_failure
            statics_at_start d 200.0e-6%float (1.0 / 6.25)%float
            ((1.0 / 6.25) / 150.0)%float _).
  vm_compute. discriminate.
Defined.

Lemma to_Z_of_Z_small (c : Z) :
  0 <= c <= 1000000 -> Uint63.to_Z (Uint63.of_Z c) = c.
Proof.
  intros Hc. rewrite Uint63.of_Z_spec. apply Z.mod_small.
  change wB with 9223372036854775808. lia.
Qed.

Lemma word_lowered_all : forall_block word_lowered 0 20 = true.
Proof. vm_compute. reflexivity. Qed.

Lemma word_lowered_spec (c : Z) :
  3750 <= c <= 1000000 ->
  Cxx.uint32_of_double
    (Cxx.round (example_change * 1.0
                + (Cxx.double_of_uint32 c + example_change * 0.0)))
  = c - 3750.
Proof.
  intros Hc.
  pose proof (forall_block_spec word_lowered 20 0 word_lowered_all c ltac:(lia)) as H.
  unfold word_lowered in H.
  pose proof (to_Z_of_Z_small c ltac:(lia)) as Hphi.
  assert (Hlo : (3750 <=? Uint63.of_Z c)%uint63 = true).
  { apply Uint63.leb_spec. rewrite Hphi. change (to_Z 3750) with 3750. lia. }
  assert (Hhi : (Uint63.of_Z c <=? 1000000)%uint63 = true).
  { apply Uint63.leb_spec. rewrite Hphi. change (to_Z 1000000) with 1000000. lia. }
  rewrite Hlo, Hhi in H. cbn [andb] in H.
  apply Uint63.eqb_spec in H.
  unfold Cxx.uint32_of_double, Cxx.double_of_uint32.
  rewrite H, Uint63.sub_spec, Hphi. change (to_Z 3750) with 3750.
  apply Z.mod_small. change wB with 9223372036854775808. lia.
Qed.

Lemma float_zero_cases (x : float) :
  (x =? 0)%float = true -> x = 0%float \/ x = (-0)%float.
Proof.
  rewrite FloatAxioms.eqb_spec. change (Prim2SF 0) with (S754_zero false).
  intros H. rewrite <- (SF2Prim_Prim2SF x).
  destruct (Prim2SF x) as [s|s| |s m e]; cbn in H; try discriminate;
    destruct s; try discriminate; auto.
Qed.

Lemma eqb_zero_of_range (r : float) :
  (0 <=? r)%float = true -> (r <=? 0)%float = true -> (r =? 0)%float = true.
Proof.
  rewrite !FloatAxioms.leb_spec, FloatAxioms.eqb_spec.
  change (Prim2SF 0) with (S754_zero false).
  destruct (Prim2SF r) as [s|s| |s m e]; cbn; try destruct s; cbn;
    try discriminate; reflexivity.
Qed.

Lemma Prim2SF_inj (x y : float) : Prim2SF x = Prim2SF y -> x = y.
Proof.
  intros H. rewrite <- (SF2Prim_Prim2SF x), <- (SF2Prim_Prim2SF y), H. reflexivity.
Qed.

Lemma binary_round_aux_abs (sx sy : bool) (m e : Z) (l : location) :
  SFabs (binary_round_aux prec emax sx m e l)
  = SFabs (binary_round_aux prec emax sy m e l).
Proof.
  unfold binary_round_aux.
  destruct (shr_fexp prec emax m e l) as [mrs' e'].
  destruct (shr_fexp prec emax _ e' loc_Exact) as [mrs'' e''].
  destruct (shr_m mrs''); try reflexivity.
  destruct (e'' <=? emax - prec); reflexivity.
Qed.

(** Multiplying the lower end of the range gives the magnitude that
    multiplying the upper end gives. *)
Lemma abs_mul_minus (maxChange k : float) :
  SFnonneg (Prim2SF maxChange) ->
  abs ((0.0 - maxChange) * k) = abs (maxChange * k).
Proof.
  intros Hm. apply Prim2SF_inj.
  rewrite !FloatAxioms.abs_spec, !FloatAxioms.mul_spec, FloatAxioms.sub_spec.
  change (Prim2SF 0.0) with (S754_zero false).
  destruct (Prim2SF maxChange) as [s|s| |s m e]; try contradiction;
    try (destruct s; try contradiction);
    destruct (Prim2SF k) as [t|t| |t n f]; cbn; try reflexivity.
  apply binary_round_aux_abs.
Qed.

(** C1, as the claim states it, fails in three ways.  (1) In the
    documented example (limit 3 ppb, bias +200 ns, control word 500000)
    with Pk = 0.1001 and Ik = 0.0001, the proportional term is -375.375
    and lowers the requested word from [round I = 500000] to
    [round (P + I) = 499624], a step of 376, while
    [round (maxChangeLSB * Pk)] is 375.  (2) With a limit of 0 ppb and a
    bias that is NaN the limited change is NaN, not 0.  (3) With a
    negative limit (-3 ppb) the limited change is -3750 LSB, below the
    lower end [-maxChangeLSB = +3750] of the range. *)
Lemma limit_claim_fails :
  (let d := mkDev emulator_at_reset 500000 3.0%float in
   let r := limitedChange d 200.0e-6%float in
   let P := (r * 0.1001)%float in
   let I := (seeded_I statics_at_start d + r * 0.0001)%float in
   let bound := Cxx.round (maxChangeInLSBs 3.0 * 0.1001) in
   P = (-375.375)%float /\ bound = 375%float /\
   (abs P <=? bound)%float = false /\
   Cxx.uint32_of_double (Cxx.round I) = 500000 /\
   requestedControlWord statics_at_start d 200.0e-6 0.1001 0.0001 = 499624) /\
  (let r := limitedChange (mkDev emulator_at_reset 500000 0.0%float) nan in
   Cxx.is_nan r = true /\ (r =? 0)%float = false) /\
  (let r := limitedChange (mkDev emulator_at_reset 500000 (-3.0)%float)
                          (-1.0)%float in
   r = (-3750.0000000000005)%float /\
   (0 - maxChangeInLSBs (-3.0) <=? r)%float = false).
Proof. vm_compute. repeat split. Qed.

(** C1, amended: for every bias that is a number and every limit whose
    LSB equivalent [maxChangeLSB] is not negative, the limited change [r]
    lies in [-maxChangeLSB, +maxChangeLSB] and is the required change
    itself or one of the two ends; the control word requested is
    [round (r * Pk + (I + r * Ik))], so the proportional term is [r * Pk];
    whenever the limit applies its magnitude is that of
    [maxChangeLSB * Pk], and for a finite limit and a finite Pk its
    magnitude never exceeds that of [maxChangeLSB * Pk]; in particular with
    a limit of 0 ppb the limited change is zero for every such bias. *)
Theorem limited_change_within_limit
    {B : Type} (st : Statics) (d : sfDevSTP3593LF B) (bias Pk Ik : float) :
  let maxChange := maxChangeInLSBs (_maxFrequencyChangePPB d) in
  let r := limitedChange d bias in
  Cxx.is_nan bias = false ->
  (0 <=? maxChange)%float = true ->
  ((0 - maxChange <=? r)%float = true /\ (r <=? maxChange)%float = true) /\
  (r = requiredChangeInLSBs bias \/ r = maxChange \/ r = (0 - maxChange)%float) /\
  requestedControlWord st d bias Pk Ik =
    Cxx.uint32_of_double (Cxx.round (r * Pk + (seeded_I st d + r * Ik))) /\
  (r = requiredChangeInLSBs bias \/ abs (r * Pk) = abs (maxChange * Pk)) /\
  (Cxx.is_finite maxChange = true -> Cxx.is_finite Pk = true ->
   (abs (r * Pk) <=? abs (maxChange * Pk))%float = true) /\
  ((_maxFrequencyChangePPB d =? 0)%float = true -> (r =? 0)%float = true).
Proof.
  intros maxChange r Hbias Hmax.
  pose proof (requiredChangeInLSBs_not_nan bias Hbias) as Hreq.
  pose proof (limitChangeInLSBs_range _ _ Hreq Hmax) as Hrange.
  pose proof (nonneg_spec _ Hmax) as Hnn.
  cbv zeta in Hrange. fold maxChange in Hrange.
  change (limitChangeInLSBs (requiredChangeInLSBs bias) maxChange) with r in Hrange.
  assert (Hends : r = requiredChangeInLSBs bias \/ r = maxChange \/
                  r = (0 - maxChange)%float).
  { subst r. unfold limitedChange, limitChangeInLSBs. fold maxChange.
    destruct (0.0 <=? requiredChangeInLSBs bias)%float.
    - destruct (maxChange <? requiredChangeInLSBs bias)%float;
        [right; left|left]; reflexivity.
    - destruct (requiredChangeInLSBs bias <? 0.0 - maxChange)%float;
        [right; right|left]; reflexivity. }
  split; [exact Hrange|].
  split; [exact Hends|].
  split; [reflexivity|].
  split.
  { destruct Hends as [E|[E|E]]; [left; exact E| |]; right; rewrite E;
      [reflexivity|apply abs_mul_minus; exact Hnn]. }
  split.
  { intros HfM HfK. destruct Hrange as [Hlo Hhi].
    apply mul_abs_mono; assumption. }
  intros Hz. destruct Hrange as [Hlo Hhi].
  assert (Hmc : maxChange = 0%float \/ maxChange = (-0)%float).
  { subst maxChange.
    destruct (float_zero_cases _ Hz) as [-> | ->]; [left|right]; reflexivity. }
  apply eqb_zero_of_range.
  - destruct Hmc as [E|E]; rewrite E in Hlo; exact Hlo.
  - destruct Hmc as [E|E]; rewrite E in Hhi; [exact Hhi|].
    revert Hhi. rewrite !FloatAxioms.leb_spec.
    change (Prim2SF (-0)) with (S754_zero true).
    change (Prim2SF 0) with (S754_zero false).
    destruct (Prim2SF r) as [s|s| |s m e]; cbn; trivial.
Qed.

Lemma limited_change_within_limit_witness :
  let d := mkDev emulator_at_reset 500000 3.0%float in
  let r := limitedChange d 200.0e-6%float in
  (0 - 3750.0000000000005 <=? r)%float = true /\
  (r <=? 3750.0000000000005)%float = true.
Proof.
  intros d r.
  refine (proj1 (limited_change_within_limit statics_at_start d 200.0e-6%float
                   1.0%float 0.0%float _ _)).
  - vm_compute. reflexivity.
  - vm_compute. reflexivity.
Defined.

(** C2, as the claim states it, fails in two ways.  (1) It holds for
    the first steering call of a program only: repeating the documented
    call on the emulator (control word 500000), the first call lowers the
    word to 496250; the second call finds C = 496250 cached and writes
    496250 again, not C - 3750 = 492500, because the integrator still
    holds the 500000 it was seeded with.  (2) With a cached control word
    below 3750, here C = 1000, [P + I] is negative and the word committed
    is 1000000, not C - 3750. *)
Lemma documented_example_twice :
  (let d0 := mkDev emulator_at_reset 500000 3.0%float in
   let out1 := setFrequencyByBiasMillis statics_at_start d0
                 200.0e-6%float 1.0%float 0.0%float in
   let out2 := setFrequencyByBiasMillis (snd (fst out1)) (snd out1)
                 200.0e-6%float 1.0%float 0.0%float in
   (fst (fst out1) = true /\ _frequencyControl (snd out1) = 496250) /\
   (fst (fst out2) = true /\ _frequencyControl (snd out2) = 496250) /\
   496250 <> 496250 - 3750) /\
  (let d0 := mkDev emulator_at_reset 1000 3.0%float in
   let out := setFrequencyByBiasMillis statics_at_start d0
                200.0e-6%float 1.0%float 0.0%float in
   fst (fst out) = true /\ _frequencyControl (snd out) = 1000000 /\
   1000000 <> 1000 - 3750 /\ 1000000 <> (1000 - 3750) mod 2 ^ 32).
Proof. vm_compute. repeat split; discriminate. Qed.

(** C2, amended: with a limit of 3.0 ppb, the first steering call of the
    program, [setFrequencyByBiasMillis(200.0e-6, 1.0, 0.0)], made with a
    cached control word C between 3750 and 1000000, computes an error of
    -200e-9 s (the double -2.0000000000000002e-07), a required change of
    -250000 LSB, limits it to [-maxChangeLSB] where [maxChangeLSB] is
    3.0e-9 / 8e-13 (the double 3750.0000000000005), takes P equal to that
    limited change, and on a successful bus write returns true with the
    committed control word equal to C - 3750. *)
Theorem documented_example
    {B : Type} `{Bus : sfTkII2C B} (st : Statics) (d : sfDevSTP3593LF B) :
  let C := _frequencyControl d in
  let wire := writeRegisterRegion (_theBus d) kSfeSTP3593LFRegWriteDAC
                (encodeControlWord (C - 3750)) in
  let out := setFrequencyByBiasMillis st d 200.0e-6%float 1.0%float 0.0%float in
  static_initialized st = false ->
  _maxFrequencyChangePPB d = 3.0%float ->
  3750 <= C <= 1000000 ->
  fst wire = ksfTkErrOk ->
  error_of_bias 200.0e-6 = (-2.0000000000000002e-07)%float /\
  requiredChangeInLSBs 200.0e-6 = (-250000)%float /\
  maxChangeInLSBs (_maxFrequencyChangePPB d) = 3750.0000000000005%float /\
  limitedChange d 200.0e-6 = (-3750.0000000000005)%float /\
  (limitedChange d 200.0e-6 * 1.0)%float = (-3750.0000000000005)%float /\
  requestedControlWord st d 200.0e-6 1.0 0.0 = C - 3750 /\
  fst (fst out) = true /\
  _frequencyControl (snd out) = C - 3750.
Proof.
  intros C wire out Hinit Hppb HC Hwire.
  assert (Hlim : limitedChange d 200.0e-6 = example_change).
  { unfold limitedChange. rewrite Hppb. vm_compute. reflexivity. }
  assert (Hword : requestedControlWord st d 200.0e-6 1.0 0.0 = C - 3750).
  { unfold requestedControlWord. cbv zeta. rewrite Hlim.
    unfold seeded_I. rewrite Hinit. apply word_lowered_spec. exact HC. }
  split; [vm_compute; reflexivity|].
  split; [vm_compute; reflexivity|].
  split; [rewrite Hppb; vm_compute; reflexivity|].
  split; [exact Hlim|].
  split; [rewrite Hlim; vm_compute; reflexivity|].
  split; [exact Hword|].
  subst out. unfold setFrequencyByBiasMillis.
  fold (requestedControlWord st d 200.0e-6 1.0 0.0). rewrite Hword.
  rewrite setFrequencyControlWord_unfold. cbv zeta.
  replace (Z.min (C - 3750) kSfeSTP3593LFFreqControlMaxValue) with (C - 3750)
    by (unfold kSfeSTP3593LFFreqControlMaxValue; lia).
  fold wire. rewrite Hwire. cbn. split; reflexivity.
Qed.

Lemma documented_example_witness :
  let d := mkDev emulator_at_reset 500000 3.0%float in
  let out := setFrequencyByBiasMillis statics_at_start d
               200.0e-6%float 1.0%float 0.0%float in
  fst (fst out) = true /\ _frequencyControl (snd out) = 500000 - 3750.
Proof.
  intros d out.
  refine (proj2 (proj2 (proj2 (proj2 (proj2 (proj2
    (documented_example statics_at_start d _ _ _ _))))))).
  - reflexivity.
  - reflexivity.
  - vm_compute. split; discriminate.
  - reflexivity.
Defined.

(** Adding a zero, on either side, to a double that is not a zero gives
    that double; added to a zero it gives a zero. *)
Lemma add_zero_cases (x z : float) :
  (z = 0 \/ z = -0)%float ->
  ((x + z)%float = x /\ (z + x)%float = x) \/
  (exists s s1 s2, Prim2SF x = S754_zero s /\
     Prim2SF (x + z) = S754_zero s1 /\ Prim2SF (z + x) = S754_zero s2).
Proof.
  intros Hz.
  assert (Z0 : exists t, Prim2SF z = S754_zero t)
    by (destruct Hz as [-> | ->]; eexists; reflexivity).
  destruct Z0 as [t Z0].
  destruct (Prim2SF x) as [s|s| |s m e] eqn:Hx.
  - right. exists s.
    exists (if Bool.eqb s t then s else false), (if Bool.eqb t s then t else false).
    rewrite !FloatAxioms.add_spec, Hx, Z0.
    destruct s, t; repeat split; reflexivity.
  - left. split; apply Prim2SF_inj; rewrite FloatAxioms.add_spec, Hx, Z0; reflexivity.
  - left. split; apply Prim2SF_inj; rewrite FloatAxioms.add_spec, Hx, Z0; reflexivity.
  - left. split; apply Prim2SF_inj; rewrite FloatAxioms.add_spec, Hx, Z0; reflexivity.
Qed.

(** A zero converts to the word 0. *)
Lemma word_of_zero (x : float) (s : bool) :
  Prim2SF x = S754_zero s -> Cxx.uint32_of_double (Cxx.round x) = 0.
Proof.
  intros Hx.
  assert (R : Cxx.round x = x)
    by (rewrite round_reference_eq; unfold Cxx.round_reference; rewrite Hx; reflexivity).
  rewrite R, uint32_of_double_reference_eq.
  unfold Cxx.uint32_of_double_reference. rewrite Hx. reflexivity.
Qed.

(** Zeros added to the integrator do not change the word it converts
    to. *)
Lemma word_of_sum_with_zeros (x zP zI : float) :
  (zP = 0 \/ zP = -0)%float -> (zI = 0 \/ zI = -0)%float ->
  Cxx.uint32_of_double (Cxx.round (zP + (x + zI)))
  = Cxx.uint32_of_double (Cxx.round x) /\
  Cxx.uint32_of_double (Cxx.round (x + zI))
  = Cxx.uint32_of_double (Cxx.round x).
Proof.
  intros HP HI.
  destruct (add_zero_cases x zI HI) as [[E _]|(s & s1 & _ & Hx & E1 & _)].
  - rewrite E.
    destruct (add_zero_cases x zP HP) as [[_ E']|(t & _ & t2 & Hx & _ & E2)].
    + rewrite E'. split; reflexivity.
    + rewrite (word_of_zero _ _ E2), (word_of_zero _ _ Hx). split; reflexivity.
  - destruct (add_zero_cases (x + zI) zP HP) as [[_ E']|(t & _ & t2 & _ & _ & E2)].
    + rewrite E', (word_of_zero _ _ E1), (word_of_zero _ _ Hx). split; reflexivity.
    + rewrite (word_of_zero _ _ E2), (word_of_zero _ _ E1), (word_of_zero _ _ Hx).
      split; reflexivity.
Qed.

(** C3, as the claim states it, fails in two ways.  (1) After the
    documented call has lowered the emulator's control word from 500000 to
    496250, a call with both gains zero writes the integrator, 500000, and
    the control word moves back from 496250 to 500000.  (2) With a bias
    that is NaN, [P] and [dI] are NaN and not zero, the integrator becomes
    NaN, and the word committed on a first call with C = 500000 is 0. *)
Lemma zero_gains_move_the_word :
  (let d0 := mkDev emulator_at_reset 500000 3.0%float in
   let out1 := setFrequencyByBiasMillis statics_at_start d0
                 200.0e-6%float 1.0%float 0.0%float in
   let out2 := setFrequencyByBiasMillis (snd (fst out1)) (snd out1)
                 200.0e-6%float 0.0%float 0.0%float in
   _frequencyControl (snd out1) = 496250 /\
   fst (fst out2) = true /\
   _frequencyControl (snd out2) = 500000) /\
  (let d0 := mkDev emulator_at_reset 500000 3.0%float in
   let out := setFrequencyByBiasMillis statics_at_start d0
                nan 0.0%float 0.0%float in
   Cxx.is_nan (limitedChange d0 nan * 0.0) = true /\
   Cxx.is_nan (static_I (snd (fst out))) = true /\
   fst (fst out) = true /\ _frequencyControl (snd out) = 0).
Proof. vm_compute. repeat split. Qed.

(** C3, amended: for every bias that is a number, with a finite limit,
    [setFrequencyByBiasMillis(bias, 0.0, 0.0)] has a zero proportional
    term and a zero integrator step, so on every call the value it writes
    is the rounded integrator the call starts from (converted to
    [uint32_t] and limited to 1000000), not the cached control word: the
    call makes one write, of the frame of that word, commits the word when
    the write succeeds, and leaves an integrator that rounds to the same
    word.  On the first steering call of the program, made with a cached
    control word C <= 1000000, the integrator is seeded with C, the value
    written is C and the control word held after the call equals the one
    held before it. *)
Theorem zero_gains_keep_the_first_word
    {B : Type} `{Bus : sfTkII2C B}
    (st : Statics) (d : sfDevSTP3593LF (Logged B)) (bias : float) :
  let maxChange := maxChangeInLSBs (_maxFrequencyChangePPB d) in
  let r := limitedChange d bias in
  let I := seeded_I st d in
  let word := limitControlWord (Cxx.uint32_of_double (Cxx.round I)) in
  let wire := writeRegisterRegion (inner (_theBus d)) kSfeSTP3593LFRegWriteDAC
                (encodeControlWord word) in
  let out := setFrequencyByBiasMillis st d bias 0.0%float 0.0%float in
  Cxx.is_nan bias = false ->
  Cxx.is_finite maxChange = true ->
  ((r * 0.0 = 0 \/ r * 0.0 = -0)%float) /\
  requestedControlWord st d bias 0.0 0.0 =
    Cxx.uint32_of_double (Cxx.round (r * 0.0 + (seeded_I st d + r * 0.0))) /\
  requestedControlWord st d bias 0.0 0.0 = Cxx.uint32_of_double (Cxx.round I) /\
  calls (_theBus (snd out)) =
    calls (_theBus d) ++
    [CallWrite kSfeSTP3593LFRegWriteDAC (encodeControlWord word)] /\
  (fst (fst out) = true <-> fst wire = ksfTkErrOk) /\
  _frequencyControl (snd out) =
    (if fst (fst out) then word else _frequencyControl d) /\
  static_initialized (snd (fst out)) = true /\
  static_I (snd (fst out)) = (I + r * 0.0)%float /\
  Cxx.uint32_of_double (Cxx.round (static_I (snd (fst out))))
    = Cxx.uint32_of_double (Cxx.round I) /\
  (static_initialized st = false ->
   0 <= _frequencyControl d <= kSfeSTP3593LFFreqControlMaxValue ->
   requestedControlWord st d bias 0.0 0.0 = _frequencyControl d /\
   calls (_theBus (snd out)) =
     calls (_theBus d) ++
     [CallWrite kSfeSTP3593LFRegWriteDAC (encodeControlWord (_frequencyControl d))] /\
   _frequencyControl (snd out) = _frequencyControl d).
Proof.
  intros maxChange r I word wire out Hbias Hfin.
  pose proof (requiredChangeInLSBs_not_nan bias Hbias) as Hreq.
  pose proof (limitChangeInLSBs_finite _ _ Hreq Hfin) as Hr.
  change (limitChangeInLSBs (requiredChangeInLSBs bias)
            (maxChangeInLSBs (_maxFrequencyChangePPB d))) with r in Hr.
  pose proof (mul_zero_is_zero r Hr) as Hz.
  destruct (word_of_sum_with_zeros I _ _ Hz Hz) as [Hsum Hnext].
  assert (Hreqw : requestedControlWord st d bias 0.0 0.0
                  = Cxx.uint32_of_double (Cxx.round I)) by exact Hsum.
  assert (Hout : out =
            (let s := mkLogged (snd wire)
                        (calls (_theBus d) ++
                         [CallWrite kSfeSTP3593LFRegWriteDAC (encodeControlWord word)]) in
             if sfTkError_eqb (fst wire) ksfTkErrOk
             then (true, mkStatics (I + r * 0.0)%float true,
                   mkDev s word (_maxFrequencyChangePPB d))
             else (false, mkStatics (I + r * 0.0)%float true,
                   mkDev s (_frequencyControl d) (_maxFrequencyChangePPB d)))).
  { subst out. unfold setFrequencyByBiasMillis.
    fold (requestedControlWord st d bias 0.0 0.0). rewrite Hreqw.
    rewrite setFrequencyControlWord_logged. cbv zeta.
    rewrite <- limitControlWord_min. fold word. fold wire.
    destruct (sfTkError_eqb (fst wire) ksfTkErrOk); reflexivity. }
  split; [exact Hz|]. split; [reflexivity|]. split; [exact Hreqw|].
  assert (Hrest :
    calls (_theBus (snd out)) =
      calls (_theBus d) ++
      [CallWrite kSfeSTP3593LFRegWriteDAC (encodeControlWord word)] /\
    (fst (fst out) = true <-> fst wire = ksfTkErrOk) /\
    _frequencyControl (snd out) =
      (if fst (fst out) then word else _frequencyControl d) /\
    static_initialized (snd (fst out)) = true /\
    static_I (snd (fst out)) = (I + r * 0.0)%float).
  { rewrite Hout. cbv zeta.
    destruct (sfTkError_eqb (fst wire) ksfTkErrOk) eqn:E;
      cbn [fst snd _theBus calls _frequencyControl static_I static_initialized].
    - apply sfTkError_eqb_Ok in E.
      split; [reflexivity|]. split; [split; [intros _; exact E|reflexivity]|].
      repeat split.
    - split; [reflexivity|]. split; [split; [discriminate|]|repeat split].
      intros H. apply sfTkError_eqb_Ok in H. congruence. }
  destruct Hrest as (Hcalls & Hok & Hfc & Hini & HI).
  split; [exact Hcalls|]. split; [exact Hok|]. split; [exact Hfc|].
  split; [exact Hini|]. split; [exact HI|].
  split; [rewrite HI; exact Hnext|].
  intros Hinit HC.
  assert (Hword : requestedControlWord st d bias 0.0 0.0 = _frequencyControl d).
  { unfold requestedControlWord. cbv zeta. fold r.
    unfold seeded_I. rewrite Hinit.
    apply word_kept_spec; assumption. }
  assert (Hw : word = _frequencyControl d).
  { unfold word. rewrite <- Hreqw, Hword, limitControlWord_min. lia. }
  split; [exact Hword|].
  rewrite Hcalls, Hfc, Hw. split; [reflexivity|].
  destruct (fst (fst out)); reflexivity.
Qed.

Lemma zero_gains_keep_the_first_word_witness :
  let d := mkDev (mkLogged emulator_at_reset []) 496250 3.0%float in
  let out := setFrequencyByBiasMillis (mkStatics 500000%float true) d
               200.0e-6%float 0.0%float 0.0%float in
  calls (_theBus (snd out)) =
    [CallWrite kSfeSTP3593LFRegWriteDAC (encodeControlWord 500000)] /\
  _frequencyControl (snd out) = 500000.
Proof.
  intros d out.
  pose proof (zero_gains_keep_the_first_word (mkStatics 500000%float true) d
                200.0e-6%float ltac:(reflexivity) ltac:(reflexivity)) as H.
  cbv zeta in H.
  destruct H as (_ & _ & _ & Hcalls & _ & Hfc & _).
  split; [exact Hcalls|exact Hfc].
Defined.

(** *** Several driver objects *)

Lemma nth_error_replace_object_other
    {B : Type} (d : sfDevSTP3593LF B) (l : list (sfDevSTP3593LF B)) :
  forall i j, j <> i -> nth_error (replace_object i d l) j = nth_error l j.
Proof.
  induction l as [|h t IH]; intros i j Hne; [destruct i; reflexivity|].
  destruct i as [|i], j as [|j]; cbn; try reflexivity; try congruence.
  apply IH. congruence.
Qed.

Lemma nth_error_replace_object_same
    {B : Type} (d : sfDevSTP3593LF B) (l : list (sfDevSTP3593LF B)) :
  forall i, (i < length l)%nat -> nth_error (replace_object i d l) i = Some d.
Proof.
  induction l as [|h t IH]; intros i Hi; cbn in Hi; [lia|].
  destruct i as [|i]; cbn; [reflexivity|]. apply IH. lia.
Qed.

(** C9, as the claim states it, fails.  Two drivers, A caching 500000 and
    B caching 100000, both gains zero.  Steered alone, B keeps its 100000.
    Steered after one call on A, B is set to 500000: the call on A seeded
    the integrator that the call on B then used. *)
Lemma integrator_is_shared_between_drivers :
  let a := mkDev emulator_at_reset 500000 400.0%float in
  let b := mkDev emulator_at_reset 100000 400.0%float in
  let p0 := mkProgram statics_at_start [a; b] in
  option_map (fun r => map _frequencyControl (objects (snd r)))
    (call_setFrequencyByBiasMillis 1 p0 0.0%float 0.0%float 0.0%float)
    = Some [500000; 100000] /\
  option_map (fun r => map _frequencyControl (objects (snd r)))
    (match call_setFrequencyByBiasMillis 0 p0 0.0%float 0.0%float 0.0%float with
     | Some (_, p1) =>
         call_setFrequencyByBiasMillis 1 p1 0.0%float 0.0%float 0.0%float
     | None => None
     end)
    = Some [500000; 500000].
Proof. vm_compute. split; reflexivity. Qed.

(** C9, amended: the integrator and its initialized flag are function-local
    statics, one copy for the whole program.  A call of
    [setFrequencyByBiasMillis] on one driver leaves the members of every
    other driver untouched, but it marks the shared integrator initialized
    and leaves in it the seed of this call advanced by [dI]; the next call
    on any driver, the same or another, starts from that value and not
    from the driver's own control word. *)
Theorem steering_state_is_shared
    {B : Type} `{Bus : sfTkII2C B}
    (p p' : Program B) (i : nat) (bias Pk Ik : float) (ok : bool) :
  call_setFrequencyByBiasMillis i p bias Pk Ik = Some (ok, p') ->
  (forall j, j <> i -> nth_error (objects p') j = nth_error (objects p) j) /\
  static_initialized (statics p') = true /\
  (exists di, nth_error (objects p) i = Some di /\
     nth_error (objects p') i =
       Some (snd (setFrequencyByBiasMillis (statics p) di bias Pk Ik)) /\
     static_I (statics p') =
       (seeded_I (statics p) di + limitedChange di bias * Ik)%float) /\
  (forall j dj, nth_error (objects p') j = Some dj ->
     seeded_I (statics p') dj = static_I (statics p')).
Proof.
  unfold call_setFrequencyByBiasMillis.
  destruct (nth_error (objects p) i) as [di|] eqn:Ei; [|discriminate].
  assert (Hi : (i < length (objects p))%nat)
    by (apply nth_error_Some; congruence).
  destruct (setFrequencyByBiasMillis (statics p) di bias Pk Ik)
    as [[ok1 st1] d1] eqn:Eout.
  intros H. injection H as <- <-.
  assert (Est : st1 = mkStatics
                  (seeded_I (statics p) di + limitedChange di bias * Ik)%float true).
  { unfold setFrequencyByBiasMillis in Eout.
    destruct (setFrequencyControlWord di _) as [ok' d'].
    injection Eout as _ <- _. reflexivity. }
  subst st1. cbn [objects statics static_I static_initialized snd seeded_I].
  split; [intros j Hj; apply nth_error_replace_object_other; exact Hj|].
  split; [reflexivity|].
  split.
  { exists di. split; [reflexivity|]. split; [|reflexivity].
    rewrite Eout. apply nth_error_replace_object_same. exact Hi. }
  intros j dj _. reflexivity.
Qed.

Lemma steering_state_is_shared_witness :
  let a := mkDev emulator_at_reset 500000 400.0%float in
  let b := mkDev emulator_at_reset 100000 400.0%float in
  let a' := mkDev (mkEmulator [x00; x07; xa1; x20] kSfeSTP3593LFRegWriteDAC)
                  500000 400.0%float in
  let p0 := mkProgram statics_at_start [a; b] in
  let p1 := mkProgram (mkStatics 500000%float true) [a'; b] in
  call_setFrequencyByBiasMillis 0 p0 0.0%float 0.0%float 0.0%float
    = Some (true, p1) /\
  nth_error (objects p1) 1 = Some b /\
  seeded_I (statics p1) b = 500000%float.
Proof.
  intros a b a' p0 p1.
  assert (E : call_setFrequencyByBiasMillis 0 p0 0.0%float 0.0%float 0.0%float
              = Some (true, p1)) by (vm_compute; reflexivity).
  split; [exact E|].
  destruct (steering_state_is_shared p0 p1 0 0.0%float 0.0%float 0.0%float true E)
    as [Hother [_ [_ Hnext]]].
  split; [exact (Hother 1%nat ltac:(discriminate))|].
  exact (Hnext 1%nat b eq_refl).
Defined.

(** The truncated magnitude [m * 2^e] against an integer [N] held as
    [N * 2^k * 2^(-k)], from the two mantissas aligned to the lower
    exponent. *)
Lemma truncated_le (m N e k : Z) :
  0 < m -> 0 <= N -> 0 <= k ->
  m * 2 ^ (e - Z.min e (- k)) <= N * 2 ^ k * 2 ^ (- k - Z.min e (- k)) ->
  Z.shiftl m e <= N.
Proof.
  intros Hm HN Hk H.
  assert (Hkey : 0 <= e -> m * 2 ^ e <= N).
  { intros He. rewrite Z.min_r in H by lia.
    replace (- k - - k) with 0 in H by lia.
    replace (e - - k) with (e + k) in H by lia.
    rewrite Z.pow_add_r in H by lia. change (2 ^ 0) with 1 in H.
    pose proof (Z.pow_pos_nonneg 2 k ltac:(lia) Hk). nia. }
  assert (Hkey' : e < 0 -> m <= N * 2 ^ (- e)).
  { intros He. destruct (Z.le_gt_cases (- k) e) as [L|G].
    - rewrite Z.min_r in H by lia.
      replace (- k - - k) with 0 in H by lia. change (2 ^ 0) with 1 in H.
      assert (E2 : 2 ^ k = 2 ^ (- e) * 2 ^ (e - - k))
        by (rewrite <- Z.pow_add_r by lia; f_equal; lia).
      rewrite E2 in H.
      pose proof (Z.pow_pos_nonneg 2 (e - - k) ltac:(lia) ltac:(lia)). nia.
    - rewrite Z.min_l in H by lia.
      rewrite Z.sub_diag in H. change (2 ^ 0) with 1 in H.
      rewrite <- Z.mul_assoc, <- Z.pow_add_r in H by lia.
      replace (k + (- k - e)) with (- e) in H by lia. lia. }
  destruct (Z.le_gt_cases 0 e) as [He|He].
  - rewrite Z.shiftl_mul_pow2 by lia. auto.
  - rewrite Z.shiftl_div_pow2 by lia.
    pose proof (Z.pow_pos_nonneg 2 (- e) ltac:(lia) ltac:(lia)) as Hp.
    apply Z.div_le_upper_bound; [exact Hp|]. specialize (Hkey' He). nia.
Qed.

Lemma truncated_ge (m N e k : Z) :
  0 < m -> 0 <= N -> 0 <= k ->
  N * 2 ^ k * 2 ^ (- k - Z.min (- k) e) <= m * 2 ^ (e - Z.min (- k) e) ->
  N <= Z.shiftl m e.
Proof.
  intros Hm HN Hk H.
  assert (Hkey : 0 <= e -> N <= m * 2 ^ e).
  { intros He. rewrite Z.min_l in H by lia.
    replace (- k - - k) with 0 in H by lia.
    replace (e - - k) with (e + k) in H by lia.
    rewrite Z.pow_add_r in H by lia. change (2 ^ 0) with 1 in H.
    pose proof (Z.pow_pos_nonneg 2 k ltac:(lia) Hk). nia. }
  assert (Hkey' : e < 0 -> N * 2 ^ (- e) <= m).
  { intros He. destruct (Z.le_gt_cases (- k) e) as [L|G].
    - rewrite Z.min_l in H by lia.
      replace (- k - - k) with 0 in H by lia. change (2 ^ 0) with 1 in H.
      assert (E2 : 2 ^ k = 2 ^ (- e) * 2 ^ (e - - k))
        by (rewrite <- Z.pow_add_r by lia; f_equal; lia).
      rewrite E2 in H.
      pose proof (Z.pow_pos_nonneg 2 (e - - k) ltac:(lia) ltac:(lia)). nia.
    - rewrite Z.min_r in H by lia.
      rewrite Z.sub_diag in H. change (2 ^ 0) with 1 in H.
      rewrite <- Z.mul_assoc, <- Z.pow_add_r in H by lia.
      replace (k + (- k - e)) with (- e) in H by lia. lia. }
  destruct (Z.le_gt_cases 0 e) as [He|He].
  - rewrite Z.shiftl_mul_pow2 by lia. auto.
  - rewrite Z.shiftl_div_pow2 by lia.
    pose proof (Z.pow_pos_nonneg 2 (- e) ltac:(lia) ltac:(lia)) as Hp.
    apply Z.div_le_lower_bound; [exact Hp|]. specialize (Hkey' He). nia.
Qed.

(** A double from -4293967295 to -1 converts, in this embedding, to a
    word above 1000000: [2^32] minus its truncated magnitude. *)
Lemma negative_conversion (y : float) :
  (y <=? -1)%float = true ->
  (-4293967295 <=? y)%float = true ->
  kSfeSTP3593LFFreqControlMaxValue < Cxx.uint32_of_double y < 2 ^ 32.
Proof.
  rewrite !FloatAxioms.leb_spec.
  change (Prim2SF (-1)%float) with (S754_finite true 4503599627370496 (-52)).
  change (Prim2SF (-4293967295)%float)
    with (S754_finite true 9005102100643840 (-21)).
  intros H1 H2.
  rewrite uint32_of_double_reference_eq. unfold Cxx.uint32_of_double_reference.
  destruct (Prim2SF y) as [s|s| |s m e] eqn:Hy.
  - destruct s; discriminate H1.
  - destruct s; [discriminate H2|discriminate H1].
  - discriminate H1.
  - destruct s; [|discriminate H1].
    rewrite SFleb_finite_neg in H1, H2.
    destruct (finite_valid y true m e Hy) as (Hd & He & Hsub).
    apply SFleb_finite_value in H1; [|cbn; lia|lia|exact Hsub].
    apply SFleb_finite_value in H2; [|exact Hd|lia|cbn; lia].
    assert (L : 1 <= Z.shiftl (Zpos m) e).
    { apply (truncated_ge (Zpos m) 1 e 52); try lia. exact H1. }
    assert (U : Z.shiftl (Zpos m) e <= 4293967295).
    { apply (truncated_le (Zpos m) 4293967295 e 21); try lia. exact H2. }
    destruct (Z.leb_spec (2 ^ 63) (Z.shiftl (Zpos m) e)); [lia|].
    replace (- Z.shiftl (Zpos m) e)
      with ((2 ^ 32 - Z.shiftl (Zpos m) e) + (-1) * 2 ^ 32) by lia.
    rewrite Z.mod_add by lia.
    rewrite Z.mod_small by lia.
    unfold kSfeSTP3593LFFreqControlMaxValue. lia.
Qed.

(** C10: there are inputs for which [round (P + I)] is negative, and in
    that case the word is not saturated to 0.  C++ leaves the conversion
    of a negative double to [uint32_t] undefined; with the conversion of
    this embedding (the value modulo 2^32, as the claim embeds it) every
    call whose [round (P + I)] lies from -4293967295 to -1 converts it to
    a word above 1000000, which the limit of [setFrequencyControlWord]
    turns into 1000000: the call makes one write, of the frame of
    1000000, and commits 1000000 when the write succeeds.  Such inputs
    exist: a first call on a driver whose bus has seen no call yet and
    whose cached control word is 0, with limit 3 ppb, bias +200 ns,
    Pk = 1, Ik = 0, has [round (P + I) = -3750] and writes and commits
    1000000. *)
Theorem negative_sum_is_written_as_maximum :
  (forall (B : Type) (Bus : sfTkII2C B) (st : Statics)
          (d : sfDevSTP3593LF (Logged B)) (bias Pk Ik : float),
     let r := limitedChange d bias in
     let sum := (r * Pk + (seeded_I st d + r * Ik))%float in
     let wire := writeRegisterRegion (inner (_theBus d)) kSfeSTP3593LFRegWriteDAC
                   (encodeControlWord 1000000) in
     let out := setFrequencyByBiasMillis st d bias Pk Ik in
     (Cxx.round sum <=? -1)%float = true ->
     (-4293967295 <=? Cxx.round sum)%float = true ->
     1000000 < Cxx.uint32_of_double (Cxx.round sum) < 2 ^ 32 /\
     limitControlWord (Cxx.uint32_of_double (Cxx.round sum)) = 1000000 /\
     calls (_theBus (snd out)) =
       calls (_theBus d) ++
       [CallWrite kSfeSTP3593LFRegWriteDAC (encodeControlWord 1000000)] /\
     (fst (fst out) = true <-> fst wire = ksfTkErrOk) /\
     _frequencyControl (snd out) =
       (if fst (fst out) then 1000000 else _frequencyControl d)) /\
  (exists (d : sfDevSTP3593LF (Logged Emulator)) (bias Pk Ik : float),
    let st := statics_at_start in
    let r := limitedChange d bias in
    let sum := (r * Pk + (seeded_I st d + r * Ik))%float in
    let out := setFrequencyByBiasMillis st d bias Pk Ik in
    calls (_theBus d) = [] /\
    _frequencyControl d = 0 /\
    (Cxx.round sum <? 0)%float = true /\
    Cxx.round sum = (-3750)%float /\
    Cxx.uint32_of_double (Cxx.round sum) = 2 ^ 32 - 3750 /\
    limitControlWord (Cxx.uint32_of_double (Cxx.round sum)) = 1000000 /\
    fst (fst out) = true /\
    calls (_theBus (snd out)) =
      [CallWrite kSfeSTP3593LFRegWriteDAC (encodeControlWord 1000000)] /\
    _frequencyControl (snd out) = 1000000).
Proof.
  split.
  - intros B Bus st d bias Pk Ik r sum wire out Hneg Hlow.
    pose proof (negative_conversion _ Hneg Hlow) as Hw.
    unfold kSfeSTP3593LFFreqControlMaxValue in Hw.
    set (w := Cxx.uint32_of_double (Cxx.round sum)) in *.
    assert (Hlim : limitControlWord w = 1000000).
    { rewrite limitControlWord_min.
      unfold kSfeSTP3593LFFreqControlMaxValue. lia. }
    split; [exact Hw|]. split; [exact Hlim|].
    subst out. unfold setFrequencyByBiasMillis. cbv zeta.
    fold r. fold sum. fold w.
    rewrite setFrequencyControlWord_logged. cbv zeta.
    rewrite <- limitControlWord_min, Hlim. fold wire.
    destruct (sfTkError_eqb (fst wire) ksfTkErrOk) eqn:E;
      cbn [fst snd _theBus calls _frequencyControl].
    + apply sfTkError_eqb_Ok in E.
      split; [reflexivity|]. split; [split; [intros _; exact E|reflexivity]|].
      reflexivity.
    + split; [reflexivity|]. split; [split; [discriminate|]|reflexivity].
      intros H. apply sfTkError_eqb_Ok in H. congruence.
  - exists (mkDev (mkLogged emulator_at_reset []) 0 3.0%float),
           200.0e-6%float, 1.0%float, 0.0%float.
    vm_compute. repeat split.
Qed.

Lemma negative_sum_is_written_as_maximum_witness :
  let d := mkDev (mkLogged emulator_at_reset []) 0 3.0%float in
  let out := setFrequencyByBiasMillis statics_at_start d
               200.0e-6%float 1.0%float 0.0%float in
  calls (_theBus (snd out)) =
    [CallWrite kSfeSTP3593LFRegWriteDAC (encodeControlWord 1000000)] /\
  _frequencyControl (snd out) = 1000000.
Proof.
  intros d out.
  pose proof (proj1 negative_sum_is_written_as_maximum Emulator _
                statics_at_start d 200.0e-6%float 1.0%float 0.0%float
                ltac:(reflexivity) ltac:(reflexivity)) as H.
  cbv zeta in H.
  destruct H as (_ & _ & Hcalls & _ & Hfc).
  split; [exact Hcalls|exact Hfc].
Defined.

(* ===================================================================== *)
(** ** Wire frames read back *)
(* ===================================================================== *)

(** A byte widened and narrowed again is itself. *)
Lemma uint8_of_byte (b : byte) : Cxx.uint8_t (Cxx.uint32_of_byte b) = b.
Proof. destruct b; reflexivity. Qed.

Lemma uint32_of_byte_range (b : byte) : 0 <= Cxx.uint32_of_byte b < 2 ^ 8.
Proof.
  unfold Cxx.uint32_of_byte.
  pose proof (Byte.to_N_bounded b) as H.
  change (2 ^ 8) with 256. lia.
Qed.

Lemma testbit_byte_high (b : byte) (n : Z) :
  8 <= n -> Z.testbit (Cxx.uint32_of_byte b) n = false.
Proof.
  intros Hn. pose proof (uint32_of_byte_range b) as Hb.
  destruct (Z.eq_dec (Cxx.uint32_of_byte b) 0) as [->|Hz]; [apply Z.bits_0|].
  apply Z.bits_above_log2; [lia|].
  apply Z.lt_le_trans with 8; [|exact Hn].
  apply Z.log2_lt_pow2; lia.
Qed.

(** A byte shifted into place stays within 32 bits. *)
Lemma shifted_byte_fits (b : byte) (k : Z) :
  0 <= k <= 24 ->
  Cxx.uint32_t (Z.shiftl (Cxx.uint32_of_byte b) k)
  = Z.shiftl (Cxx.uint32_of_byte b) k.
Proof.
  intros Hk. unfold Cxx.uint32_t.
  pose proof (uint32_of_byte_range b) as Hb.
  rewrite Z.shiftl_mul_pow2 by lia.
  apply Z.mod_small. split; [apply Z.mul_nonneg_nonneg; lia|].
  apply Z.lt_le_trans with (2 ^ 8 * 2 ^ k).
  - apply Z.mul_lt_mono_pos_r; lia.
  - rewrite <- Z.pow_add_r by lia. apply Z.pow_le_mono_r; lia.
Qed.

Lemma lor_range (a b n : Z) :
  0 < n -> 0 <= a < 2 ^ n -> 0 <= b < 2 ^ n -> 0 <= Z.lor a b < 2 ^ n.
Proof.
  intros Hn Ha Hb.
  assert (H0 : 0 <= Z.lor a b) by (apply Z.lor_nonneg; lia).
  split; [exact H0|].
  destruct (Z.eq_dec (Z.lor a b) 0) as [->|Hz]; [lia|].
  apply Z.log2_lt_pow2; [lia|].
  rewrite Z.log2_lor by lia.
  apply Z.max_lub_lt.
  - destruct (Z.eq_dec a 0) as [->|]; [exact Hn|]. apply Z.log2_lt_pow2; lia.
  - destruct (Z.eq_dec b 0) as [->|]; [exact Hn|]. apply Z.log2_lt_pow2; lia.
Qed.

Lemma decodeControlWord_range (theBytes : list byte) :
  0 <= decodeControlWord theBytes < 2 ^ 32.
Proof.
  unfold decodeControlWord.
  repeat apply lor_range; try lia; unfold Cxx.uint32_t; apply Z.mod_pos_bound; lia.
Qed.

(** Four bytes decode to a word whose frame is these four bytes. *)
Lemma encode_decode (a b c d : byte) :
  encodeControlWord (decodeControlWord [a; b; c; d]) = [a; b; c; d].
Proof.
  unfold decodeControlWord, encodeControlWord; cbn [nth].
  rewrite !shifted_byte_fits by lia.
  change 0xFF with (Z.ones 8).
  assert (P : forall x (y : byte) k, 0 <= k ->
            (forall n, 0 <= n < 8 -> Z.testbit x (n + k) = Z.testbit (Cxx.uint32_of_byte y) n) ->
            Cxx.uint8_t (Z.land (Z.shiftr x k) (Z.ones 8)) = y).
  { intros x y k Hk H.
    replace (Z.land (Z.shiftr x k) (Z.ones 8)) with (Cxx.uint32_of_byte y);
      [apply uint8_of_byte|].
    apply Z.bits_inj'; intros n Hn.
    rewrite Z.land_spec, Z.shiftr_spec, Z.testbit_ones by lia.
    destruct (Z.leb_spec 0 n); [|lia]. cbn [andb].
    destruct (Z.ltb_spec n 8).
    - rewrite andb_true_r. symmetry. apply H. lia.
    - rewrite andb_false_r. apply testbit_byte_high. lia. }
  f_equal; [|f_equal; [|f_equal; [|f_equal]]]; apply P; try lia; intros n Hn;
    rewrite !Z.lor_spec, !Z.shiftl_spec by lia;
    repeat match goal with
    | |- context [Z.testbit (Cxx.uint32_of_byte ?y) ?i] =>
        first [ rewrite (testbit_byte_high y i) by lia
              | rewrite (Z.testbit_neg_r (Cxx.uint32_of_byte y) i) by lia ]
    end;
    rewrite ?orb_false_r; cbn [orb]; f_equal; lia.
Qed.

(** X1: a four-byte frame and its control word determine each other: the
    decoded word is a 32-bit value, encoding it gives the frame back, and
    when the word is within bounds (a frame the read path accepts) the
    write path, limit included, puts the very same four bytes on the
    wire. *)
Theorem decoded_frame_reencodes (theBytes : list byte) :
  length theBytes = 4%nat ->
  0 <= decodeControlWord theBytes < 2 ^ 32 /\
  encodeControlWord (decodeControlWord theBytes) = theBytes /\
  (decodeControlWord theBytes <= kSfeSTP3593LFFreqControlMaxValue ->
   encodeControlWord (limitControlWord (decodeControlWord theBytes)) = theBytes).
Proof.
  intros Hl.
  destruct theBytes as [|a [|b [|c [|d [|]]]]]; try discriminate.
  split; [apply decodeControlWord_range|].
  split; [apply encode_decode|].
  intros Hle. rewrite limitControlWord_min, Z.min_l by exact Hle.
  apply encode_decode.
Qed.

Lemma decoded_frame_reencodes_witness :
  encodeControlWord (decodeControlWord [x00; x07; xa1; x20]) = [x00; x07; xa1; x20].
Proof.
  exact (proj1 (proj2 (decoded_frame_reencodes [x00; x07; xa1; x20] eq_refl))).
Defined.

(* ===================================================================== *)
(** ** The cached control word and the save command *)
(* ===================================================================== *)

(** The conversion to [uint32_t] yields a 32-bit value. *)
Lemma uint32_of_double_range (x : float) : 0 <= Cxx.uint32_of_double x < 2 ^ 32.
Proof.
  rewrite uint32_of_double_reference_eq. unfold Cxx.uint32_of_double_reference.
  destruct (Prim2SF x); try lia.
  destruct (2 ^ 63 <=? _); [lia|].
  apply Z.mod_pos_bound. lia.
Qed.

(** [true &= x] keeps the lowest bit of [x]. *)
Lemma and_assign_true (x : Z) : and_assign true x = Z.odd x.
Proof.
  unfold and_assign. cbn [Z.b2z].
  rewrite Z.land_comm. change 1 with (Z.ones 1). rewrite Z.land_ones by lia.
  change (2 ^ 1) with 2. rewrite Zmod_odd.
  destruct (Z.odd x); reflexivity.
Qed.

Section Invariant.

Context {B : Type} `{Bus : sfTkII2C B} `{Cmd : sfTkII2C_writeByte B}.

Lemma readFrequencyControlWord_range (d : sfDevSTP3593LF B) :
  (fst (readFrequencyControlWord d) = true \/
   0 <= _frequencyControl d <= kSfeSTP3593LFFreqControlMaxValue) ->
  0 <= _frequencyControl (snd (readFrequencyControlWord d))
    <= kSfeSTP3593LFFreqControlMaxValue.
Proof.
  rewrite readFrequencyControlWord_unfold. cbv zeta.
  destruct (sfTkError_eqb _ _ && _ && _) eqn:E; cbn [fst snd _frequencyControl].
  - intros _.
    apply andb_prop in E. destruct E as [_ E]. apply Z.leb_le in E.
    pose proof (decodeControlWord_range
      (snd (fst (readRegisterRegion (_theBus d) kSfeSTP3593LFRegReadFrequencyControl 4)))).
    lia.
  - intros [H|H]; [discriminate|exact H].
Qed.

Lemma setFrequencyControlWord_range (d : sfDevSTP3593LF B) (freq : Z) :
  0 <= freq ->
  (fst (setFrequencyControlWord d freq) = true \/
   0 <= _frequencyControl d <= kSfeSTP3593LFFreqControlMaxValue) ->
  0 <= _frequencyControl (snd (setFrequencyControlWord d freq))
    <= kSfeSTP3593LFFreqControlMaxValue.
Proof.
  intros Hf. rewrite setFrequencyControlWord_unfold. cbv zeta.
  destruct (sfTkError_eqb _ _); cbn [fst snd _frequencyControl].
  - intros _. unfold kSfeSTP3593LFFreqControlMaxValue. lia.
  - intros [H|H]; [discriminate|exact H].
Qed.

Lemma begin_range (commBus : option B) (d : sfDevSTP3593LF B) :
  (fst (begin commBus d) = ksfTkErrOk \/
   0 <= _frequencyControl d <= kSfeSTP3593LFFreqControlMaxValue) ->
  0 <= _frequencyControl (snd (begin commBus d))
    <= kSfeSTP3593LFFreqControlMaxValue.
Proof.
  unfold begin. destruct commBus as [bus|]; cbn [fst snd].
  2:{ intros [H|H]; [discriminate|exact H]. }
  destruct (ping _) as [err b1]; cbn [fst snd].
  destruct (negb (sfTkError_eqb err ksfTkErrOk)); cbn [fst snd].
  { intros [H|H]; [discriminate|exact H]. }
  pose proof (readFrequencyControlWord_range (with_bus (with_bus d bus) b1)) as R1.
  destruct (readFrequencyControlWord (with_bus (with_bus d bus) b1)) as [ok1 d1].
  cbn [fst snd] in *.
  destruct ok1; cbn [fst snd].
  2:{ intros [H|H]; [discriminate|]. apply R1. right. exact H. }
  pose proof (readFrequencyControlWord_range d1) as R2.
  destruct (readFrequencyControlWord d1) as [ok2 d2]. cbn [fst snd] in *.
  intros _. apply R2. right. apply R1. left. reflexivity.
Qed.

Lemma setFrequencyByBiasMillis_range (st : Statics) (d : sfDevSTP3593LF B)
    (bias Pk Ik : float) :
  (fst (fst (setFrequencyByBiasMillis st d bias Pk Ik)) = true \/
   0 <= _frequencyControl d <= kSfeSTP3593LFFreqControlMaxValue) ->
  0 <= _frequencyControl (snd (setFrequencyByBiasMillis st d bias Pk Ik))
    <= kSfeSTP3593LFFreqControlMaxValue.
Proof.
  unfold setFrequencyByBiasMillis. cbv zeta.
  match goal with
  | |- context [setFrequencyControlWord d ?w] =>
      pose proof (setFrequencyControlWord_range d w
                    (proj1 (uint32_of_double_range _))) as R;
      destruct (setFrequencyControlWord d w) as [ok d1]
  end.
  cbn [fst snd] in *. exact R.
Qed.

(** What the save command does, in terms of the bus primitive. *)
Lemma saveFrequencyControlValue_unfold (d : sfDevSTP3593LF B) :
  saveFrequencyControlValue d =
  let w := writeByte (_theBus d) kSfeSTP3593LFRegSaveFrequency in
  if Z.odd (fst w) then readFrequencyControlWord (with_bus d (snd w))
  else (false, with_bus d (snd w)).
Proof.
  unfold saveFrequencyControlValue. cbv zeta.
  destruct (writeByte _ _) as [err bus]; cbn [fst snd].
  rewrite and_assign_true.
  destruct (Z.odd err); [|reflexivity].
  destruct (readFrequencyControlWord _) as [ok d1].
  rewrite and_assign_true. destruct ok; reflexivity.
Qed.

Lemma saveFrequencyControlValue_range (d : sfDevSTP3593LF B) :
  (fst (saveFrequencyControlValue d) = true \/
   0 <= _frequencyControl d <= kSfeSTP3593LFFreqControlMaxValue) ->
  0 <= _frequencyControl (snd (saveFrequencyControlValue d))
    <= kSfeSTP3593LFFreqControlMaxValue.
Proof.
  rewrite saveFrequencyControlValue_unfold. cbv zeta.
  destruct (Z.odd _).
  - apply (readFrequencyControlWord_range (with_bus d _)).
  - cbn [fst snd]. intros [H|H]; [discriminate|exact H].
Qed.

(** X2: the cached control word never leaves 0..1000000: [begin],
    [readFrequencyControlWord], [setFrequencyControlWord] (of an unsigned
    argument), [setFrequencyByBiasMillis] and [saveFrequencyControlValue]
    keep it there, and each of them that reports success puts it there
    whatever it was before; [setMaxFrequencyChangePPB] does not touch
    it. *)
Theorem control_word_stays_in_range (d : sfDevSTP3593LF B) :
  let ok c := 0 <= c <= kSfeSTP3593LFFreqControlMaxValue in
  (forall commBus,
     fst (begin commBus d) = ksfTkErrOk \/ ok (_frequencyControl d) ->
     ok (_frequencyControl (snd (begin commBus d)))) /\
  (fst (readFrequencyControlWord d) = true \/ ok (_frequencyControl d) ->
     ok (_frequencyControl (snd (readFrequencyControlWord d)))) /\
  (forall freq, 0 <= freq ->
     fst (setFrequencyControlWord d freq) = true \/ ok (_frequencyControl d) ->
     ok (_frequencyControl (snd (setFrequencyControlWord d freq)))) /\
  (forall st bias Pk Ik,
     fst (fst (setFrequencyByBiasMillis st d bias Pk Ik)) = true \/
     ok (_frequencyControl d) ->
     ok (_frequencyControl (snd (setFrequencyByBiasMillis st d bias Pk Ik)))) /\
  (fst (saveFrequencyControlValue d) = true \/ ok (_frequencyControl d) ->
     ok (_frequencyControl (snd (saveFrequencyControlValue d)))) /\
  (forall ppb, _frequencyControl (setMaxFrequencyChangePPB d ppb) = _frequencyControl d).
Proof.
  cbv zeta.
  split; [intros; apply begin_range; assumption|].
  split; [apply readFrequencyControlWord_range|].
  split; [intros; apply setFrequencyControlWord_range; assumption|].
  split; [intros; apply setFrequencyByBiasMillis_range; assumption|].
  split; [apply saveFrequencyControlValue_range|].
  reflexivity.
Qed.

(** X3: [saveFrequencyControlValue] folds the code returned by
    [writeByte] into a [bool] with [&=]: when the bus acknowledges the save
    command ([ksfTkErrOk], zero) the function returns false and does not
    re-read the register; with [ksfTkErrFail] (-1) it goes on and returns
    what [readFrequencyControlWord] returns.  It returns true only for an
    odd code followed by an accepted read. *)
Theorem saveFrequencyControlValue_outcome (d : sfDevSTP3593LF B) :
  let w := writeByte (_theBus d) kSfeSTP3593LFRegSaveFrequency in
  let out := saveFrequencyControlValue d in
  (fst w = ksfTkErrOk -> out = (false, with_bus d (snd w))) /\
  (fst w = ksfTkErrFail -> out = readFrequencyControlWord (with_bus d (snd w))) /\
  (fst out = true ->
     Z.odd (fst w) = true /\
     fst (readFrequencyControlWord (with_bus d (snd w))) = true).
Proof.
  cbv zeta. rewrite saveFrequencyControlValue_unfold. cbv zeta.
  split; [intros ->; reflexivity|].
  split; [intros ->; reflexivity|].
  destruct (Z.odd _); cbn [fst]; [tauto|discriminate].
Qed.

End Invariant.

Lemma saveFrequencyControlValue_outcome_witness :
  saveFrequencyControlValue (mkDev emulator_at_reset 500000 400%float)
  = (false, mkDev (mkEmulator [x00; x07; xa1; x20] kSfeSTP3593LFRegSaveFrequency)
                  500000 400%float) /\
  fst (saveFrequencyControlValue (mkDev bus_save_unacknowledged 0 400%float)) = true.
Proof.
  split.
  - rewrite (proj1 (saveFrequencyControlValue_outcome
                      (mkDev emulator_at_reset 500000 400%float)));
      reflexivity.
  - rewrite (proj1 (proj2 (saveFrequencyControlValue_outcome
                             (mkDev bus_save_unacknowledged 0 400%float))));
      reflexivity.
Defined.

(* ===================================================================== *)
(** ** One frame for each steering call *)
(* ===================================================================== *)

(** X4: whatever its arguments (NaN and infinities included), a call of
    [setFrequencyByBiasMillis] makes exactly one bus call: a write to
    register 0xA0 of a four-byte frame whose word lies in 0..1000000.  The
    call returns true exactly when that write succeeds, and the cached
    word is then the word of the frame; otherwise it is unchanged. *)
Theorem steering_writes_one_legal_frame
    {B : Type} `{Bus : sfTkII2C B}
    (st : Statics) (d : sfDevSTP3593LF (Logged B)) (bias Pk Ik : float) :
  let frame :=
    encodeControlWord (limitControlWord (requestedControlWord st d bias Pk Ik)) in
  let wire := writeRegisterRegion (inner (_theBus d)) kSfeSTP3593LFRegWriteDAC frame in
  let out := setFrequencyByBiasMillis st d bias Pk Ik in
  calls (_theBus (snd out)) =
    calls (_theBus d) ++ [CallWrite kSfeSTP3593LFRegWriteDAC frame] /\
  length frame = 4%nat /\
  0 <= decodeControlWord frame <= kSfeSTP3593LFFreqControlMaxValue /\
  (fst (fst out) = true <-> fst wire = ksfTkErrOk) /\
  _frequencyControl (snd out) =
    (if fst (fst out) then decodeControlWord frame else _frequencyControl d).
Proof.
  cbv zeta.
  unfold setFrequencyByBiasMillis, requestedControlWord. cbv zeta.
  set (w := Cxx.uint32_of_double _).
  pose proof (uint32_of_double_range
    (Cxx.round (limitedChange d bias * Pk
                + (seeded_I st d + limitedChange d bias * Ik))%float)) as Hw.
  fold w in Hw.
  pose proof (setFrequencyControlWord_logged d w) as E. cbv zeta in E.
  rewrite limitControlWord_min.
  assert (Hm : 0 <= Z.min w kSfeSTP3593LFFreqControlMaxValue < 2 ^ 32)
    by (unfold kSfeSTP3593LFFreqControlMaxValue; lia).
  rewrite (decode_encode _ Hm).
  destruct (setFrequencyControlWord d w) as [ok d1]. cbn [fst snd].
  destruct (sfTkError_eqb _ ksfTkErrOk) eqn:Ew;
    injection E as -> ->; cbn [_theBus calls _frequencyControl].
  - apply sfTkError_eqb_Ok in Ew.
    repeat split; try reflexivity; try (unfold kSfeSTP3593LFFreqControlMaxValue; lia).
    intros _. exact Ew.
  - repeat split; try reflexivity; try (unfold kSfeSTP3593LFFreqControlMaxValue; lia);
      try discriminate.
    intros H. apply sfTkError_eqb_Ok in H. congruence.
Qed.

(** X5: against the emulator a write is read back: after
    [setFrequencyControlWord d freq] the emulator holds the frame of
    [min freq 1000000], prints that word, and a following
    [readFrequencyControlWord] succeeds and caches it, whatever was cached
    before. *)
Theorem emulator_set_then_read (d : sfDevSTP3593LF Emulator) (freq : Z) :
  0 <= freq < 2 ^ 32 ->
  let w := Z.min freq kSfeSTP3593LFFreqControlMaxValue in
  let s := setFrequencyControlWord d freq in
  fst s = true /\
  _frequencyControl (snd s) = w /\
  registerBytes (_theBus (snd s)) = encodeControlWord w /\
  freqControl (_theBus (snd s)) = w /\
  (forall c,
     let r := readFrequencyControlWord (with_frequencyControl (snd s) c) in
     fst r = true /\ _frequencyControl (snd r) = w /\
     registerBytes (_theBus (snd r)) = encodeControlWord w).
Proof.
  intros Hf. cbv zeta.
  assert (Hm : 0 <= Z.min freq kSfeSTP3593LFFreqControlMaxValue < 2 ^ 32)
    by (unfold kSfeSTP3593LFFreqControlMaxValue; lia).
  rewrite setFrequencyControlWord_unfold. cbv zeta.
  cbn [writeRegisterRegion Emulator_bus fst snd sfTkError_eqb].
  change (sfTkError_eqb ksfTkErrOk ksfTkErrOk) with true. cbv iota.
  cbn [fst snd _frequencyControl _theBus registerBytes].
  set (w := Z.min freq kSfeSTP3593LFFreqControlMaxValue) in *.
  assert (Hreg : firstn 4 (encodeControlWord w
                           ++ skipn (length (encodeControlWord w)) (registerBytes (_theBus d)))
                 = encodeControlWord w) by reflexivity.
  rewrite Hreg.
  split; [reflexivity|]. split; [reflexivity|]. split; [reflexivity|].
  split; [unfold freqControl; apply decode_encode; exact Hm|].
  intros c. rewrite readFrequencyControlWord_unfold. cbv zeta.
  cbn [readRegisterRegion Emulator_bus fst snd with_frequencyControl _theBus
       registerBytes _maxFrequencyChangePPB].
  change (sfTkError_eqb ksfTkErrOk ksfTkErrOk) with true.
  change (firstn 4 (encodeControlWord w)) with (encodeControlWord w).
  rewrite (decode_encode _ Hm).
  change (length (encodeControlWord w) =? 4)%nat with true.
  cbn [andb].
  destruct (Z.leb_spec w kSfeSTP3593LFFreqControlMaxValue) as [_|H];
    [|unfold w in H; lia].
  repeat split.
Qed.

Lemma emulator_set_then_read_witness :
  let d := mkDev emulator_at_reset 500000 400%float in
  fst (setFrequencyControlWord d 1500000) = true /\
  freqControl (_theBus (snd (setFrequencyControlWord d 1500000))) = 1000000.
Proof.
  pose proof (emulator_set_then_read (mkDev emulator_at_reset 500000 400%float)
                1500000 ltac:(lia)) as H.
  cbv zeta in H. cbv zeta.
  split; [exact (proj1 H)|exact (proj1 (proj2 (proj2 (proj2 H))))].
Defined.

(* ===================================================================== *)
(** ** The emulator sketch *)
(* ===================================================================== *)

(** Past the fourth data byte the receive loop only counts. *)
Lemma receiveLoop_past_the_register (available : list byte) :
  forall count e, NUM_REG_BYTES <= count -> receiveLoop available count e = e.
Proof.
  induction available as [|b rest IH]; intros count e Hc; [reflexivity|].
  cbn [receiveLoop].
  destruct (Z.eqb_spec count (-1)); [unfold NUM_REG_BYTES in Hc; lia|].
  destruct (Z.ltb_spec count NUM_REG_BYTES); [lia|].
  apply IH. lia.
Qed.

(** One message: the first byte is the address, the data bytes overwrite
    the register from its first byte on, at most four of them. *)
Lemma receiveHandler_spec (e : Emulator) (a : byte) (data : list byte) :
  length (registerBytes e) = 4%nat ->
  receiveHandler e (a :: data) =
  mkEmulator (firstn 4 (data ++ skipn (length data) (registerBytes e)))
             (Cxx.uint32_of_byte a).
Proof.
  destruct e as [regs addr]. cbn [registerBytes]. intros Hl.
  destruct regs as [|r0 [|r1 [|r2 [|r3 [|]]]]]; try discriminate. clear Hl.
  unfold receiveHandler.
  destruct data as [|d0 [|d1 [|d2 [|d3 rest]]]]; try reflexivity.
  cbn [receiveLoop Z.eqb Z.ltb Z.compare Z.add NUM_REG_BYTES Pos.compare
       Pos.compare_cont registerBytes registerAddress array_store Z.to_nat
       Pos.to_nat Pos.iter_op Nat.add Z.pos_sub Pos.succ Z.succ_double Z.pred_double
       Z.double Pos.pred_double Z.opp Pos.add].
  rewrite receiveLoop_past_the_register by (unfold NUM_REG_BYTES; lia).
  reflexivity.
Qed.

Lemma requestHandler_register (e : Emulator) :
  length (registerBytes e) = 4%nat -> requestHandler e = registerBytes e.
Proof.
  destruct e as [regs addr]. cbn [registerBytes]. intros Hl.
  destruct regs as [|r0 [|r1 [|r2 [|r3 [|]]]]]; try discriminate.
  reflexivity.
Qed.

(** X6: the emulator sketch as the device: when [receiveHandler] gets an
    address byte, the driver's frame for [freq] and any further bytes, the
    register holds the frame of [min freq 1000000] (the further bytes are
    dropped), [loop] prints that word and [requestHandler] sends bytes the
    driver decodes to it; a message with an address byte only, or an
    empty one, leaves the register as it is. *)
Theorem sketch_receives_the_frame (e : Emulator) (a : byte) (freq : Z)
    (more : list byte) :
  length (registerBytes e) = 4%nat ->
  0 <= freq < 2 ^ 32 ->
  let w := Z.min freq kSfeSTP3593LFFreqControlMaxValue in
  let e1 := receiveHandler e
              (a :: encodeControlWord (limitControlWord freq) ++ more) in
  registerBytes e1 = encodeControlWord w /\
  registerAddress e1 = Cxx.uint32_of_byte a /\
  freqControl e1 = w /\
  decodeControlWord (requestHandler e1) = w /\
  (forall a', registerBytes (receiveHandler e1 [a']) = registerBytes e1) /\
  receiveHandler e1 [] = e1.
Proof.
  intros Hl Hf. cbv zeta.
  assert (Hm : 0 <= Z.min freq kSfeSTP3593LFFreqControlMaxValue < 2 ^ 32)
    by (unfold kSfeSTP3593LFFreqControlMaxValue; lia).
  rewrite (receiveHandler_spec e a _ Hl), limitControlWord_min.
  set (w := Z.min freq kSfeSTP3593LFFreqControlMaxValue) in *.
  assert (Hreg : firstn 4 ((encodeControlWord w ++ more)
                   ++ skipn (length (encodeControlWord w ++ more)) (registerBytes e))
                 = encodeControlWord w) by reflexivity.
  rewrite Hreg. cbn [registerBytes registerAddress].
  split; [reflexivity|]. split; [reflexivity|].
  split; [unfold freqControl; apply decode_encode; exact Hm|].
  split; [rewrite requestHandler_register by reflexivity; apply decode_encode; exact Hm|].
  split; [|reflexivity].
  intros a'. rewrite receiveHandler_spec by reflexivity. reflexivity.
Qed.

Lemma sketch_receives_the_frame_witness :
  freqControl (receiveHandler emulator_at_reset
                 (xa0 :: encodeControlWord (limitControlWord 1500000) ++ [xff]))
  = 1000000.
Proof.
  exact (proj1 (proj2 (proj2
    (sketch_receives_the_frame emulator_at_reset xa0 1500000 [xff]
       eq_refl ltac:(lia))))).
Defined.

(** X7: the bus double [Emulator] is the sketch seen from the driver: a
    region write is one message to [receiveHandler] (register address,
    then the data), a region read is an address-only message followed by
    the first [numBytes] bytes of [requestHandler], a command byte is an
    address-only message; the register keeps its four bytes. *)
Theorem emulator_bus_is_the_sketch (e : Emulator) (reg : Z) (data : list byte)
    (numBytes : nat) :
  length (registerBytes e) = 4%nat ->
  0 <= reg < 256 ->
  writeRegisterRegion e reg data
    = (ksfTkErrOk, receiveHandler e (Cxx.uint8_t reg :: data)) /\
  readRegisterRegion e reg numBytes
    = (ksfTkErrOk,
       firstn numBytes (requestHandler (receiveHandler e [Cxx.uint8_t reg])),
       receiveHandler e [Cxx.uint8_t reg]) /\
  writeByte e reg = (ksfTkErrOk, receiveHandler e [Cxx.uint8_t reg]) /\
  length (registerBytes (receiveHandler e (Cxx.uint8_t reg :: data))) = 4%nat.
Proof.
  intros Hl Hr.
  rewrite !(receiveHandler_spec e _ _ Hl), uint32_of_uint8, (Z.mod_small reg 256) by lia.
  assert (Hsame : firstn 4 ([] ++ skipn (length (@nil byte)) (registerBytes e))
                  = registerBytes e).
  { cbn [app length skipn]. rewrite <- Hl. apply firstn_all. }
  rewrite Hsame, requestHandler_register by exact Hl.
  cbn [registerBytes].
  split; [reflexivity|]. split; [reflexivity|]. split; [reflexivity|].
  rewrite length_firstn, length_app, length_skipn. lia.
Qed.

Lemma emulator_bus_is_the_sketch_witness :
  writeRegisterRegion emulator_at_reset kSfeSTP3593LFRegWriteDAC [x00; x00; x0e; xa6]
  = (ksfTkErrOk, receiveHandler emulator_at_reset [xa0; x00; x00; x0e; xa6]).
Proof.
  exact (proj1 (emulator_bus_is_the_sketch emulator_at_reset
                  kSfeSTP3593LFRegWriteDAC [x00; x00; x0e; xa6] 4
                  eq_refl ltac:(unfold kSfeSTP3593LFRegWriteDAC; lia))).
Defined.

(* ===================================================================== *)
(** ** The front ends *)
(* ===================================================================== *)

Section FrontEnds.

Context {B : Type} `{Bus : sfTkII2C B} `{Ard : sfTkArdI2C B}.

(** [begin] succeeds only on a bus that answers its ping. *)
Lemma begin_needs_the_ping (bus : B) (d : sfDevSTP3593LF B) :
  fst (begin (Some bus) d) = ksfTkErrOk -> fst (ping bus) = ksfTkErrOk.
Proof.
  unfold begin. cbn [with_bus _theBus].
  destruct (ping bus) as [err b1]; cbn [fst].
  destruct (sfTkError_eqb err ksfTkErrOk) eqn:E; cbn [negb fst].
  - intros _. apply sfTkError_eqb_Ok. exact E.
  - discriminate.
Qed.

Lemma beginDevice_cases (d : sfDevSTP3593LF B) :
  let p := ping (_theBus d) in
  let out := SfeSTP3593LFArdI2C.beginDevice d in
  (fst p = ksfTkErrOk -> out = (false, with_bus d (snd p))) /\
  (fst out = true ->
     fst p <> ksfTkErrOk /\ fst (ping (setStop (snd p) false)) = ksfTkErrOk).
Proof.
  cbv zeta. unfold SfeSTP3593LFArdI2C.beginDevice.
  destruct (ping (_theBus d)) as [err b1]; cbn [fst snd].
  destruct (sfTkError_eqb err ksfTkErrOk) eqn:E.
  - split; [reflexivity|]. cbn [fst]. discriminate.
  - split.
    + intros H. apply sfTkError_eqb_Ok in H. congruence.
    + cbn [with_bus _theBus _frequencyControl _maxFrequencyChangePPB].
      pose proof (begin_needs_the_ping (setStop b1 false)
        (mkDev (setStop b1 false) (_frequencyControl d) (_maxFrequencyChangePPB d))) as N.
      destruct (begin _ _) as [e2 d2]. cbn [fst] in *.
      intros H. apply sfTkError_eqb_Ok in H.
      split; [|apply N; exact H].
      intros H'. apply sfTkError_eqb_Ok in H'. congruence.
Qed.

(** X8: [SfeSTP3593LFArdI2C::begin] of the current header returns false
    as soon as the device answers the ping that follows [init], without
    reading the register; it can only return true when that ping fails
    and the ping made by [sfDevSTP3593LF::begin] right after succeeds.  On
    a bus whose ping answer does not change it never returns true. *)
Theorem front_end_begin_rejects_a_device_that_answers
    (d : sfDevSTP3593LF B) (wirePort : nat) (address : Z) :
  let i := init (_theBus d) address in
  let p := ping (snd i) in
  let out := SfeSTP3593LFArdI2C.begin_address d address in
  (fst i = ksfTkErrOk -> fst p = ksfTkErrOk -> out = (false, with_bus d (snd p))) /\
  (fst out = true ->
     fst i = ksfTkErrOk /\ fst p <> ksfTkErrOk /\
     fst (ping (setStop (snd p) false)) = ksfTkErrOk) /\
  ((forall b b' : B, fst (ping b) = fst (ping b')) ->
     fst out = false /\
     fst (SfeSTP3593LFArdI2C.begin_port d wirePort address) = false).
Proof.
  cbv zeta.
  assert (Stable : (forall b b' : B, fst (ping b) = fst (ping b')) ->
                   forall d0, fst (SfeSTP3593LFArdI2C.beginDevice d0) = false).
  { intros S d0. pose proof (beginDevice_cases d0) as [_ C]. cbv zeta in C.
    destruct (fst (SfeSTP3593LFArdI2C.beginDevice d0)); [|reflexivity].
    destruct (C eq_refl) as [N Y]. exfalso. apply N.
    rewrite <- Y. apply S. }
  unfold SfeSTP3593LFArdI2C.begin_address, SfeSTP3593LFArdI2C.begin_port.
  destruct (init (_theBus d) address) as [ei bi]; cbn [fst snd].
  destruct (init_port (_theBus d) wirePort address) as [ej bj]; cbn [fst snd].
  pose proof (beginDevice_cases (with_bus d bi)) as [C1 C2]. cbv zeta in C1, C2.
  cbn [with_bus _theBus _frequencyControl _maxFrequencyChangePPB] in *.
  split; [|split].
  - intros ->. change (negb (sfTkError_eqb ksfTkErrOk ksfTkErrOk)) with false.
    cbv iota. exact C1.
  - destruct (sfTkError_eqb ei ksfTkErrOk) eqn:E; cbn [negb fst]; [|discriminate].
    intros H. split; [apply sfTkError_eqb_Ok; exact E|]. apply C2. exact H.
  - intros S. split.
    + destruct (negb (sfTkError_eqb ei ksfTkErrOk)); [reflexivity|]. apply Stable, S.
    + destruct (negb (sfTkError_eqb ej ksfTkErrOk)); [reflexivity|]. apply Stable, S.
Qed.

End FrontEnds.

Lemma front_end_begin_rejects_a_device_that_answers_witness :
  fst (SfeSTP3593LFArdI2C.begin_address (mkDev emulator_at_reset 0 400%float)
         kDefaultSTP3593LFAddr) = false.
Proof.
  refine (proj1 (proj2 (proj2 (front_end_begin_rejects_a_device_that_answers
            (mkDev emulator_at_reset 0 400%float) 0%nat kDefaultSTP3593LFAddr)) _)).
  intros b b'. reflexivity.
Defined.

Section EarlierRevision.

Context {B : Type} `{Bus : sfTkII2C B} `{Ard : sfTkArdI2C B}.

Lemma readFrequencyControlWord_accepted (d : sfDevSTP3593LF B) :
  fst (readFrequencyControlWord d)
  = accepted (readRegisterRegion (_theBus d) kSfeSTP3593LFRegReadFrequencyControl 4) /\
  _theBus (snd (readFrequencyControlWord d))
  = snd (readRegisterRegion (_theBus d) kSfeSTP3593LFRegReadFrequencyControl 4).
Proof.
  rewrite readFrequencyControlWord_unfold. cbv zeta. unfold accepted.
  destruct (sfTkError_eqb _ _ && _ && _); split; reflexivity.
Qed.

Lemma driver_begin_is_begin (d : sfDevSTP3593LF B) :
  SfeSTP3593LFDriver.driver_begin d =
  (sfTkError_eqb (fst (begin (Some (_theBus d)) d)) ksfTkErrOk,
   snd (begin (Some (_theBus d)) d)).
Proof.
  unfold SfeSTP3593LFDriver.driver_begin, begin.
  assert (E : with_bus d (_theBus d) = d) by (destruct d; reflexivity).
  rewrite E.
  destruct (ping (_theBus d)) as [err b1].
  destruct (negb (sfTkError_eqb err ksfTkErrOk)); [reflexivity|].
  destruct (readFrequencyControlWord (with_bus d b1)) as [ok1 d1].
  destruct ok1; [|reflexivity].
  destruct (readFrequencyControlWord d1) as [ok2 d2].
  destruct ok2; reflexivity.
Qed.

(** X9: the earlier revision of the library agrees with the current
    driver: [SfeSTP3593LFDriver::begin] returns true exactly when
    [sfDevSTP3593LF::begin] on the same bus returns [ksfTkErrOk], and leaves
    the same object; its front end returns true exactly when [init], the
    ping and both register reads succeed, and stops at a failed [init]. *)
Theorem earlier_begin_agrees_with_begin (d : sfDevSTP3593LF B) (address : Z) :
  let i := init (_theBus d) address in
  let p := ping (setStop (snd i) false) in
  let r1 := readRegisterRegion (snd p) kSfeSTP3593LFRegReadFrequencyControl 4 in
  let r2 := readRegisterRegion (snd r1) kSfeSTP3593LFRegReadFrequencyControl 4 in
  let out := SfeSTP3593LFDriver.begin_address d address in
  SfeSTP3593LFDriver.driver_begin d =
    (sfTkError_eqb (fst (begin (Some (_theBus d)) d)) ksfTkErrOk,
     snd (begin (Some (_theBus d)) d)) /\
  (fst out = true <->
     fst i = ksfTkErrOk /\ fst p = ksfTkErrOk /\
     accepted r1 = true /\ accepted r2 = true) /\
  (fst i <> ksfTkErrOk -> out = (false, with_bus d (snd i))).
Proof.
  cbv zeta. split; [apply driver_begin_is_begin|].
  unfold SfeSTP3593LFDriver.begin_address, setCommunicationBus.
  destruct (init (_theBus d) address) as [ei bi]; cbn [fst snd].
  destruct (sfTkError_eqb ei ksfTkErrOk) eqn:Ei; cbn [negb].
  2:{ split; [|reflexivity]. cbn [fst]. split; [discriminate|].
      intros [H _]. apply sfTkError_eqb_Ok in H. congruence. }
  apply sfTkError_eqb_Ok in Ei. subst ei.
  split; [|intros H; contradiction H; reflexivity].
  cbn [with_bus _theBus _frequencyControl _maxFrequencyChangePPB].
  unfold SfeSTP3593LFDriver.driver_begin.
  cbn [with_bus _theBus _frequencyControl _maxFrequencyChangePPB].
  destruct (ping (setStop bi false)) as [ep bp]; cbn [fst snd].
  destruct (sfTkError_eqb ep ksfTkErrOk) eqn:Ep; cbn [negb].
  2:{ cbn [fst]. split; [discriminate|].
      intros (_ & H & _). apply sfTkError_eqb_Ok in H. congruence. }
  apply sfTkError_eqb_Ok in Ep. subst ep.
  match goal with
  | |- context [readFrequencyControlWord ?d0] =>
      pose proof (readFrequencyControlWord_accepted d0) as [A1 B1];
      destruct (readFrequencyControlWord d0) as [ok1 d1]
  end.
  unfold with_bus in A1, B1. cbn [fst snd _theBus] in A1, B1. rewrite <- A1, <- B1.
  destruct ok1.
  - pose proof (readFrequencyControlWord_accepted d1) as [A2 _].
    rewrite <- A2. tauto.
  - cbn [fst]. split; [discriminate|]. intros (_ & _ & H & _). discriminate.
Qed.

End EarlierRevision.

Lemma earlier_begin_agrees_with_begin_witness :
  fst (SfeSTP3593LFDriver.begin_address (mkDev emulator_at_reset 0 400%float)
         kDefaultSTP3593LFAddr) = true.
Proof.
  apply (proj1 (proj2 (earlier_begin_agrees_with_begin
                         (mkDev emulator_at_reset 0 400%float) kDefaultSTP3593LFAddr))).
  repeat split.
Defined.

(* ===================================================================== *)
(** ** The limiter and the direction of the change *)
(* ===================================================================== *)

Lemma leb_ltb_false (x y : float) :
  (x <=? y)%float = true -> (y <? x)%float = false.
Proof.
  rewrite FloatAxioms.leb_spec, FloatAxioms.ltb_spec.
  unfold SFleb, SFltb. rewrite (SFcompare_antisym (Prim2SF x) (Prim2SF y)).
  destruct (SFcompare (Prim2SF x) (Prim2SF y)) as [[]|]; cbn; congruence.
Qed.

(** X10: the limiter leaves alone what is within the limit: when the
    required change lies in [-maxChangeInLSBs, +maxChangeInLSBs] the
    limited change is the required change itself, and limiting a second
    time changes nothing. *)
Theorem limit_keeps_what_is_within
    {B : Type} (d : sfDevSTP3593LF B) (bias : float) :
  let maxChange := maxChangeInLSBs (_maxFrequencyChangePPB d) in
  let required := requiredChangeInLSBs bias in
  (0 - maxChange <=? required)%float = true ->
  (required <=? maxChange)%float = true ->
  limitedChange d bias = required /\
  limitChangeInLSBs (limitedChange d bias) maxChange = limitedChange d bias.
Proof.
  intros maxChange required Hlo Hhi.
  assert (E : limitChangeInLSBs required maxChange = required).
  { unfold limitChangeInLSBs.
    rewrite (leb_ltb_false _ _ Hhi), (leb_ltb_false _ _ Hlo).
    destruct (0.0 <=? required)%float; reflexivity. }
  unfold limitedChange. fold maxChange required. rewrite E. split; [reflexivity|exact E].
Qed.

Lemma limit_keeps_what_is_within_witness :
  limitedChange (mkDev emulator_at_reset 500000 400.0%float) 1.0e-7%float
  = requiredChangeInLSBs 1.0e-7.
Proof.
  apply (limit_keeps_what_is_within (mkDev emulator_at_reset 500000 400.0%float)
           1.0e-7%float); vm_compute; reflexivity.
Defined.

(** Rounding keeps the sign bit it is given. *)
Lemma binary_round_aux_signed (sx : bool) (m e : Z) (l : location) :
  0 <= m -> SFsigned sx (binary_round_aux prec emax sx m e l).
Proof.
  intros H.
  pose proof (binary_round_aux_not_nan sx m e l H) as Hn.
  revert Hn. unfold binary_round_aux.
  destruct (shr_fexp prec emax m e l) as [mrs' e'].
  destruct (shr_fexp prec emax _ e' loc_Exact) as [mrs'' e''].
  destruct (shr_m mrs'') as [|p|p]; cbn.
  - intros _. reflexivity.
  - destruct (e'' <=? 971); intros _; reflexivity.
  - intros X. apply X. reflexivity.
Qed.

Lemma SFdiv_by_positive (x : spec_float) (m : positive) (e : Z) :
  (SFnonneg x -> SFnonneg (SFdiv prec emax x (S754_finite false m e))) /\
  (SFnonpos x -> SFnonpos (SFdiv prec emax x (S754_finite false m e))).
Proof.
  destruct x as [sx|sx| |sx mx ex]; cbn [SFdiv SFnonneg SFnonpos xorb];
    try (split; intros H; try exact I; try contradiction; destruct sx; exact H).
  unfold SFdiv_core_binary.
  set (m' := match _ - _ with Z0 => _ | Zpos _ => _ | Zneg _ => _ end).
  assert (Hm : 0 <= m').
  { subst m'. destruct (_ - _); try lia. apply Z.shiftl_nonneg. lia. }
  pose proof (Z_div_mod m' (Zpos m) ltac:(lia)) as Hd.
  destruct (Z.div_eucl m' (Zpos m)) as [q r].
  assert (Hq : 0 <= q) by nia.
  cbv beta iota zeta.
  match goal with
  | |- context [binary_round_aux prec emax ?s ?q' ?e' ?l'] =>
      pose proof (binary_round_aux_signed s q' e' l' Hq) as S;
      destruct (binary_round_aux prec emax s q' e' l') as [t|t| |t mt et]
  end; cbn [SFsigned SFnonneg SFnonpos] in *; try contradiction;
    rewrite xorb_false_r in S; subst t; destruct sx; split; intros H; try exact I;
    try contradiction.
Qed.

Lemma nonpos_spec (x : float) :
  (x <=? 0)%float = true -> SFnonpos (Prim2SF x).
Proof.
  rewrite FloatAxioms.leb_spec. change (Prim2SF 0) with (S754_zero false).
  destruct (Prim2SF x) as [s|s| |s m e]; cbn; try destruct s; cbn;
    try discriminate; trivial.
Qed.

Lemma nonneg_leb (x : float) :
  SFnonneg (Prim2SF x) -> (0 <=? x)%float = true.
Proof.
  rewrite FloatAxioms.leb_spec. change (Prim2SF 0) with (S754_zero false).
  destruct (Prim2SF x) as [s|s| |s m e]; cbn; try destruct s; cbn;
    trivial; contradiction.
Qed.

Lemma nonpos_leb (x : float) :
  SFnonpos (Prim2SF x) -> (x <=? 0)%float = true.
Proof.
  rewrite FloatAxioms.leb_spec. change (Prim2SF 0) with (S754_zero false).
  destruct (Prim2SF x) as [s|s| |s m e]; cbn; try destruct s; cbn;
    trivial; contradiction.
Qed.

Lemma minus_nonpos_spec (x : float) :
  SFnonpos (Prim2SF x) -> SFnonneg (Prim2SF (0 - x)).
Proof.
  rewrite FloatAxioms.sub_spec. change (Prim2SF 0) with (S754_zero false).
  destruct (Prim2SF x) as [s|s| |s m e]; cbn; try destruct s; cbn; trivial.
Qed.

Lemma div_by_positive (x c : float) (m : positive) (e : Z) :
  Prim2SF c = S754_finite false m e ->
  (SFnonneg (Prim2SF x) -> SFnonneg (Prim2SF (x / c))) /\
  (SFnonpos (Prim2SF x) -> SFnonpos (Prim2SF (x / c))).
Proof.
  intros Hc. rewrite FloatAxioms.div_spec, Hc. apply SFdiv_by_positive.
Qed.

Lemma requiredChangeInLSBs_sign (bias : float) :
  (SFnonneg (Prim2SF bias) -> SFnonpos (Prim2SF (requiredChangeInLSBs bias))) /\
  (SFnonpos (Prim2SF bias) -> SFnonneg (Prim2SF (requiredChangeInLSBs bias))).
Proof.
  unfold requiredChangeInLSBs, error_of_bias.
  assert (C1 : exists m e, Prim2SF 1000.0 = S754_finite false m e)
    by (eexists _, _; vm_compute; reflexivity).
  assert (C2 : exists m e, Prim2SF kSfeSTP3593LFFreqControlResolution
                           = S754_finite false m e)
    by (eexists _, _; vm_compute; reflexivity).
  destruct C1 as (m1 & e1 & C1), C2 as (m2 & e2 & C2).
  split; intros H.
  - apply (div_by_positive _ _ _ _ C2), (div_by_positive _ _ _ _ C1).
    apply (minus_nonneg_spec _ H).
  - apply (div_by_positive _ _ _ _ C2), (div_by_positive _ _ _ _ C1).
    apply minus_nonpos_spec, H.
Qed.

Lemma limitChangeInLSBs_sign (required maxChange : float) :
  SFnonneg (Prim2SF maxChange) ->
  (SFnonpos (Prim2SF required) ->
     SFnonpos (Prim2SF (limitChangeInLSBs required maxChange))) /\
  (SFnonneg (Prim2SF required) ->
     SFnonneg (Prim2SF (limitChangeInLSBs required maxChange))).
Proof.
  intros Hm. unfold limitChangeInLSBs. split; intros Hr.
  - destruct (0.0 <=? required)%float eqn:E0.
    + destruct (maxChange <? required)%float eqn:E1; [|exact Hr].
      exfalso. revert E1 Hm Hr. rewrite FloatAxioms.ltb_spec.
      destruct (Prim2SF required) as [s|s| |s m e],
               (Prim2SF maxChange) as [t|t| |t n f];
        cbn; try contradiction; try discriminate;
        repeat match goal with b : bool |- _ => destruct b end;
        cbn; try contradiction; try discriminate.
    + destruct (required <? 0.0 - maxChange)%float; [|exact Hr].
      exact (minus_nonneg_spec _ Hm).
  - rewrite (nonneg_leb _ Hr).
    destruct (maxChange <? required)%float; assumption.
Qed.

(** X11: the change opposes the bias.  With a non-negative limit, a bias
    that is not negative (receiver clock ahead) gives a required and a
    limited change that are not positive, and a bias that is not positive
    gives changes that are not negative. *)
Theorem limited_change_opposes_the_bias
    {B : Type} (d : sfDevSTP3593LF B) (bias : float) :
  let maxChange := maxChangeInLSBs (_maxFrequencyChangePPB d) in
  (0 <=? maxChange)%float = true ->
  ((0 <=? bias)%float = true ->
     (requiredChangeInLSBs bias <=? 0)%float = true /\
     (limitedChange d bias <=? 0)%float = true) /\
  ((bias <=? 0)%float = true ->
     (0 <=? requiredChangeInLSBs bias)%float = true /\
     (0 <=? limitedChange d bias)%float = true).
Proof.
  intros maxChange Hmax.
  pose proof (nonneg_spec _ Hmax) as Hm.
  pose proof (requiredChangeInLSBs_sign bias) as [S1 S2].
  pose proof (limitChangeInLSBs_sign (requiredChangeInLSBs bias) maxChange Hm)
    as [L1 L2].
  unfold limitedChange. fold maxChange.
  split; intros Hb.
  - apply nonneg_spec in Hb. split; apply nonpos_leb; auto.
  - apply nonpos_spec in Hb. split; apply nonneg_leb; auto.
Qed.

Lemma limited_change_opposes_the_bias_witness :
  (limitedChange (mkDev emulator_at_reset 500000 3.0%float) 200.0e-6%float
   <=? 0)%float = true.
Proof.
  refine (proj2 (proj1 (limited_change_opposes_the_bias
            (mkDev emulator_at_reset 500000 3.0%float) 200.0e-6%float _) _));
    vm_compute; reflexivity.
Defined.

(* ===================================================================== *)
(** ** The integrator *)
(* ===================================================================== *)

(** A double is its own rounding. *)
Lemma finite_is_rounded (x : float) (s : bool) (m : positive) (e : Z) :
  Prim2SF x = S754_finite s m e ->
  0 <= round_exponent (Zpos m) e - e /\
  forall t, binary_round_aux prec emax t (Zpos m) e loc_Exact = S754_finite t m e.
Proof.
  intros Hx. destruct (finite_valid x s m e Hx) as (Hd & He & Hsub).
  assert (Hre : round_exponent (Zpos m) e = e).
  { unfold round_exponent. rewrite fexp_eq. cbn [Zdigits2]. lia. }
  split; [lia|]. intros t.
  rewrite binary_round_aux_spec by lia.
  rewrite Hre, Z.sub_diag.
  assert (Hr : rne (Zpos m) 0 = Zpos m).
  { unfold rne. change (2 ^ 0) with 1. rewrite Z.div_1_r, Z.mod_1_r. reflexivity. }
  rewrite Hr. unfold norm_out.
  pose proof (digits2_pos_bounds m) as Hb.
  assert (Hlt : Zpos m < 2 ^ 53).
  { apply Z.lt_le_trans with (2 ^ Zpos (digits2_pos m)); [lia|].
    apply Z.pow_le_mono_r; lia. }
  destruct (Z.eqb_spec (Zpos m) 0); [lia|].
  destruct (Z.ltb_spec (Zpos m) (2 ^ 53)); [|lia].
  destruct (Z.leb_spec e 971); [|lia].
  reflexivity.
Qed.

(** The mantissa aligned to a lower exponent. *)
Lemma shl_align_value (mx : positive) (ex ez : Z) :
  ez <= ex -> Zpos (fst (shl_align mx ex ez)) = Zpos mx * 2 ^ (ex - ez).
Proof.
  intros H. unfold shl_align.
  destruct (ez - ex) as [|p|p] eqn:E; cbn [fst].
  - replace (ex - ez) with 0 by lia. lia.
  - lia.
  - rewrite Zpos_iter_xO. f_equal. f_equal. lia.
Qed.

(** [binary_round] is [binary_round_aux] on an aligned mantissa of the
    same value. *)
Lemma binary_round_aligned (sx : bool) (p : positive) (ez : Z) :
  exists S' e',
    binary_round prec emax sx p ez = binary_round_aux prec emax sx S' e' loc_Exact /\
    0 < S' /\ e' <= ez /\ S' = Zpos p * 2 ^ (ez - e') /\
    0 <= round_exponent S' e' - e'.
Proof.
  unfold binary_round, shl_align.
  destruct (fexp prec emax (Zpos (digits2_pos p) + ez) - ez) as [|q|q] eqn:E.
  - exists (Zpos p), ez. rewrite Z.sub_diag, Z.mul_1_r.
    repeat split; try lia. unfold round_exponent. cbn [Zdigits2]. lia.
  - exists (Zpos p), ez. rewrite Z.sub_diag, Z.mul_1_r.
    repeat split; try lia. unfold round_exponent. cbn [Zdigits2]. lia.
  - exists (Zpos (Pos.iter xO p q)), (fexp prec emax (Zpos (digits2_pos p) + ez)).
    rewrite Zpos_iter_xO.
    replace (ez - fexp prec emax (Zpos (digits2_pos p) + ez)) with (Zpos q) by lia.
    repeat split; try lia.
    unfold round_exponent. rewrite Zdigits2_scale by lia. cbn [Zdigits2].
    replace (Zpos (digits2_pos p) + Zpos q
             + fexp prec emax (Zpos (digits2_pos p) + ez))
      with (Zpos (digits2_pos p) + ez) by lia.
    lia.
Qed.

Lemma round_ge (x : float) (s : bool) (m p : positive) (e ez : Z) :
  Prim2SF x = S754_finite s m e ->
  ez <= e -> Zpos m * 2 ^ (e - ez) <= Zpos p ->
  SFleb (S754_finite false m e) (binary_round prec emax false p ez) = true.
Proof.
  intros Hx Hz Hle.
  destruct (finite_is_rounded x s m e Hx) as [Ha Hr].
  destruct (binary_round_aligned false p ez) as (S' & e' & -> & HS & He & HS' & Hal).
  rewrite <- (Hr false).
  apply binary_round_aux_mono; try lia.
  rewrite Z.min_r by lia. rewrite Z.sub_diag, Z.mul_1_r, HS'.
  replace (e - e') with ((e - ez) + (ez - e')) by lia.
  rewrite Z.pow_add_r, Z.mul_assoc by lia.
  apply Z.mul_le_mono_nonneg_r; [apply Z.pow_nonneg; lia|exact Hle].
Qed.

Lemma round_le (x : float) (s : bool) (m p : positive) (e ez : Z) :
  Prim2SF x = S754_finite s m e ->
  ez <= e -> Zpos p <= Zpos m * 2 ^ (e - ez) ->
  SFleb (binary_round prec emax false p ez) (S754_finite false m e) = true.
Proof.
  intros Hx Hz Hle.
  destruct (finite_is_rounded x s m e Hx) as [Ha Hr].
  destruct (binary_round_aligned false p ez) as (S' & e' & -> & HS & He & HS' & Hal).
  rewrite <- (Hr false).
  apply binary_round_aux_mono; try lia.
  rewrite Z.min_l by lia. rewrite Z.sub_diag, Z.mul_1_r, HS'.
  replace (e - e') with ((e - ez) + (ez - e')) by lia.
  rewrite Z.pow_add_r, Z.mul_assoc by lia.
  apply Z.mul_le_mono_nonneg_r; [apply Z.pow_nonneg; lia|exact Hle].
Qed.

Lemma binary_round_aux_opp (m e : Z) (l : location) :
  binary_round_aux prec emax true m e l
  = SFopp (binary_round_aux prec emax false m e l).
Proof.
  unfold binary_round_aux.
  destruct (shr_fexp prec emax m e l) as [mrs' e'].
  destruct (shr_fexp prec emax _ e' loc_Exact) as [mrs'' e''].
  destruct (shr_m mrs'') as [|q|q]; try reflexivity.
  destruct (e'' <=? emax - prec); reflexivity.
Qed.

Lemma binary_round_opp (p : positive) (ez : Z) :
  binary_round prec emax true p ez = SFopp (binary_round prec emax false p ez).
Proof.
  unfold binary_round.
  destruct (shl_align p ez _) as [mz e']. apply binary_round_aux_opp.
Qed.

Lemma binary_round_nonneg (p : positive) (ez : Z) :
  SFnonneg (binary_round prec emax false p ez).
Proof.
  unfold binary_round.
  destruct (shl_align p ez _) as [mz e']. apply binary_round_aux_nonneg. lia.
Qed.

Lemma SFcompare_opp (a b : spec_float) :
  SFcompare (SFopp a) (SFopp b) = SFcompare b a.
Proof.
  rewrite (SFcompare_antisym a b).
  destruct a as [s|s| |s m e], b as [t|t| |t n f]; cbn;
    try destruct s; try destruct t; cbn; try reflexivity.
  - destruct (e ?= f); cbn; try reflexivity.
    rewrite CompOpp_involutive. reflexivity.
  - destruct (e ?= f); cbn; reflexivity.
Qed.

Lemma SFleb_opp (a b : spec_float) :
  SFleb (SFopp a) (SFopp b) = SFleb b a.
Proof. unfold SFleb. rewrite SFcompare_opp. reflexivity. Qed.

Lemma SFleb_neg_nonneg (m : positive) (e : Z) (y : spec_float) :
  SFnonneg y -> SFleb (S754_finite true m e) y = true.
Proof. destruct y as [t|t| |t n f]; cbn; try destruct t; cbn; trivial; contradiction. Qed.

Lemma SFleb_opp_nonneg_pos (m : positive) (e : Z) (y : spec_float) :
  SFnonneg y -> SFleb (SFopp y) (S754_finite false m e) = true.
Proof. destruct y as [t|t| |t n f]; cbn; try destruct t; cbn; trivial; contradiction. Qed.

Lemma SFadd_nonneg_ge (x : float) (y : spec_float) :
  SFfinite (Prim2SF x) -> SFnonneg y ->
  SFleb (Prim2SF x) (SFadd prec emax (Prim2SF x) y) = true.
Proof.
  intros Hf Hy.
  destruct (Prim2SF x) as [sx|sx| |sx mx ex] eqn:Hx; try contradiction.
  - destruct y as [t|t| |t n f]; cbn in Hy |- *; try contradiction;
      try destruct sx; try destruct t; try contradiction; reflexivity.
  - destruct y as [t|t| |t n f]; try contradiction.
    + cbn [SFadd]. unfold SFleb. rewrite SFcompare_refl by discriminate. reflexivity.
    + destruct t; [contradiction|]. destruct sx; reflexivity.
    + destruct t; [contradiction|]. cbn [SFadd].
      set (ez := Z.min ex f).
      rewrite !shl_align_value by (subst ez; lia).
      destruct sx; cbn [cond_Zopp].
      * destruct (- (Zpos mx * 2 ^ (ex - ez)) + Zpos n * 2 ^ (f - ez)) as [|q|q] eqn:ES;
          cbn [binary_normalize].
        -- reflexivity.
        -- apply SFleb_neg_nonneg, binary_round_nonneg.
        -- rewrite binary_round_opp.
           change (S754_finite true mx ex) with (SFopp (S754_finite false mx ex)).
           rewrite SFleb_opp.
           apply (round_le x true); [exact Hx|subst ez; lia|].
           assert (0 < Zpos n * 2 ^ (f - ez))
             by (apply Z.mul_pos_pos;
                 [lia|apply Z.pow_pos_nonneg; subst ez; lia]).
           lia.
      * assert (0 < Zpos n * 2 ^ (f - ez))
          by (apply Z.mul_pos_pos;
              [lia|apply Z.pow_pos_nonneg; subst ez; lia]).
        assert (0 < Zpos mx * 2 ^ (ex - ez))
          by (apply Z.mul_pos_pos;
              [lia|apply Z.pow_pos_nonneg; subst ez; lia]).
        destruct (Zpos mx * 2 ^ (ex - ez) + Zpos n * 2 ^ (f - ez)) as [|q|q] eqn:ES;
          try lia.
        cbn [binary_normalize].
        apply (round_ge x false); [exact Hx|subst ez; lia|lia].
Qed.

Lemma SFadd_nonpos_le (x : float) (y : spec_float) :
  SFfinite (Prim2SF x) -> SFnonpos y ->
  SFleb (SFadd prec emax (Prim2SF x) y) (Prim2SF x) = true.
Proof.
  intros Hf Hy.
  destruct (Prim2SF x) as [sx|sx| |sx mx ex] eqn:Hx; try contradiction.
  - destruct y as [t|t| |t n f]; cbn in Hy |- *; try contradiction;
      try destruct sx; try destruct t; try contradiction; reflexivity.
  - destruct y as [t|t| |t n f]; try contradiction.
    + cbn [SFadd]. unfold SFleb. rewrite SFcompare_refl by discriminate. reflexivity.
    + destruct t; [|contradiction]. destruct sx; reflexivity.
    + destruct t; [|contradiction]. cbn [SFadd].
      set (ez := Z.min ex f).
      rewrite !shl_align_value by (subst ez; lia).
      assert (0 < Zpos n * 2 ^ (f - ez))
        by (apply Z.mul_pos_pos;
            [lia|apply Z.pow_pos_nonneg; subst ez; lia]).
      assert (0 < Zpos mx * 2 ^ (ex - ez))
        by (apply Z.mul_pos_pos;
            [lia|apply Z.pow_pos_nonneg; subst ez; lia]).
      destruct sx; cbn [cond_Zopp].
      * destruct (- (Zpos mx * 2 ^ (ex - ez)) + - (Zpos n * 2 ^ (f - ez))) as [|q|q] eqn:ES;
          try lia.
        cbn [binary_normalize].
        rewrite binary_round_opp.
        change (S754_finite true mx ex) with (SFopp (S754_finite false mx ex)).
        rewrite SFleb_opp.
        apply (round_ge x true); [exact Hx|subst ez; lia|lia].
      * destruct (Zpos mx * 2 ^ (ex - ez) + - (Zpos n * 2 ^ (f - ez))) as [|q|q] eqn:ES;
          cbn [binary_normalize].
        -- reflexivity.
        -- apply (round_le x false); [exact Hx|subst ez; lia|lia].
        -- rewrite binary_round_opp.
           apply SFleb_opp_nonneg_pos, binary_round_nonneg.
Qed.

Lemma SFmul_by_nonneg (r k : spec_float) :
  SFfinite r -> SFfinite k -> SFnonneg k ->
  (SFnonneg r -> SFnonneg (SFmul prec emax r k)) /\
  (SFnonpos r -> SFnonpos (SFmul prec emax r k)).
Proof.
  intros Hr Hk Hs.
  destruct r as [s|s| |s m e], k as [t|t| |t n f]; try contradiction;
    cbn [SFmul SFnonneg SFnonpos]; try (split; intros; exact I).
  destruct t; [contradiction|]. rewrite xorb_false_r.
  pose proof (binary_round_aux_signed s (Zpos (m * n)) (e + f) loc_Exact
                ltac:(lia)) as S.
  destruct (binary_round_aux prec emax s (Zpos (m * n)) (e + f) loc_Exact)
    as [u|u| |u mu eu]; cbn [SFsigned SFnonneg SFnonpos] in *; try contradiction;
    subst u; destruct s; split; intros H; try exact I; try contradiction.
Qed.

Lemma leb_antisym (a b : float) :
  (a <=? b)%float = true -> (b <=? a)%float = true -> (a =? b)%float = true.
Proof.
  rewrite !FloatAxioms.leb_spec, FloatAxioms.eqb_spec. unfold SFleb, SFeqb.
  rewrite (SFcompare_antisym (Prim2SF a) (Prim2SF b)).
  destruct (SFcompare (Prim2SF a) (Prim2SF b)) as [[]|]; cbn; congruence.
Qed.

Section Integrator.

Context {B : Type} `{Bus : sfTkII2C B}.

(** X12: the integrator follows the error.  With a finite non-negative
    limit, a finite non-negative [Ik] and a finite integrator, the call
    adds [limitedChange * Ik]: the integrator does not grow when the bias
    is not negative, does not shrink when the bias is not positive, and
    with [Ik] zero it keeps its value. *)
Theorem integrator_follows_the_error
    (st : Statics) (d : sfDevSTP3593LF B) (bias Pk Ik : float) :
  let maxChange := maxChangeInLSBs (_maxFrequencyChangePPB d) in
  let I0 := seeded_I st d in
  let I1 := static_I (snd (fst (setFrequencyByBiasMillis st d bias Pk Ik))) in
  (0 <=? maxChange)%float = true ->
  Cxx.is_finite maxChange = true ->
  (0 <=? Ik)%float = true ->
  Cxx.is_finite Ik = true ->
  Cxx.is_finite I0 = true ->
  I1 = (I0 + limitedChange d bias * Ik)%float /\
  ((0 <=? bias)%float = true -> (I1 <=? I0)%float = true) /\
  ((bias <=? 0)%float = true -> (I0 <=? I1)%float = true) /\
  ((Ik =? 0)%float = true -> Cxx.is_nan bias = false -> (I1 =? I0)%float = true).
Proof.
  intros maxChange I0 I1 Hmax Hmaxf Hk Hkf HI.
  assert (E1 : I1 = (I0 + limitedChange d bias * Ik)%float).
  { subst I1 I0. unfold setFrequencyByBiasMillis. cbv zeta.
    destruct (setFrequencyControlWord _ _) as [ok d1]. reflexivity. }
  split; [exact E1|]. rewrite E1. clear E1 I1.
  pose proof (nonneg_spec _ Hmax) as Hm.
  pose proof (nonneg_spec _ Hk) as Hks.
  pose proof (is_finite_spec _ Hkf) as Hkfin.
  pose proof (is_finite_spec _ HI) as HIfin.
  pose proof (requiredChangeInLSBs_sign bias) as [S1 S2].
  pose proof (limitChangeInLSBs_sign (requiredChangeInLSBs bias) maxChange Hm)
    as [L1 L2].
  assert (Hrfin : Cxx.is_nan bias = false -> SFfinite (Prim2SF (limitedChange d bias))).
  { intros Hn. apply limitChangeInLSBs_finite; [|exact Hmaxf].
    apply requiredChangeInLSBs_not_nan, Hn. }
  assert (Down : SFnonneg (Prim2SF bias) ->
                 (I0 + limitedChange d bias * Ik <=? I0)%float = true).
  { intros Hb.
    rewrite FloatAxioms.leb_spec, FloatAxioms.add_spec, FloatAxioms.mul_spec.
    apply SFadd_nonpos_le; [exact HIfin|].
    apply SFmul_by_nonneg; try assumption.
    - apply Hrfin, nonneg_not_nan, Hb.
    - apply L1, S1, Hb. }
  assert (Up : SFnonpos (Prim2SF bias) ->
               (I0 <=? I0 + limitedChange d bias * Ik)%float = true).
  { intros Hb.
    rewrite FloatAxioms.leb_spec, FloatAxioms.add_spec, FloatAxioms.mul_spec.
    apply SFadd_nonneg_ge; [exact HIfin|].
    apply SFmul_by_nonneg; try assumption.
    - apply Hrfin, is_nan_false. destruct (Prim2SF bias); try discriminate; contradiction.
    - apply L2, S2, Hb. }
  split; [intros Hb; apply Down, nonneg_spec, Hb|].
  split; [intros Hb; apply Up, nonpos_spec, Hb|].
  intros Hz Hn.
  assert (Z0 : exists s, Prim2SF (limitedChange d bias * Ik) = S754_zero s).
  { revert Hz. rewrite FloatAxioms.eqb_spec, FloatAxioms.mul_spec.
    change (Prim2SF 0) with (S754_zero false).
    pose proof (Hrfin Hn) as Hr. unfold limitedChange in *. fold maxChange in Hr |- *.
    destruct (Prim2SF (limitChangeInLSBs (requiredChangeInLSBs bias) maxChange))
      as [s|s| |s m e]; try contradiction;
      destruct (Prim2SF Ik) as [t|t| |t n f]; cbn; try discriminate; eauto;
      destruct t; discriminate. }
  destruct Z0 as [s Z0].
  apply leb_antisym; rewrite FloatAxioms.leb_spec, FloatAxioms.add_spec, Z0.
  - apply SFadd_nonpos_le; [exact HIfin|exact I].
  - apply SFadd_nonneg_ge; [exact HIfin|exact I].
Qed.

End Integrator.

Lemma integrator_follows_the_error_witness :
  let d := mkDev emulator_at_reset 500000 3.0%float in
  let out := setFrequencyByBiasMillis statics_at_start d 200.0e-6%float
               (1.0 / 6.25)%float ((1.0 / 6.25) / 150.0)%float in
  (static_I (snd (fst out)) <=? seeded_I statics_at_start d)%float = true.
Proof.
  refine (proj1 (proj2 (integrator_follows_the_error statics_at_start
            (mkDev emulator_at_reset 500000 3.0%float) 200.0e-6%float
            (1.0 / 6.25)%float ((1.0 / 6.25) / 150.0)%float _ _ _ _ _)) _);
    vm_compute; reflexivity.
Defined.

(** The double of a positive 32-bit integer: the integer itself, its
    mantissa shifted up to 53 bits. *)
Lemma double_of_uint32_spec (c : Z) :
  0 < c < 2 ^ 32 ->
  exists k, 21 <= k <= 52 /\
    Prim2SF (Cxx.double_of_uint32 c) = S754_finite false (Z.to_pos (c * 2 ^ k)) (- k).
Proof.
  intros Hc. unfold Cxx.double_of_uint32.
  rewrite FloatAxioms.of_uint63_spec, Uint63.of_Z_spec.
  rewrite Z.mod_small by (change wB with 9223372036854775808; lia).
  destruct c as [|p|p]; try lia. cbn [binary_normalize].
  pose proof (digits2_pos_bounds p) as Hb.
  assert (Hd : 1 <= Zpos (digits2_pos p) <= 32).
  { split; [lia|].
    destruct (Z.le_gt_cases (Zpos (digits2_pos p)) 32) as [|G]; [assumption|].
    assert (2 ^ 32 <= 2 ^ (Zpos (digits2_pos p) - 1)) by (apply Z.pow_le_mono_r; lia).
    lia. }
  exists (53 - Zpos (digits2_pos p)). split; [lia|].
  unfold binary_round, shl_align. rewrite fexp_eq.
  destruct (Z.max (Zpos (digits2_pos p) + 0 - 53) (-1074) - 0) as [|q|q] eqn:E; try lia.
  rewrite Z.sub_0_r in E.
  assert (Hq : Zpos q = 53 - Zpos (digits2_pos p)) by lia.
  assert (Hdig : Zdigits2 (Zpos p * 2 ^ Zpos q) = 53).
  { rewrite Zdigits2_scale by lia. cbn [Zdigits2]. lia. }
  assert (Hre : round_exponent (Zpos p * 2 ^ Zpos q)
                  (Z.max (Zpos (digits2_pos p) + 0 - 53) (-1074))
                = Z.max (Zpos (digits2_pos p) + 0 - 53) (-1074)).
  { unfold round_exponent. rewrite Hdig, fexp_eq. lia. }
  rewrite Zpos_iter_xO.
  assert (Hpos : 0 < Zpos p * 2 ^ Zpos q)
    by (apply Z.mul_pos_pos; [lia|apply Z.pow_pos_nonneg; lia]).
  rewrite binary_round_aux_spec by lia.
  rewrite Hre, Z.sub_diag.
  assert (Hr : forall m, rne m 0 = m).
  { intros m. unfold rne. change (2 ^ 0) with 1.
    rewrite Z.div_1_r, Z.mod_1_r. reflexivity. }
  rewrite Hr. unfold norm_out.
  pose proof (Zdigits2_bounds _ Hpos) as [_ Hbd]. rewrite Hdig in Hbd.
  destruct (Z.eqb_spec (Zpos p * 2 ^ Zpos q) 0); [lia|].
  destruct (Z.ltb_spec (Zpos p * 2 ^ Zpos q) (2 ^ 53)); [|lia].
  destruct (Z.leb_spec (Z.max (Zpos (digits2_pos p) + 0 - 53) (-1074)) 971); [|lia].
  rewrite <- Hq. f_equal. lia.
Qed.

Lemma SFfinite_is_finite (x : float) :
  SFfinite (Prim2SF x) -> Cxx.is_finite x = true.
Proof.
  unfold Cxx.is_finite.
  rewrite FloatAxioms.ltb_spec, FloatAxioms.abs_spec.
  change (Prim2SF infinity) with (S754_infinity false).
  destruct (Prim2SF x) as [s|s| |s m e]; cbn; trivial; contradiction.
Qed.

Lemma double_of_uint32_nonneg_finite (c : Z) :
  0 <= c < 2 ^ 32 ->
  SFfinite (Prim2SF (Cxx.double_of_uint32 c)) /\
  SFnonneg (Prim2SF (Cxx.double_of_uint32 c)).
Proof.
  intros Hc. destruct (Z.eq_dec c 0) as [->|Hz].
  - vm_compute. split; exact I.
  - destruct (double_of_uint32_spec c ltac:(lia)) as (k & _ & ->). split; exact I.
Qed.

(** X13: the seed of the integrator is the control word, exactly: the
    first time [setFrequencyByBiasMillis] runs, [(double)_frequencyControl]
    is finite, not negative and an integer that [round] leaves alone, and
    [(uint32_t)] of it is the cached word again, for every 32-bit
    word. *)
Theorem seed_is_the_control_word
    {B : Type} (st : Statics) (d : sfDevSTP3593LF B) :
  static_initialized st = false ->
  0 <= _frequencyControl d < 2 ^ 32 ->
  let I := seeded_I st d in
  Cxx.is_finite I = true /\
  (0 <=? I)%float = true /\
  Cxx.round I = I /\
  Cxx.uint32_of_double I = _frequencyControl d /\
  Cxx.uint32_of_double (Cxx.round I) = _frequencyControl d.
Proof.
  intros Hst Hc I. subst I. unfold seeded_I. rewrite Hst.
  set (c := _frequencyControl d) in *.
  destruct (double_of_uint32_nonneg_finite c Hc) as [Hf Hn].
  split; [apply SFfinite_is_finite, Hf|].
  split; [apply nonneg_leb, Hn|].
  assert (R : Cxx.round (Cxx.double_of_uint32 c) = Cxx.double_of_uint32 c /\
              Cxx.uint32_of_double (Cxx.double_of_uint32 c) = c).
  { destruct (Z.eq_dec c 0) as [->|Hz]; [split; reflexivity|].
    destruct (double_of_uint32_spec c ltac:(lia)) as (k & Hk & E).
    assert (Hp : 0 < c * 2 ^ k)
      by (apply Z.mul_pos_pos; [lia|apply Z.pow_pos_nonneg; lia]).
    split.
    - rewrite round_reference_eq. unfold Cxx.round_reference. rewrite E.
      destruct (Z.leb_spec 0 (- k)); [lia|].
      rewrite Z2Pos.id by lia. rewrite Z.opp_involutive.
      replace ((c * 2 ^ k + 2 ^ (k - 1)) / 2 ^ k) with c; [reflexivity|].
      apply Z.div_unique with (2 ^ (k - 1)); [|lia].
      left. split; [apply Z.pow_nonneg; lia|].
      apply Z.pow_lt_mono_r; lia.
    - rewrite uint32_of_double_reference_eq. unfold Cxx.uint32_of_double_reference.
      rewrite E. rewrite Z2Pos.id by lia.
      rewrite Z.shiftl_div_pow2, Z.opp_involutive by lia.
      rewrite Z.div_mul by (apply Z.pow_nonzero; lia).
      destruct (Z.leb_spec (2 ^ 63) c); [lia|].
      apply Z.mod_small. lia. }
  destruct R as [R1 R2]. rewrite R1. repeat split; assumption.
Qed.

Lemma seed_is_the_control_word_witness :
  Cxx.uint32_of_double
    (Cxx.round (seeded_I statics_at_start (mkDev emulator_at_reset 4294967295 400%float)))
  = 4294967295.
Proof.
  refine (proj2 (proj2 (proj2 (proj2 (seed_is_the_control_word statics_at_start
            (mkDev emulator_at_reset 4294967295 400%float) eq_refl _))))).
  cbn. lia.
Defined.

Lemma zero_mul_is_zero (x : float) :
  SFfinite (Prim2SF x) -> (0.0 * x = 0 \/ 0.0 * x = -0)%float.
Proof.
  intros H.
  assert (E : exists s, Prim2SF (0.0 * x) = S754_zero s).
  { rewrite FloatAxioms.mul_spec. change (Prim2SF 0.0) with (S754_zero false).
    destruct (Prim2SF x) as [s|s| |s m e]; try contradiction; cbn; eauto. }
  destruct E as [s E].
  rewrite <- (SF2Prim_Prim2SF (0.0 * x)), E.
  destruct s; [right|left]; reflexivity.
Qed.

Lemma add_zero_eqb (x z : float) :
  SFfinite (Prim2SF x) -> (z = 0 \/ z = -0)%float -> (x + z =? x)%float = true.
Proof.
  intros Hx Hz.
  assert (Z0 : exists s, Prim2SF z = S754_zero s)
    by (destruct Hz as [-> | ->]; eexists; reflexivity).
  destruct Z0 as [s Z0].
  apply leb_antisym; rewrite FloatAxioms.leb_spec, FloatAxioms.add_spec, Z0.
  - apply SFadd_nonpos_le; [exact Hx|exact I].
  - apply SFadd_nonneg_ge; [exact Hx|exact I].
Qed.

Section ZeroBias.

Context {B : Type} `{Bus : sfTkII2C B}.

(** X14: with a zero bias (either sign), finite gains and a limit that
    is not negative, the first call of [setFrequencyByBiasMillis] asks for
    the cached control word again: the limited change is zero, the frame
    written is that of the cached word, the cache keeps it whether or not
    the write succeeds, and the integrator is left equal to the seed. *)
Theorem zero_bias_keeps_the_first_word
    (st : Statics) (d : sfDevSTP3593LF B) (bias Pk Ik : float) :
  let maxChange := maxChangeInLSBs (_maxFrequencyChangePPB d) in
  let C := _frequencyControl d in
  let wire := writeRegisterRegion (_theBus d) kSfeSTP3593LFRegWriteDAC
                (encodeControlWord C) in
  let out := setFrequencyByBiasMillis st d bias Pk Ik in
  (bias =? 0)%float = true ->
  (maxChange <? 0)%float = false ->
  Cxx.is_finite Pk = true ->
  Cxx.is_finite Ik = true ->
  static_initialized st = false ->
  0 <= C <= kSfeSTP3593LFFreqControlMaxValue ->
  limitedChange d bias = 0%float /\
  requestedControlWord st d bias Pk Ik = C /\
  (fst (fst out) = true <-> fst wire = ksfTkErrOk) /\
  _frequencyControl (snd out) = C /\
  (static_I (snd (fst out)) =? Cxx.double_of_uint32 C)%float = true.
Proof.
  intros maxChange C wire out Hb Hmax HPk HIk Hst HC.
  assert (Hreq : requiredChangeInLSBs bias = 0%float)
    by (destruct (float_zero_cases bias Hb) as [-> | ->]; vm_compute; reflexivity).
  assert (Hr : limitedChange d bias = 0%float).
  { unfold limitedChange. fold maxChange. rewrite Hreq. unfold limitChangeInLSBs.
    change (0.0 <=? 0)%float with true. cbv iota. rewrite Hmax. reflexivity. }
  pose proof (zero_mul_is_zero Pk (is_finite_spec _ HPk)) as HP.
  pose proof (zero_mul_is_zero Ik (is_finite_spec _ HIk)) as HI.
  assert (Hseed : seeded_I st d = Cxx.double_of_uint32 C)
    by (unfold seeded_I; rewrite Hst; reflexivity).
  assert (Hword : requestedControlWord st d bias Pk Ik = C).
  { unfold requestedControlWord. cbv zeta. rewrite Hr, Hseed.
    apply word_kept_spec; [exact HC|exact HP|exact HI]. }
  split; [exact Hr|]. split; [exact Hword|].
  subst out. unfold setFrequencyByBiasMillis. cbv zeta.
  unfold requestedControlWord in Hword. cbv zeta in Hword. rewrite Hword.
  rewrite setFrequencyControlWord_unfold. cbv zeta.
  rewrite (Z.min_l C) by lia. fold wire.
  rewrite Hr, Hseed.
  assert (HIeq : (Cxx.double_of_uint32 C + 0 * Ik =? Cxx.double_of_uint32 C)%float = true).
  { apply add_zero_eqb; [|exact HI].
    apply double_of_uint32_nonneg_finite.
    unfold kSfeSTP3593LFFreqControlMaxValue in HC. lia. }
  destruct (sfTkError_eqb (fst wire) ksfTkErrOk) eqn:E;
    cbn [fst snd static_I _frequencyControl].
  - apply sfTkError_eqb_Ok in E.
    split; [split; [intros _; exact E|reflexivity]|].
    split; [reflexivity|exact HIeq].
  - split; [split; [discriminate|]|].
    + intros H. apply sfTkError_eqb_Ok in H. congruence.
    + split; [reflexivity|exact HIeq].
Qed.

End ZeroBias.

Lemma zero_bias_keeps_the_first_word_witness :
  let d := mkDev emulator_at_reset 500000 400.0%float in
  let out := setFrequencyByBiasMillis statics_at_start d 0.0%float
               (1.0 / 6.25)%float ((1.0 / 6.25) / 150.0)%float in
  _frequencyControl (snd out) = 500000.
Proof.
  refine (proj1 (proj2 (proj2 (proj2 (zero_bias_keeps_the_first_word statics_at_start
            (mkDev emulator_at_reset 500000 400.0%float) 0.0%float
            (1.0 / 6.25)%float ((1.0 / 6.25) / 150.0)%float _ _ _ _ _ _)))));
    try (vm_compute; reflexivity).
  cbn. unfold kSfeSTP3593LFFreqControlMaxValue. lia.
Defined.

(** Adding a zero to the double of a 32-bit integer gives that double. *)
Lemma double_of_uint32_plus_zero (c : Z) (z : float) (s : bool) :
  0 <= c < 2 ^ 32 -> Prim2SF z = S754_zero s ->
  (Cxx.double_of_uint32 c + z)%float = Cxx.double_of_uint32 c.
Proof.
  intros Hc Hz. apply Prim2SF_inj.
  rewrite FloatAxioms.add_spec, Hz.
  destruct (Z.eq_dec c 0) as [->|Hn].
  - change (Prim2SF (Cxx.double_of_uint32 0)) with (S754_zero false).
    destruct s; reflexivity.
  - destruct (double_of_uint32_spec c ltac:(lia)) as (k & _ & ->). reflexivity.
Qed.

Section ProportionalOnly.

Context {B : Type} `{Bus : sfTkII2C B}.

(** X15: a call with [Ik] zero leaves the integrator where it found it.
    When the integrator the call starts from is the double of a 32-bit
    word [c] (the first call of the program with [c] cached, or a later
    call that finds the integrator at that value), a call with a number
    as bias, a finite limit and [Ik] zero leaves exactly that value in the
    integrator, with [initialized] set, so the next call on any object
    starts from it again; and the word it writes is computed from that
    value, [(uint32_t) round (limitedChange * Pk + (double) c)] limited to
    1000000, whatever word is cached: one write of its frame, committed
    when the write succeeds. *)
Theorem zero_Ik_leaves_the_seed
    (st : Statics) (d : sfDevSTP3593LF (Logged B)) (c : Z) (bias Pk Ik : float) :
  let maxChange := maxChangeInLSBs (_maxFrequencyChangePPB d) in
  let seed := Cxx.double_of_uint32 c in
  let r := limitedChange d bias in
  let word := limitControlWord (Cxx.uint32_of_double (Cxx.round (r * Pk + seed))) in
  let wire := writeRegisterRegion (inner (_theBus d)) kSfeSTP3593LFRegWriteDAC
                (encodeControlWord word) in
  let out := setFrequencyByBiasMillis st d bias Pk Ik in
  0 <= c < 2 ^ 32 ->
  seeded_I st d = seed ->
  Cxx.is_nan bias = false ->
  Cxx.is_finite maxChange = true ->
  (Ik =? 0)%float = true ->
  snd (fst out) = mkStatics seed true /\
  (forall d' : sfDevSTP3593LF (Logged B), seeded_I (snd (fst out)) d' = seed) /\
  calls (_theBus (snd out)) =
    calls (_theBus d) ++
    [CallWrite kSfeSTP3593LFRegWriteDAC (encodeControlWord word)] /\
  (fst (fst out) = true <-> fst wire = ksfTkErrOk) /\
  _frequencyControl (snd out) =
    (if fst (fst out) then word else _frequencyControl d).
Proof.
  intros maxChange seed r word wire out Hc Hseed Hn Hmax Hk.
  assert (Hr : SFfinite (Prim2SF r)).
  { unfold r, limitedChange. apply limitChangeInLSBs_finite; [|exact Hmax].
    apply requiredChangeInLSBs_not_nan, Hn. }
  assert (Z0 : exists s, Prim2SF (r * Ik) = S754_zero s).
  { revert Hk. rewrite FloatAxioms.eqb_spec, FloatAxioms.mul_spec.
    change (Prim2SF 0) with (S754_zero false).
    destruct (Prim2SF r) as [s|s| |s m e]; try contradiction;
      destruct (Prim2SF Ik) as [t|t| |t n f]; cbn; try discriminate; eauto;
      destruct t; discriminate. }
  destruct Z0 as [s Z0].
  pose proof (double_of_uint32_plus_zero c _ s Hc Z0) as HI. fold seed in HI.
  assert (Hout : out =
            (let l := mkLogged (snd wire)
                        (calls (_theBus d) ++
                         [CallWrite kSfeSTP3593LFRegWriteDAC (encodeControlWord word)]) in
             if sfTkError_eqb (fst wire) ksfTkErrOk
             then (true, mkStatics seed true, mkDev l word (_maxFrequencyChangePPB d))
             else (false, mkStatics seed true,
                   mkDev l (_frequencyControl d) (_maxFrequencyChangePPB d)))).
  { subst out. unfold setFrequencyByBiasMillis. cbv zeta.
    fold r. rewrite Hseed, HI.
    rewrite setFrequencyControlWord_logged. cbv zeta.
    rewrite <- limitControlWord_min. fold word. fold wire.
    destruct (sfTkError_eqb (fst wire) ksfTkErrOk); reflexivity. }
  rewrite Hout. cbv zeta.
  destruct (sfTkError_eqb (fst wire) ksfTkErrOk) eqn:E;
    cbn [fst snd _theBus calls _frequencyControl].
  - apply sfTkError_eqb_Ok in E.
    split; [reflexivity|]. split; [intros d'; reflexivity|].
    split; [reflexivity|]. split; [split; [intros _; exact E|reflexivity]|].
    reflexivity.
  - split; [reflexivity|]. split; [intros d'; reflexivity|].
    split; [reflexivity|]. split; [split; [discriminate|]|reflexivity].
    intros H. apply sfTkError_eqb_Ok in H. congruence.
Qed.

End ProportionalOnly.

Lemma zero_Ik_leaves_the_seed_witness :
  let d := mkDev (mkLogged emulator_at_reset []) 496250 3.0%float in
  let out := setFrequencyByBiasMillis (mkStatics 500000%float true) d
               200.0e-6%float 1.0%float 0.0%float in
  snd (fst out) = mkStatics 500000%float true /\
  calls (_theBus (snd out)) =
    [CallWrite kSfeSTP3593LFRegWriteDAC (encodeControlWord 496250)] /\
  _frequencyControl (snd out) = 496250.
Proof.
  intros d out.
  pose proof (zero_Ik_leaves_the_seed (mkStatics 500000%float true) d 500000
                200.0e-6%float 1.0%float 0.0%float
                ltac:(lia) ltac:(reflexivity) ltac:(reflexivity)
                ltac:(reflexivity) ltac:(reflexivity)) as H.
  cbv zeta in H.
  destruct H as (Hst & _ & Hcalls & _ & Hfc).
  split; [exact Hst|]. split; [exact Hcalls|exact Hfc].
Defined.

(* ===================================================================== *)
(** ** Not a number *)
(* ===================================================================== *)

Lemma is_nan_true (x : float) :
  Cxx.is_nan x = true <-> Prim2SF x = S754_nan.
Proof.
  pose proof (is_nan_false x) as H.
  destruct (Cxx.is_nan x); split; intros G; try reflexivity; try discriminate.
  - destruct (Prim2SF x); try reflexivity;
      (assert (F : true = false) by (apply H; discriminate); discriminate).
  - exfalso. apply (proj1 H); [reflexivity|exact G].
Qed.

(** NaN goes through the conversion of the bias and through the limiter. *)
Lemma limitedChange_nan {B : Type} (d : sfDevSTP3593LF B) (bias : float) :
  Cxx.is_nan bias = true -> Cxx.is_nan (limitedChange d bias) = true.
Proof.
  intros H. apply is_nan_true in H.
  assert (R : Prim2SF (requiredChangeInLSBs bias) = S754_nan).
  { unfold requiredChangeInLSBs, error_of_bias.
    rewrite !FloatAxioms.div_spec, FloatAxioms.sub_spec, H. reflexivity. }
  unfold limitedChange, limitChangeInLSBs.
  rewrite FloatAxioms.leb_spec, R.
  change (SFleb (Prim2SF 0.0) S754_nan) with false. cbv iota.
  rewrite FloatAxioms.ltb_spec, R.
  change (SFltb S754_nan (Prim2SF (0.0 - maxChangeInLSBs (_maxFrequencyChangePPB d))))
    with false. cbv iota.
  apply is_nan_true, R.
Qed.

Lemma mul_nan_l (x y : float) : Cxx.is_nan x = true -> Cxx.is_nan (x * y) = true.
Proof.
  rewrite !is_nan_true, FloatAxioms.mul_spec. intros ->. reflexivity.
Qed.

Lemma add_nan_l (x y : float) : Cxx.is_nan x = true -> Cxx.is_nan (x + y) = true.
Proof.
  rewrite !is_nan_true, FloatAxioms.add_spec. intros ->. reflexivity.
Qed.

Lemma add_nan_r (x y : float) : Cxx.is_nan y = true -> Cxx.is_nan (x + y) = true.
Proof.
  rewrite !is_nan_true, FloatAxioms.add_spec. intros ->.
  destruct (Prim2SF x); reflexivity.
Qed.

Section NotANumber.

Context {B : Type} `{Bus : sfTkII2C B}.

(** X16: a NaN bias poisons the integrator for good: after a call whose
    bias is NaN, or that finds a NaN in the integrator, the integrator is
    NaN, and so is the sum [P + I] whose conversion is written, whatever
    the gains, the limit and the cached word. *)
Theorem nan_stays_in_the_integrator
    (st : Statics) (d : sfDevSTP3593LF B) (bias Pk Ik : float) :
  let out := setFrequencyByBiasMillis st d bias Pk Ik in
  let r := limitedChange d bias in
  Cxx.is_nan bias = true \/
  (static_initialized st = true /\ Cxx.is_nan (static_I st) = true) ->
  static_initialized (snd (fst out)) = true /\
  Cxx.is_nan (static_I (snd (fst out))) = true /\
  Cxx.is_nan (r * Pk + static_I (snd (fst out))) = true /\
  requestedControlWord st d bias Pk Ik =
    Cxx.uint32_of_double (Cxx.round (r * Pk + static_I (snd (fst out)))).
Proof.
  intros out r H.
  assert (E : snd (fst out) = mkStatics (seeded_I st d + r * Ik)%float true).
  { subst out. unfold setFrequencyByBiasMillis. cbv zeta.
    destruct (setFrequencyControlWord _ _) as [ok d1]. reflexivity. }
  rewrite E. cbn [static_I static_initialized].
  assert (N : Cxx.is_nan (seeded_I st d + r * Ik) = true).
  { destruct H as [H|[Hi H]].
    - apply add_nan_r, mul_nan_l, limitedChange_nan, H.
    - apply add_nan_l. unfold seeded_I. rewrite Hi. exact H. }
  split; [reflexivity|]. split; [exact N|].
  split; [apply add_nan_r, N|reflexivity].
Qed.

End NotANumber.

Lemma nan_stays_in_the_integrator_witness :
  Cxx.is_nan
    (static_I (snd (fst (setFrequencyByBiasMillis statics_at_start
                           (mkDev emulator_at_reset 500000 400.0%float)
                           nan 1.0%float 0.0%float)))) = true.
Proof.
  refine (proj1 (proj2 (nan_stays_in_the_integrator statics_at_start
            (mkDev emulator_at_reset 500000 400.0%float) nan 1.0%float 0.0%float _))).
  left. reflexivity.
Defined.

(* ===================================================================== *)
(** ** Example02, end to end *)
(* ===================================================================== *)

Section Example02OnTheCurrentHeader.

Context {B : Type} `{Bus : sfTkII2C B} `{Ard : sfTkArdI2C B}.

(** X17: built with the current header, Example02 does not get past
    [begin]: when the device answers the ping after [init], and on every
    bus whose ping answer does not change, [setup] ends at "not detected"
    and [setFrequencyByBiasMillis] is never called; in the first case the
    bus has seen [init] and one ping only. *)
Theorem example02_stops_at_begin (myOCXO : sfDevSTP3593LF B) :
  let i := init (_theBus myOCXO) kDefaultSTP3593LFAddr in
  let p := ping (snd i) in
  let out :=
    Example02.setup
      (fun d => SfeSTP3593LFArdI2C.begin_address d kDefaultSTP3593LFAddr) myOCXO in
  (fst i = ksfTkErrOk -> fst p = ksfTkErrOk ->
     out = (Example02.NotDetected, with_bus myOCXO (snd p))) /\
  ((forall b b' : B, fst (ping b) = fst (ping b')) ->
     fst out = Example02.NotDetected).
Proof.
  cbv zeta. unfold Example02.setup.
  split.
  - intros Hi Hp.
    unfold SfeSTP3593LFArdI2C.begin_address.
    destruct (init (_theBus myOCXO) kDefaultSTP3593LFAddr) as [ei bi].
    cbn [fst snd] in *. subst ei.
    change (negb (sfTkError_eqb ksfTkErrOk ksfTkErrOk)) with false. cbv iota.
    pose proof (beginDevice_cases (with_bus myOCXO bi)) as [C _]. cbv zeta in C.
    cbn [with_bus _theBus] in C. rewrite (C Hp). reflexivity.
  - intros S.
    assert (F : fst (SfeSTP3593LFArdI2C.begin_address myOCXO kDefaultSTP3593LFAddr)
                = false).
    { unfold SfeSTP3593LFArdI2C.begin_address.
      destruct (init (_theBus myOCXO) kDefaultSTP3593LFAddr) as [ei bi].
      destruct (negb (sfTkError_eqb ei ksfTkErrOk)); [reflexivity|].
      pose proof (beginDevice_cases (with_bus myOCXO bi)) as [_ C]. cbv zeta in C.
      destruct (fst (SfeSTP3593LFArdI2C.beginDevice (with_bus myOCXO bi)));
        [|reflexivity].
      destruct (C eq_refl) as [N Y]. exfalso. apply N. rewrite <- Y. apply S. }
    destruct (SfeSTP3593LFArdI2C.begin_address myOCXO kDefaultSTP3593LFAddr)
      as [begun d1].
    cbn [fst] in F. subst begun. reflexivity.
Qed.

End Example02OnTheCurrentHeader.

Lemma example02_stops_at_begin_witness :
  fst (Example02.setup
         (fun d => SfeSTP3593LFArdI2C.begin_address d kDefaultSTP3593LFAddr)
         (mkDev emulator_at_reset 0 400%float))
  = Example02.NotDetected.
Proof.
  refine (proj2 (example02_stops_at_begin (mkDev emulator_at_reset 0 400%float)) _).
  intros b b'. reflexivity.
Defined.

(** X18: built with the earlier header and run against the emulator
    sketch, Example02 prints what its notes promise: with a register word
    [C] from 3750 to 1000000 it prints [C], "should be" [C - 3750] and
    "is" [C - 3750], and the emulator then holds the frame of [C - 3750];
    with a register word above 1000000 it ends at "not detected". *)
Theorem example02_on_the_emulator
    (regs : list byte) (addr : Z) (myOCXO : sfDevSTP3593LF Emulator) :
  _theBus myOCXO = mkEmulator regs addr ->
  length regs = 4%nat ->
  let C := decodeControlWord regs in
  let out :=
    Example02.setup
      (fun d => SfeSTP3593LFDriver.begin_address d kDefaultSTP3593LFAddr) myOCXO in
  (kSfeSTP3593LFFreqControlMaxValue < C -> fst out = Example02.NotDetected) /\
  (3750 <= C <= kSfeSTP3593LFFreqControlMaxValue ->
     fst out = Example02.Printed C (C - 3750) (C - 3750) /\
     registerBytes (_theBus (snd out)) = encodeControlWord (C - 3750) /\
     freqControl (_theBus (snd out)) = C - 3750).
Proof.
  intros Hbus Hl C out.
  destruct myOCXO as [bus fc ppb]. cbn [_theBus] in Hbus. subst bus.
  assert (Hfirst : firstn 4 regs = regs) by (rewrite <- Hl; apply firstn_all).
  assert (Hb : SfeSTP3593LFDriver.begin_address
                 (mkDev (mkEmulator regs addr) fc ppb) kDefaultSTP3593LFAddr
               = if C <=? kSfeSTP3593LFFreqControlMaxValue
                 then (true, mkDev (mkEmulator regs kSfeSTP3593LFRegReadFrequencyControl)
                                   C ppb)
                 else (false, mkDev (mkEmulator regs kSfeSTP3593LFRegReadFrequencyControl)
                                    fc ppb)).
  { unfold SfeSTP3593LFDriver.begin_address, SfeSTP3593LFDriver.driver_begin,
      setCommunicationBus.
    cbn [init setStop ping Emulator_ArdI2C Emulator_bus with_bus _theBus
         _frequencyControl _maxFrequencyChangePPB fst snd].
    change (negb (sfTkError_eqb ksfTkErrOk ksfTkErrOk)) with false. cbv iota.
    unfold with_bus. cbn [_theBus _frequencyControl _maxFrequencyChangePPB].
    rewrite !readFrequencyControlWord_unfold. cbv zeta.
    cbn [readRegisterRegion Emulator_bus fst snd _theBus registerBytes
         _frequencyControl _maxFrequencyChangePPB].
    rewrite Hfirst, Hl. fold C.
    change (sfTkError_eqb ksfTkErrOk ksfTkErrOk) with true.
    change (4 =? 4)%nat with true. cbn [andb].
    destruct (C <=? kSfeSTP3593LFFreqControlMaxValue) eqn:E; [|reflexivity].
    rewrite !readFrequencyControlWord_unfold. cbv zeta.
    cbn [readRegisterRegion Emulator_bus fst snd _theBus registerBytes
         _frequencyControl _maxFrequencyChangePPB].
    rewrite Hfirst, Hl. fold C. rewrite E.
    change (sfTkError_eqb ksfTkErrOk ksfTkErrOk) with true.
    change (4 =? 4)%nat with true. reflexivity. }
  subst out. unfold Example02.setup. rewrite Hb.
  split.
  - intros H. destruct (Z.leb_spec C kSfeSTP3593LFFreqControlMaxValue); [lia|].
    reflexivity.
  - intros H. destruct (Z.leb_spec C kSfeSTP3593LFFreqControlMaxValue); [|lia].
    cbn [negb]. cbv iota.
    unfold setFrequencyByBiasMillis, setMaxFrequencyChangePPB, getFrequencyControlWord.
    cbv zeta. cbn [_theBus _frequencyControl _maxFrequencyChangePPB].
    assert (Hlim : limitedChange
                     (mkDev (mkEmulator regs kSfeSTP3593LFRegReadFrequencyControl)
                            C 3.0%float) 200.0e-6
                   = example_change) by (vm_compute; reflexivity).
    rewrite Hlim.
    assert (Hseed : seeded_I statics_at_start
                      (mkDev (mkEmulator regs kSfeSTP3593LFRegReadFrequencyControl)
                             C 3.0%float)
                    = Cxx.double_of_uint32 C) by reflexivity.
    rewrite Hseed, (word_lowered_spec C H).
    rewrite setFrequencyControlWord_unfold. cbv zeta.
    rewrite (Z.min_l (C - 3750)) by lia.
    cbn [writeRegisterRegion Emulator_bus fst snd _theBus registerBytes
         _frequencyControl _maxFrequencyChangePPB].
    change (sfTkError_eqb ksfTkErrOk ksfTkErrOk) with true. cbv iota.
    cbn [fst snd _theBus registerBytes _frequencyControl].
    assert (Hreg : firstn 4 (encodeControlWord (C - 3750)
                     ++ skipn (length (encodeControlWord (C - 3750))) regs)
                   = encodeControlWord (C - 3750)) by reflexivity.
    rewrite Hreg.
    assert (Hw : Cxx.uint32_t (C - 3750) = C - 3750).
    { unfold Cxx.uint32_t. apply Z.mod_small.
      unfold kSfeSTP3593LFFreqControlMaxValue in H. lia. }
    rewrite Hw. split; [reflexivity|]. split; [reflexivity|].
    unfold freqControl. cbn [registerBytes]. apply decode_encode.
    unfold kSfeSTP3593LFFreqControlMaxValue in H. lia.
Qed.

Lemma example02_on_the_emulator_witness :
  fst (Example02.setup
         (fun d => SfeSTP3593LFDriver.begin_address d kDefaultSTP3593LFAddr)
         (mkDev emulator_at_reset 0 400%float))
  = Example02.Printed 500000 496250 496250.
Proof.
  refine (proj1 (proj2 (example02_on_the_emulator [x00; x07; xa1; x20] 0
                          (mkDev emulator_at_reset 0 400%float) eq_refl eq_refl) _)).
  vm_compute. split; discriminate.
Defined.
